(** * extensor_vazoes: analog-year selection by correlation and amplitude

    Shallow embedding of [extensor_vazoes/modelos.py]: the function
    [calc_corr_last12] and the classes [CorrelacaoAmplitude] and
    [SimpleCorrelation12] with their methods [fit] and [predict].

    Cells are binary64 floats (numpy's float64), periods are monthly
    ordinals, data frames live in a store of mutable objects, and the model
    object [self] is threaded through a small state-and-exception monad. *)

From Stdlib Require Import String.
From Stdlib Require Import Floats ZArith List Bool Lia Permutation Sorted.
Import ListNotations.
Local Open Scope Z_scope.

(* ================================================================== *)
(** ** Monthly periods *)

(** A [pandas.Period] of frequency [M] is its ordinal: the number of months
    since 1970-01. *)
Definition Period := Z.

Definition month (p : Period) : Z := p mod 12 + 1.
Definition year (p : Period) : Z := 1970 + p / 12.

(* ================================================================== *)
(** ** Data frames and series *)

Definition Row := list float.

(** A series indexed by periods (a column of a frame). *)
Definition Series := list (Period * float).

(** What [index.freq] is.  The frames of the embedding are indexed by
    periods: [Freq true] is a [PeriodIndex] of monthly frequency, whose
    labels are the ordinals above; [Freq false] is an index whose [freq] is
    anything else; [SemFreq] is an index that has no attribute [freq] (a
    [RangeIndex], a plain [Index]).  An index of timestamps that carries a
    [MonthEnd] frequency is not represented: its labels do not support
    [label + 1], the arithmetic of [fit] and [predict]. *)
Inductive IndexFreq : Type :=
| SemFreq
| Freq (month_end : bool).

Record DataFrame := mkDF {
  index_freq : IndexFreq;         (* index.freq *)
  index_name : option string;     (* index.name *)
  columns : list Z;               (* column labels (station numbers) *)
  rows : list (Period * Row)      (* index entry and cells, row by row *)
}.

(** [isinstance(index.freq, MonthEnd)], where the index has a [freq]. *)
Definition freq_month_end (d : DataFrame) : bool :=
  match index_freq d with
  | Freq month_end => month_end
  | SemFreq => false
  end.

Definition index (d : DataFrame) : list Period := map fst (rows d).
Definition values (d : DataFrame) : list Row := map snd (rows d).

Definition with_rows (rs : list (Period * Row)) (d : DataFrame) : DataFrame :=
  mkDF (index_freq d) (index_name d) (columns d) rs.

Definition with_index_name (n : option string) (d : DataFrame) : DataFrame :=
  mkDF (index_freq d) n (columns d) (rows d).

(** [pd.DataFrame()]; it also stands for what a dangling reference holds. *)
Definition empty_frame : DataFrame := mkDF SemFreq None [] [].

(** Element-wise operations between two aligned rows. *)
Fixpoint map2 {A B C : Type} (f : A -> B -> C) (l1 : list A) (l2 : list B) : list C :=
  match l1, l2 with
  | a :: l1', b :: l2' => f a b :: map2 f l1' l2'
  | _, _ => []
  end.

Definition series_div (a b : Row) : Row := map2 PrimFloat.div a b.
Definition series_gt (a b : Row) : list bool := map2 (fun x y => PrimFloat.ltb y x) a b.
Definition series_lt (a b : Row) : list bool := map2 (fun x y => PrimFloat.ltb x y) a b.

(** [(mask).sum()]: the number of [True] cells. *)
Definition count_true (l : list bool) : Z :=
  Z.of_nat (length (filter (fun b => b) l)).

(** Column [j] of a block of rows. *)
Definition column (j : nat) (vs : list Row) : list float :=
  map (fun r => nth j r nan) vs.

(** [df[df.index.month == m]] *)
Definition select_month (m : Z) (rs : list (Period * Row)) : list (Period * Row) :=
  filter (fun r => month (fst r) =? m) rs.

(** [df.iloc[-n:]] *)
Definition iloc_tail (n : nat) (rs : list (Period * Row)) : list (Period * Row) :=
  skipn (length rs - n) rs.

(** [df.shift(-1)]: every row takes the cells of the row below it, the last
    row is filled with NaN. *)
Definition shift_up (ncols : nat) (vs : list Row) : list Row :=
  match vs with
  | [] => []
  | _ :: tl => tl ++ [repeat nan ncols]
  end.

(** [df[(0 < df) & (df < np.Inf)]]: cells outside the mask become NaN. *)
Definition positive_finite (x : float) : bool :=
  PrimFloat.ltb 0 x && PrimFloat.ltb x infinity.

Definition mask_cell (x : float) : float :=
  if positive_finite x then x else nan.

(** Reductions [min()] and [max()] of a column with [skipna=True]: NaN cells
    are replaced by the neutral element, the column is reduced, and the
    result is nulled out when every cell was NaN. *)
Definition fmin (a b : float) : float := if PrimFloat.ltb b a then b else a.
Definition fmax (a b : float) : float := if PrimFloat.ltb a b then b else a.

Definition nanmin (l : list float) : float :=
  if forallb is_nan l then nan
  else fold_left fmin (map (fun x => if is_nan x then infinity else x) l) infinity.

Definition nanmax (l : list float) : float :=
  if forallb is_nan l then nan
  else fold_left fmax (map (fun x => if is_nan x then neg_infinity else x) l) neg_infinity.

(* ================================================================== *)
(** ** Exceptions *)

Inductive exn : Type :=
| Exception (msg : string)
| IndexError
| KeyError
| TypeError
| ValueError
| AttributeError.

Definition lastE {A : Type} (l : list A) : exn + A :=
  match rev l with
  | [] => inl IndexError
  | x :: _ => inr x
  end.

(** [df.iloc[0]] *)
Definition iloc0 (rs : list (Period * Row)) : exn + Row :=
  match rs with
  | [] => inl IndexError
  | r :: _ => inr (snd r)
  end.

(** [df.loc[label]]: a row when the label occurs once, the block of rows
    carrying it when it occurs several times, [KeyError] when it is absent. *)
Inductive LocResult : Type :=
| LocSeries (r : Row)
| LocFrame (rs : list (Period * Row)).

Definition loc (label : Period) (d : DataFrame) : exn + LocResult :=
  match filter (fun r => fst r =? label) (rows d) with
  | [] => inl KeyError
  | [r] => inr (LocSeries (snd r))
  | rs => inr (LocFrame rs)
  end.

Fixpoint position (c : Z) (l : list Z) : option nat :=
  match l with
  | [] => None
  | x :: l' => if x =? c then Some O else option_map S (position c l')
  end.

(** [df[c]] *)
Definition getitem (c : Z) (d : DataFrame) : exn + Series :=
  match position c (columns d) with
  | None => inl KeyError
  | Some j => inr (map (fun r => (fst r, nth j (snd r) nan)) (rows d))
  end.

Fixpoint is_monotonic_increasing (l : list Period) : bool :=
  match l with
  | [] => true
  | x :: l' =>
      match l' with
      | [] => true
      | y :: _ => (x <=? y) && is_monotonic_increasing l'
      end
  end.

Fixpoint drop_until {A : Type} (p : A -> bool) (l : list A) : list A :=
  match l with
  | [] => []
  | x :: l' => if p x then l else drop_until p l'
  end.

(** [df.loc[label:]]: on a monotonic index the slice starts at the first
    entry not below the label; otherwise the label itself is looked up.
    [df.loc[None:]] is the whole frame. *)
Definition loc_from (label : option Period) (d : DataFrame) : exn + list (Period * Row) :=
  match label with
  | None => inr (rows d)
  | Some p =>
      if is_monotonic_increasing (index d)
      then inr (drop_until (fun r => p <=? fst r) (rows d))
      else match drop_until (fun r => fst r =? p) (rows d) with
           | [] => inl KeyError
           | rs => inr rs
           end
  end.

(** [df.iloc[:n]], with Python's reading of a negative bound. *)
Definition iloc_head (n : Z) (rs : list (Period * Row)) : list (Period * Row) :=
  if 0 <=? n then firstn (Z.to_nat n) rs
  else firstn (length rs - Z.to_nat (- n)) rs.

(** [pd.period_range(start, periods=n, freq='M')] *)
Definition period_range (start : Period) (n : nat) : list Period :=
  map (fun k => start + Z.of_nat k) (seq 0 n).

(** [df.index = new_index], the two having the same length; the new index
    carries no name. *)
Definition set_index (idx : list Period) (d : DataFrame) : DataFrame :=
  with_index_name None (with_rows (combine idx (values d)) d).

(* ================================================================== *)
(** ** Ranking: [Series.sort_values(ascending=False)]

    pandas sorts the non-NaN entries and appends the NaN entries in their
    original order.  For a descending sort the entries are reversed, sorted
    ascending and reversed again.  The code leaves the ascending sort to
    numpy's default, which fixes the order of equal keys for short inputs
    only; the insertion sort below gives one of the orders the code can
    give, and nothing that is stated of the ranking rests on the order of
    equal keys. *)

Fixpoint insert_by_value (x : Period * float) (l : Series) : Series :=
  match l with
  | [] => [x]
  | y :: l' => if PrimFloat.leb (snd x) (snd y) then x :: l else y :: insert_by_value x l'
  end.

Definition argsort_asc (l : Series) : Series := fold_right insert_by_value [] l.

Definition sort_values_desc (s : Series) : Series :=
  let non_nans := filter (fun e => negb (is_nan (snd e))) s in
  let nans := filter (fun e => is_nan (snd e)) s in
  rev (argsort_asc (rev non_nans)) ++ nans.

(* ================================================================== *)
(** ** The model object *)

Definition ref := nat.

Inductive Motivo : Type :=
| MotivoGtMax (gt_max limite : Z)   (* f'gt_max = {gt_max} (> {max_gt_max})' *)
| MotivoLtMin (lt_min limite : Z)   (* f'lt_min = {lt_min} (> {max_lt_min})' *)
| MotivoAnoUtilizado.               (* 'ano utilizado em outro arquivo' *)

Record Rejeitado := mkRejeitado {
  ano : Z;
  correlacao : float;
  motivo : Motivo
}.

Record Amplitudes := mkAmplitudes {
  amp_min : Row;
  amp_max : Row;
  amp_escolhido : option Row
}.

Record CorrelacaoAmplitude := mkCA {
  coluna : Z;
  anos_ignorados : list Z;
  max_lt_min : Z;
  max_gt_max : Z;
  df_base : option ref;
  df_correlacao : option ref;
  ratio_mes : option (list (Period * Row));
  correlacao_ : option float;
  correlacao_outros_ : option LocResult;
  period_escolhido_ini_ : option Period;
  ano_escolhido_ : option Z;
  anos_rejeitados_ : option (list Rejeitado);
  amplitudes_ : option Amplitudes;
  gt_max_ : option Z;
  lt_min_ : option Z;
  posicao_ : option nat
}.

(** [CorrelacaoAmplitude.__init__] *)
Definition init (coluna : Z) (anos_ignorados : list Z) (max_lt_min max_gt_max : Z)
  : CorrelacaoAmplitude :=
  mkCA coluna anos_ignorados max_lt_min max_gt_max
       None None None None None None None None None None None None.

Definition set_df_base (r : ref) (m : CorrelacaoAmplitude) : CorrelacaoAmplitude :=
  mkCA (coluna m) (anos_ignorados m) (max_lt_min m) (max_gt_max m)
       (Some r) (df_correlacao m) (ratio_mes m) (correlacao_ m) (correlacao_outros_ m)
       (period_escolhido_ini_ m) (ano_escolhido_ m) (anos_rejeitados_ m) (amplitudes_ m)
       (gt_max_ m) (lt_min_ m) (posicao_ m).

Definition set_df_correlacao (r : ref) (m : CorrelacaoAmplitude) : CorrelacaoAmplitude :=
  mkCA (coluna m) (anos_ignorados m) (max_lt_min m) (max_gt_max m)
       (df_base m) (Some r) (ratio_mes m) (correlacao_ m) (correlacao_outros_ m)
       (period_escolhido_ini_ m) (ano_escolhido_ m) (anos_rejeitados_ m) (amplitudes_ m)
       (gt_max_ m) (lt_min_ m) (posicao_ m).

Definition set_ratio_mes (rm : list (Period * Row)) (m : CorrelacaoAmplitude)
  : CorrelacaoAmplitude :=
  mkCA (coluna m) (anos_ignorados m) (max_lt_min m) (max_gt_max m)
       (df_base m) (df_correlacao m) (Some rm) (correlacao_ m) (correlacao_outros_ m)
       (period_escolhido_ini_ m) (ano_escolhido_ m) (anos_rejeitados_ m) (amplitudes_ m)
       (gt_max_ m) (lt_min_ m) (posicao_ m).

Definition set_amplitudes (a : Amplitudes) (m : CorrelacaoAmplitude) : CorrelacaoAmplitude :=
  mkCA (coluna m) (anos_ignorados m) (max_lt_min m) (max_gt_max m)
       (df_base m) (df_correlacao m) (ratio_mes m) (correlacao_ m) (correlacao_outros_ m)
       (period_escolhido_ini_ m) (ano_escolhido_ m) (anos_rejeitados_ m) (Some a)
       (gt_max_ m) (lt_min_ m) (posicao_ m).

Definition set_anos_rejeitados (l : list Rejeitado) (m : CorrelacaoAmplitude)
  : CorrelacaoAmplitude :=
  mkCA (coluna m) (anos_ignorados m) (max_lt_min m) (max_gt_max m)
       (df_base m) (df_correlacao m) (ratio_mes m) (correlacao_ m) (correlacao_outros_ m)
       (period_escolhido_ini_ m) (ano_escolhido_ m) (Some l) (amplitudes_ m)
       (gt_max_ m) (lt_min_ m) (posicao_ m).

(** [self.anos_rejeitados_.append(r)] *)
Definition append_rejeitado (r : Rejeitado) (m : CorrelacaoAmplitude) : CorrelacaoAmplitude :=
  match anos_rejeitados_ m with
  | Some l => set_anos_rejeitados (l ++ [r]) m
  | None => m
  end.

(** The assignments of an accepted candidate (the tail of the loop body). *)
Definition set_escolhido (posicao : nat) (next_period : Period) (new_ratio : Row)
    (gt_max lt_min : Z) (m : CorrelacaoAmplitude) : CorrelacaoAmplitude :=
  mkCA (coluna m) (anos_ignorados m) (max_lt_min m) (max_gt_max m)
       (df_base m) (df_correlacao m) (ratio_mes m) (correlacao_ m) (correlacao_outros_ m)
       (Some next_period) (Some (year next_period)) (anos_rejeitados_ m)
       (option_map (fun a => mkAmplitudes (amp_min a) (amp_max a) (Some new_ratio))
                   (amplitudes_ m))
       (Some gt_max) (Some lt_min) (Some posicao).

Definition set_correlacao (c : float) (m : CorrelacaoAmplitude) : CorrelacaoAmplitude :=
  mkCA (coluna m) (anos_ignorados m) (max_lt_min m) (max_gt_max m)
       (df_base m) (df_correlacao m) (ratio_mes m) (Some c) (correlacao_outros_ m)
       (period_escolhido_ini_ m) (ano_escolhido_ m) (anos_rejeitados_ m) (amplitudes_ m)
       (gt_max_ m) (lt_min_ m) (posicao_ m).

Definition set_correlacao_outros (c : LocResult) (m : CorrelacaoAmplitude)
  : CorrelacaoAmplitude :=
  mkCA (coluna m) (anos_ignorados m) (max_lt_min m) (max_gt_max m)
       (df_base m) (df_correlacao m) (ratio_mes m) (correlacao_ m) (Some c)
       (period_escolhido_ini_ m) (ano_escolhido_ m) (anos_rejeitados_ m) (amplitudes_ m)
       (gt_max_ m) (lt_min_ m) (posicao_ m).

(* ================================================================== *)
(** ** Store of frames, and the monad of the methods

    A state is the store of data-frame objects (a reference is a position in
    it) and the model object.  A computation returns the new state together
    with a value or the exception raised; what was assigned before an
    exception stays assigned. *)

Record St := mkSt { heap : list DataFrame; self : CorrelacaoAmplitude }.

Definition M (A : Type) : Type := St -> St * (exn + A).

Definition ret {A : Type} (a : A) : M A := fun s => (s, inr a).

Definition raise {A : Type} (e : exn) : M A := fun s => (s, inl e).

Definition bind {A B : Type} (m : M A) (k : A -> M B) : M B :=
  fun s =>
    match m s with
    | (s', inr a) => k a s'
    | (s', inl e) => (s', inl e)
    end.

Notation "x <- m ;; k" := (bind m (fun x => k))
  (at level 61, m at next level, right associativity).
Notation "m ;;; k" := (bind m (fun _ => k))
  (at level 61, right associativity).

Definition lift {A : Type} (x : exn + A) : M A :=
  match x with
  | inl e => raise e
  | inr a => ret a
  end.

Definition deref (r : ref) : M DataFrame :=
  fun s => (s, inr (nth r (heap s) empty_frame)).

Definition alloc (d : DataFrame) : M ref :=
  fun s => (mkSt (heap s ++ [d]) (self s), inr (length (heap s))).

Fixpoint update_nth {A : Type} (n : nat) (f : A -> A) (l : list A) : list A :=
  match l, n with
  | [], _ => []
  | x :: l', O => f x :: l'
  | x :: l', S n' => x :: update_nth n' f l'
  end.

(** In-place mutation of the object a reference points to. *)
Definition mutate (r : ref) (f : DataFrame -> DataFrame) : M unit :=
  fun s => (mkSt (update_nth r f (heap s)) (self s), inr tt).

(** [df.copy()] *)
Definition copy (r : ref) : M ref := d <- deref r ;; alloc d.

Definition get_self : M CorrelacaoAmplitude := fun s => (s, inr (self s)).

Definition set_self (f : CorrelacaoAmplitude -> CorrelacaoAmplitude) : M unit :=
  fun s => (mkSt (heap s) (f (self s)), inr tt).

(** [self.df_base], as a frame; [None] has none of the attributes used. *)
Definition self_df_base : M DataFrame :=
  me <- get_self ;;
  match df_base me with
  | None => raise AttributeError
  | Some r => deref r
  end.

(** [self.amplitudes_[...]]; [None] is not subscriptable. *)
Definition self_amplitudes : M Amplitudes :=
  me <- get_self ;;
  match amplitudes_ me with
  | None => raise TypeError
  | Some a => ret a
  end.

(* ================================================================== *)
(** ** The methods *)

Section Model.

(** The cell pandas computes at one row of [x.rolling(12).corr(y)] for one
    column: library code, taken as a parameter.  pandas works the column
    down with running sums, so the cell at row [i] is a function of the
    row and of the two whole columns, not of the twelve cells of the window
    alone: the parameter receives the row and the two columns. *)
Variable corr : nat -> list float -> list float -> float.

(** The twelve cells of a column that end at row [i]. *)
Definition window (i : nat) (l : list float) : list float :=
  firstn 12 (skipn (i - 11) l).

(** [x.rolling(12).corr(y)]: NaN until twelve rows are available. *)
Definition rolling_corr (x y : DataFrame) : list (Period * Row) :=
  map (fun i =>
         (nth i (index x) 0,
          map (fun j =>
                 if (i <? 11)%nat then nan
                 else corr i (column j (values x)) (column j (values y)))
              (seq 0 (length (columns x)))))
      (seq 0 (length (rows x))).

(** [df_other[df_other.index.month == month] = row] *)
Definition setitem_month (m : Z) (v : Row) (d : DataFrame) : DataFrame :=
  with_rows (map (fun r => if month (fst r) =? m then (fst r, v) else r) (rows d)) d.

(** The loop [for month in range(1, 13)] of [calc_corr_last12]. *)
Fixpoint spread (df_other : ref) (df_trecho : list (Period * Row)) (months : list Z)
  : M unit :=
  match months with
  | [] => ret tt
  | m :: ms =>
      v <- lift (iloc0 (select_month m df_trecho)) ;;
      mutate df_other (setitem_month m v) ;;;
      spread df_other df_trecho ms
  end.

Definition range_1_13 : list Z := [1; 2; 3; 4; 5; 6; 7; 8; 9; 10; 11; 12].

Definition calc_corr_last12 (df_hist : ref) : M ref :=
  hist <- deref df_hist ;;
  match index_freq hist with
  | SemFreq =>
      (* df_hist.index.freq: the index has no such attribute *)
      raise AttributeError
  | Freq month_end =>
      if negb month_end
      then raise (Exception "Favor informar dataframe periodizado mensalmente.")
      else
        df_ref <- copy df_hist ;;
        ref_now <- deref df_ref ;;
        let df_trecho := iloc_tail 12 (rows ref_now) in
        df_other <- copy df_ref ;;
        spread df_other df_trecho range_1_13 ;;;
        x <- deref df_ref ;;
        y <- deref df_other ;;
        let corr_rows := rolling_corr x y in
        mes_final <- lift (lastE (map (fun r => month (fst r)) df_trecho)) ;;
        df_corr <- alloc (with_rows (select_month mes_final corr_rows) x) ;;
        mutate df_corr (with_index_name (Some "mes_final"%string)) ;;;
        ret df_corr
  end.

(** The ratio table of [fit]: [df / df.shift(-1)], masked. *)
Definition ratio_rows (base : DataFrame) : list (Period * Row) :=
  combine (index base)
          (map (map mask_cell)
               (map2 series_div (values base)
                     (shift_up (length (columns base)) (values base)))).

(** [ratio_mes.min()] and [ratio_mes.max()]: one cell per column. *)
Definition column_min (ncols : nat) (rs : list (Period * Row)) : Row :=
  map (fun j => nanmin (column j (map snd rs))) (seq 0 ncols).

Definition column_max (ncols : nat) (rs : list (Period * Row)) : Row :=
  map (fun j => nanmax (column j (map snd rs))) (seq 0 ncols).

(** The candidate walk [for posicao in range(1, len(top_corr))]. *)
Fixpoint walk (top_corr : Series) (posicoes : list nat) : M unit :=
  match posicoes with
  | [] => ret tt
  | posicao :: rest =>
      let _period := fst (nth posicao top_corr (0, nan)) in
      let next_period := _period + 1 in
      base <- self_df_base ;;
      found <- lift (loc (_period + 1) base) ;;
      ultimo <- lift (lastE (values base)) ;;
      match found with
      | LocFrame _ => raise ValueError
      | LocSeries candidato =>
          let new_ratio := series_div candidato ultimo in
          amp <- self_amplitudes ;;
          let gt_max := count_true (series_gt new_ratio (amp_max amp)) in
          let lt_min := count_true (series_lt new_ratio (amp_min amp)) in
          me <- get_self ;;
          if max_gt_max me <? gt_max then
            set_self (append_rejeitado
                        (mkRejeitado (year next_period)
                                     (snd (nth posicao top_corr (0, nan)))
                                     (MotivoGtMax gt_max (max_gt_max me)))) ;;;
            walk top_corr rest
          else if max_lt_min me <? lt_min then
            set_self (append_rejeitado
                        (mkRejeitado (year next_period)
                                     (snd (nth posicao top_corr (0, nan)))
                                     (MotivoLtMin lt_min (max_lt_min me)))) ;;;
            walk top_corr rest
          else if existsb (Z.eqb (year next_period)) (anos_ignorados me) then
            set_self (append_rejeitado
                        (mkRejeitado (year next_period)
                                     (snd (nth posicao top_corr (0, nan)))
                                     MotivoAnoUtilizado)) ;;;
            walk top_corr rest
          else
            set_self (set_escolhido posicao next_period new_ratio gt_max lt_min)
      end
  end.

(** The two assignments after the loop; [iloc[None]] is a [TypeError]. *)
Definition finish (top_corr : Series) : M unit :=
  me <- get_self ;;
  match posicao_ me with
  | None => raise TypeError
  | Some p =>
      match nth_error top_corr p with
      | None => raise IndexError
      | Some e =>
          set_self (set_correlacao (snd e)) ;;;
          match df_correlacao me with
          | None => raise AttributeError
          | Some c =>
              table <- deref c ;;
              outros <- lift (loc (fst e) table) ;;
              set_self (set_correlacao_outros outros)
          end
      end
  end.

(** [CorrelacaoAmplitude.fit] *)
Definition fit (df_base : ref) : M unit :=
  r <- copy df_base ;;
  set_self (set_df_base r) ;;;
  c <- calc_corr_last12 df_base ;;
  set_self (set_df_correlacao c) ;;;
  me <- get_self ;;
  table <- deref c ;;
  col <- lift (getitem (coluna me) table) ;;
  let top_corr := sort_values_desc col in
  base <- self_df_base ;;
  last_period <- lift (lastE (index base)) ;;
  let df_ratio := ratio_rows base in
  set_self (set_ratio_mes (select_month (month last_period) df_ratio)) ;;;
  let ncols := length (columns base) in
  let ratio_mes := select_month (month last_period) df_ratio in
  set_self (set_amplitudes
              (mkAmplitudes (column_min ncols ratio_mes) (column_max ncols ratio_mes) None)) ;;;
  set_self (set_anos_rejeitados []) ;;;
  walk top_corr (seq 1 (length top_corr - 1)) ;;;
  finish top_corr.

(** [CorrelacaoAmplitude.predict].  [index[-1] + 1] and [period_range] are
    the arithmetic of monthly periods, the labels of the frames [fit]
    returns on; what the code does with the labels of a frame [fit] refused
    is not described by this definition. *)
Definition predict (num_meses : option Z) : M ref :=
  me <- get_self ;;
  let mes_escolhido_ini := period_escolhido_ini_ me in
  base <- self_df_base ;;
  ultimo <- lift (lastE (index base)) ;;
  let next_month := ultimo + 1 in
  let informado := match num_meses with
                   | Some n => negb (n =? 0)
                   | None => false
                   end in
  n <- (if informado
        then ret (match num_meses with Some n => n | None => 0 end)
        else match mes_escolhido_ini with
             | None => raise AttributeError
             | Some p => ret (13 - month p)
             end) ;;
  desde <- lift (loc_from mes_escolhido_ini base) ;;
  let df_escolhido := with_rows (iloc_head n desde) base in
  df_trecho_ajust <- alloc df_escolhido ;;
  mutate df_trecho_ajust
         (set_index (period_range next_month (length (rows df_escolhido)))) ;;;
  ret df_trecho_ajust.

End Model.

(* ================================================================== *)
(** ** A concrete correlation kernel

    Pearson's coefficient of two windows of twelve cells, with the formula
    of pandas' [rolling.corr]: the covariance from the means of the
    products, corrected to one degree of freedom, over the root of the
    product of the sample variances.  [pearson_rolling] applies it to the
    two windows that end at a row; it instantiates the parameter [corr]
    wherever a statement is evaluated on concrete data.  It is one kernel
    among those the statements range over: pandas reaches the same
    quantity from running sums, and its cells can differ from these in
    the last bits. *)

Definition fsum (l : list float) : float := fold_left PrimFloat.add l 0%float.

Definition fmean (l : list float) : float := (fsum l / 12)%float.

Definition fvar (l : list float) : float :=
  let m := fmean l in
  (fsum (map (fun a => (a - m) * (a - m)) l) / 11)%float.

Definition pearson (x y : list float) : float :=
  let numerator :=
    ((fmean (map2 PrimFloat.mul x y) - fmean x * fmean y) * (12 / 11))%float in
  let denominator := PrimFloat.sqrt (fvar x * fvar y)%float in
  (numerator / denominator)%float.

Definition pearson_rolling (i : nat) (x y : list float) : float :=
  pearson (window i x) (window i y).

(** Running a method on a fresh model. *)
Definition run {A : Type} (m : M A) (h : list DataFrame) (me : CorrelacaoAmplitude)
  : St * (exn + A) :=
  m (mkSt h me).

(* ================================================================== *)
(** ** Vocabulary of the properties *)

(** The candidate ratio of a forecast-start month: the row of that month
    over the last row of the series, station by station.  Undefined when
    the month does not label exactly one row or the series is empty. *)
Definition candidate_ratio (base : DataFrame) (start : Period) : option Row :=
  match loc start base, lastE (values base) with
  | inr (LocSeries candidato), inr ultimo => Some (series_div candidato ultimo)
  | _, _ => None
  end.

(** Number of stations whose ratio is above the historical maximum, and
    below the historical minimum. *)
Definition above_count (ratio : Row) (amp : Amplitudes) : Z :=
  count_true (series_gt ratio (amp_max amp)).

Definition below_count (ratio : Row) (amp : Amplitudes) : Z :=
  count_true (series_lt ratio (amp_min amp)).

(** A candidate rejected by one of the three checks of the walk. *)
Definition rejected_by_checks (base : DataFrame) (amp : Amplitudes)
    (anos : list Z) (max_lt max_gt : Z) (start : Period) : Prop :=
  exists ratio,
    candidate_ratio base start = Some ratio /\
    (max_gt < above_count ratio amp \/
     max_lt < below_count ratio amp \/
     In (year start) anos).

(** The error taxonomy of the specification, and the one exception of the
    code that belongs to it: the message raised for an index that is not
    monthly.  Every other exception is an uncontrolled library error. *)
Inductive SpecError : Type :=
| InvalidIndexKind
| InsufficientHistory
| NoAcceptableAnalog
| HorizonExceedsHistory.

Definition classify (e : exn) : option SpecError :=
  match e with
  | Exception msg =>
      if String.eqb msg "Favor informar dataframe periodizado mensalmente."
      then Some InvalidIndexKind else None
  | _ => None
  end.

(** Cell of row [t], station [j]; NaN past the end of the series, as in the
    shifted frame. *)
Definition cell (base : DataFrame) (t j : nat) : float :=
  match nth_error (values base) t with
  | Some r => nth j r nan
  | None => nan
  end.

(** The ratios [value[t] / value[t+1]] of station [j] over the rows whose
    calendar month is that of the last row, and those among them that are
    strictly positive and finite. *)
Definition month_ratios (base : DataFrame) (j : nat) : list float :=
  match lastE (index base) with
  | inl _ => []
  | inr last_period =>
      map (fun t => (cell base t j / cell base (S t) j)%float)
          (filter (fun t => month (nth t (index base) 0) =? month last_period)
                  (seq 0 (length (rows base))))
  end.

Definition retained_ratios (base : DataFrame) (j : nat) : list float :=
  filter positive_finite (month_ratios base j).

Definition is_minimum (m : float) (l : list float) : Prop :=
  In m l /\ forall x, In x l -> PrimFloat.leb m x = true.

Definition is_maximum (m : float) (l : list float) : Prop :=
  In m l /\ forall x, In x l -> PrimFloat.leb x m = true.

(** Rectangular frame: every row has one cell per column. *)
Definition rectangular (d : DataFrame) : Prop :=
  Forall (fun r => length (snd r) = length (columns d)) (rows d).

(** The exception a candidate without a ratio makes the walk raise. *)
Definition candidate_error (base : DataFrame) (start : Period) : exn :=
  match loc start base with
  | inl e => e
  | inr _ =>
      match lastE (values base) with
      | inl e => e
      | inr _ => ValueError
      end
  end.

(** Forecast-start month of the candidate at a rank of the ranking. *)
Definition start_of (top_corr : Series) (posicao : nat) : Period :=
  fst (nth posicao top_corr (0, nan)) + 1.

(** The model object on entry to the candidate walk of [fit], run on a
    fresh model whose base copy is stored at [b] and whose correlation
    table is stored at [c]. *)
Definition model_before_walk (fresh : CorrelacaoAmplitude) (b c : ref)
    (base : DataFrame) (last_period : Period) : CorrelacaoAmplitude :=
  let ratio_mes := select_month (month last_period) (ratio_rows base) in
  let ncols := length (columns base) in
  set_anos_rejeitados []
    (set_amplitudes
       (mkAmplitudes (column_min ncols ratio_mes) (column_max ncols ratio_mes) None)
       (set_ratio_mes ratio_mes (set_df_correlacao c (set_df_base b fresh)))).

(** The amplitude bounds [fit] computes for a base series. *)
Definition bounds_of (base : DataFrame) (last_period : Period) : Amplitudes :=
  let ratio_mes := select_month (month last_period) (ratio_rows base) in
  let ncols := length (columns base) in
  mkAmplitudes (column_min ncols ratio_mes) (column_max ncols ratio_mes) None.

(* ================================================================== *)
(** ** A worked series

    Thirty-six months from 1970-01 for three stations: 6 (the reference
    station), 74, and 169, whose value is zero at both year boundaries so
    that none of its boundary ratios is retained. *)

Definition ano_1970 : list Row :=
  [[5; 9; 3]; [9; 4; 3]; [4; 6; 3]; [8; 8; 3]; [12; 3; 3]; [20; 6; 3];
   [18; 5; 3]; [11; 2; 3]; [9; 8; 3]; [5; 7; 3]; [3; 1; 3]; [4; 9; 3]]%float.

Definition ano_1971 : list Row :=
  [[2; 6; 0]; [5; 10; 3]; [9; 16; 3]; [13; 28; 3]; [20; 41; 3]; [33; 70; 3];
   [31; 60; 3]; [21; 44; 3]; [16; 30; 3]; [9; 20; 3]; [5; 12; 3]; [6; 9; 3]]%float.

Definition ano_1972 : list Row :=
  [[6; 8; 0]; [5; 11; 3]; [8; 17; 3]; [13; 27; 3]; [21; 43; 3]; [34; 69; 3];
   [30; 61; 3]; [22; 45; 3]; [15; 31; 3]; [9; 19; 3]; [6; 13; 3]; [4; 9; 3]]%float.

Definition serie : DataFrame :=
  mkDF (Freq true) None [6; 74; 169]
       (combine (map Z.of_nat (seq 0 36)) (ano_1970 ++ ano_1971 ++ ano_1972)).

(** A series that never varies. *)
Definition serie_constante : DataFrame :=
  mkDF (Freq true) None [6] (map (fun k => (Z.of_nat k, [1%float])) (seq 0 36)).

(** [fit] on a fresh model of station 6, the series stored at reference 0. *)
Definition fit_serie (anos : list Z) (max_lt max_gt : Z) : St * (exn + unit) :=
  run (fit pearson_rolling 0%nat) [serie] (init 6 anos max_lt max_gt).

(** The ranking [fit] walked, read back from the stored correlation table. *)
Definition ranking_of (c0 : Z) (s : St) : Series :=
  match df_correlacao (self s) with
  | None => []
  | Some c =>
      match getitem c0 (nth c (heap s) empty_frame) with
      | inl _ => []
      | inr col => sort_values_desc col
      end
  end.

(** Failing with one of the errors of the specification. *)
Definition fails_with {A : Type} (res : exn + A) (k : SpecError) : Prop :=
  exists e, res = inl e /\ classify e = Some k.

(** The rows of a series from the first one labelled [start] on. *)
Definition rows_from (start : Period) (d : DataFrame) : list (Period * Row) :=
  drop_until (fun r => fst r =? start) (rows d).

(** [fit] on the series that never varies, with the default limits. *)
Definition fit_constante : St * (exn + unit) :=
  run (fit pearson_rolling 0%nat) [serie_constante] (init 6 [] 80 80).

(** The fitted model of the worked series, no year excluded, limits of five
    stations: the forecast starts in 1972-01 (period 24). *)
Definition fitted_serie : St := fst (fit_serie [] 5 5).

(** The bounds a state holds (empty before [fit] assigns them). *)
Definition amplitudes_of (s : St) : Amplitudes :=
  match amplitudes_ (self s) with
  | Some a => a
  | None => mkAmplitudes [] [] None
  end.

(* ================================================================== *)
(** ** Vocabulary of the further properties *)

(** Every calendar month of [range(1, 13)] labels a row of the block. *)
Definition months_covered (tr : list (Period * Row)) : bool :=
  forallb (fun m => existsb (fun r => month (fst r) =? m) tr) range_1_13.

(** The cells of the first row of the block whose calendar month is [m]. *)
Definition reference_row (tr : list (Period * Row)) (m : Z) : Row :=
  match select_month m tr with
  | [] => []
  | r :: _ => snd r
  end.

(** The series with every row replaced by the row of the reference block
    that has the same calendar month. *)
Definition broadcast (tr : list (Period * Row)) (d : DataFrame) : DataFrame :=
  with_rows (map (fun r => (fst r, reference_row tr (month (fst r)))) (rows d)) d.

(** The message of [calc_corr_last12] for an index that is not monthly. *)
Definition msg_not_monthly : string :=
  "Favor informar dataframe periodizado mensalmente.".

(** What line 30 raises for a frame it does not let through: the message
    of line 31, or the [AttributeError] of an index without [freq]. *)
Definition refusal (d : DataFrame) : exn :=
  match index_freq d with
  | SemFreq => AttributeError
  | Freq _ => Exception msg_not_monthly
  end.

(** The last twelve cells of a column laid over its whole length, month
    for month: in a column of [n] cells of consecutive months, row [k]
    takes the cell of the row among the last twelve that has its calendar
    month, which is row [n - 12 + (k - (n - 12)) mod 12]. *)
Definition tiled (l : list float) : list float :=
  map (fun k =>
         nth (Z.to_nat (Z.of_nat (length l) - 12
                        + (Z.of_nat k - (Z.of_nat (length l) - 12)) mod 12))
             l nan)
      (seq 0 (length l)).

(** A series whose index is a run of consecutive months. *)
Definition contiguous (d : DataFrame) : Prop :=
  exists start, index d = period_range start (length (rows d)).

(** A candidate that passes the three checks of the walk. *)
Definition passes_checks (base : DataFrame) (amp : Amplitudes)
    (anos : list Z) (max_lt max_gt : Z) (start : Period) : Prop :=
  exists ratio,
    candidate_ratio base start = Some ratio /\
    above_count ratio amp <= max_gt /\
    below_count ratio amp <= max_lt /\
    ~ In (year start) anos.

(** The rejection list of a state (empty before [fit] creates it). *)
Definition rejeitados_of (s : St) : list Rejeitado :=
  match anos_rejeitados_ (self s) with
  | Some l => l
  | None => []
  end.

(** Two model objects with the same inputs of the walk: station, base
    series, correlation table and bounds. *)
Definition same_setup (m m' : CorrelacaoAmplitude) : Prop :=
  coluna m' = coluna m /\
  df_base m' = df_base m /\
  df_correlacao m' = df_correlacao m /\
  option_map amp_min (amplitudes_ m') = option_map amp_min (amplitudes_ m) /\
  option_map amp_max (amplitudes_ m') = option_map amp_max (amplitudes_ m).

(** The horizon [predict] works with: the argument when it is given and is
    not zero, otherwise the months left in the calendar year of the month
    the copy starts at. *)
Definition horizon (num_meses : option Z) (start : Period) : Z :=
  match num_meses with
  | Some n => if n =? 0 then 13 - month start else n
  | None => 13 - month start
  end.

(** The months set so far by the loop of [calc_corr_last12]. *)
Definition spread_rows (tr : list (Period * Row)) (months : list Z)
    (d : DataFrame) : DataFrame :=
  with_rows (map (fun r => if existsb (Z.eqb (month (fst r))) months
                           then (fst r, reference_row tr (month (fst r)))
                           else r)
                 (rows d)) d.

(** The table [calc_corr_last12] returns for a series. *)
Definition correlation_table (corr : nat -> list float -> list float -> float)
    (d : DataFrame) (last_period : Period) : DataFrame :=
  with_index_name (Some "mes_final"%string)
    (with_rows (select_month (month last_period)
                  (rolling_corr corr d (broadcast (iloc_tail 12 (rows d)) d)))
               d).

(** The ranking [top_corr] that the [fit] methods derive from a series for
    a station: the station's column of the table, in descending order. *)
Definition ranking_from (corr : nat -> list float -> list float -> float)
    (c0 : Z) (d : DataFrame) : Series :=
  match lastE (index d) with
  | inl _ => []
  | inr last_period =>
      match getitem c0 (correlation_table corr d last_period) with
      | inl _ => []
      | inr col => sort_values_desc col
      end
  end.

(** The number of rows of a series in the calendar month of its last row. *)
Definition rows_in_last_month (d : DataFrame) : nat :=
  match lastE (index d) with
  | inl _ => 0%nat
  | inr last_period => length (select_month (month last_period) (rows d))
  end.

(* ------------------------------------------------------------------ *)
(** Further worked inputs. *)

(** The store that holds the worked series, with a fresh model of station 6. *)
Definition estado_serie : St := mkSt [serie] (init 6 [] 5 5).

(** The worked series under an index without [freq] (a [RangeIndex]). *)
Definition serie_sem_freq : DataFrame :=
  mkDF SemFreq None (columns serie) (rows serie).

(** The worked series without the row of 1972-07. *)
Definition serie_com_falha : DataFrame :=
  with_rows (filter (fun r => negb (fst r =? 30)) (rows serie)) serie.

(** The first five months of the worked series. *)
Definition serie_curta : DataFrame := with_rows (firstn 5 (rows serie)) serie.

(** [fit] on the series that never varies, the year 1972 excluded. *)
Definition fit_constante_1972 : St * (exn + unit) :=
  run (fit pearson_rolling 0%nat) [serie_constante] (init 6 [1972] 5 5).

(* ================================================================== *)
(** ** [SimpleCorrelation12] *)

(** [l[i]] for a Python integer: a negative position counts from the end,
    a position outside the list is an [IndexError]. *)
Definition py_index {A : Type} (i : Z) (l : list A) : exn + A :=
  let n := Z.of_nat (length l) in
  let k := if i <? 0 then n + i else i in
  if (0 <=? k) && (k <? n)
  then match nth_error l (Z.to_nat k) with
       | Some x => inr x
       | None => inl IndexError
       end
  else inl IndexError.

(** [calc_corr_last12] is a function of the module, not a method: it works
    on the store of frames alone.  This is its run from a store, whatever
    object is calling. *)
Definition calc_corr_last12_store (corr : nat -> list float -> list float -> float)
    (df_hist : ref) (h : list DataFrame) : list DataFrame * (exn + ref) :=
  let out := calc_corr_last12 corr df_hist (mkSt h (init 0 [] 0 0)) in
  (heap (fst out), snd out).

(** The message of [SimpleCorrelation12.predict] on a model without a fit. *)
Definition msg_not_fitted : string := "Realizar o fit do modelo antes".

Module SimpleCorrelation12.

Record Obj := mkObj {
  coluna : Z;
  posicao : Z;
  df_base : option ref;
  df_correlacao : option ref;
  _period_ : option Period;
  correlacao_ : option float;
  correlacao_outros_ : option LocResult;
  mes_final_periodo_ : option (Z * Z)    (* the year and month that '%Y-%m' prints *)
}.

(** [SimpleCorrelation12.__init__]; [posicao] defaults to 1. *)
Definition init (coluna : Z) (posicao : option Z) : Obj :=
  mkObj coluna (match posicao with Some p => p | None => 1 end)
        None None None None None None.

Definition set_df_base (r : ref) (m : Obj) : Obj :=
  mkObj (coluna m) (posicao m) (Some r) (df_correlacao m) (_period_ m)
        (correlacao_ m) (correlacao_outros_ m) (mes_final_periodo_ m).

Definition set_df_correlacao (r : ref) (m : Obj) : Obj :=
  mkObj (coluna m) (posicao m) (df_base m) (Some r) (_period_ m)
        (correlacao_ m) (correlacao_outros_ m) (mes_final_periodo_ m).

Definition set_period (p : Period) (m : Obj) : Obj :=
  mkObj (coluna m) (posicao m) (df_base m) (df_correlacao m) (Some p)
        (correlacao_ m) (correlacao_outros_ m) (mes_final_periodo_ m).

Definition set_correlacao (c : float) (m : Obj) : Obj :=
  mkObj (coluna m) (posicao m) (df_base m) (df_correlacao m) (_period_ m)
        (Some c) (correlacao_outros_ m) (mes_final_periodo_ m).

Definition set_correlacao_outros (c : LocResult) (m : Obj) : Obj :=
  mkObj (coluna m) (posicao m) (df_base m) (df_correlacao m) (_period_ m)
        (correlacao_ m) (Some c) (mes_final_periodo_ m).

Definition set_mes_final_periodo (ym : Z * Z) (m : Obj) : Obj :=
  mkObj (coluna m) (posicao m) (df_base m) (df_correlacao m) (_period_ m)
        (correlacao_ m) (correlacao_outros_ m) (Some ym).

(** The store of frames and the model object. *)
Record St := mkSt { heap : list DataFrame; self : Obj }.

Section Methods.

Variable corr : nat -> list float -> list float -> float.

(** [SimpleCorrelation12.fit]: each assignment to [self] is kept when a
    later line raises. *)
Definition fit (df_base : ref) (s : St) : St * (exn + unit) :=
  (* self.df_base = df_base.copy() *)
  let h1 := heap s ++ [nth df_base (heap s) empty_frame] in
  let me1 := set_df_base (length (heap s)) (self s) in
  (* self.df_correlacao = calc_corr_last12(df_base) *)
  match calc_corr_last12_store corr df_base h1 with
  | (h2, inl e) => (mkSt h2 me1, inl e)
  | (h2, inr c) =>
      let me2 := set_df_correlacao c me1 in
      let table := nth c h2 empty_frame in
      match getitem (coluna me2) table with
      | inl e => (mkSt h2 me2, inl e)
      | inr col =>
          let top_corr := sort_values_desc col in
          (* self._period_ = top_corr.index[self.posicao] *)
          match py_index (posicao me2) (map fst top_corr) with
          | inl e => (mkSt h2 me2, inl e)
          | inr p =>
              let me3 := set_period p me2 in
              (* self.correlacao_ = top_corr.iloc[self.posicao] *)
              match py_index (posicao me3) (map snd top_corr) with
              | inl e => (mkSt h2 me3, inl e)
              | inr v =>
                  let me4 := set_correlacao v me3 in
                  (* self.correlacao_outros_ =
                       self.df_correlacao.loc[top_corr.index[self.posicao]] *)
                  match py_index (posicao me4) (map fst top_corr) with
                  | inl e => (mkSt h2 me4, inl e)
                  | inr label =>
                      match loc label table with
                      | inl e => (mkSt h2 me4, inl e)
                      | inr outros =>
                          let me5 := set_correlacao_outros outros me4 in
                          (mkSt h2 (set_mes_final_periodo (year p, month p) me5), inr tt)
                      end
                  end
              end
          end
      end
  end.

(** [SimpleCorrelation12.predict]: [None + 1] is the [TypeError] the
    method turns into its own exception.  A chosen window is a monthly
    period, for which [_period_ + 1] is the next month; labels of another
    kind, for which the sum would raise the same [TypeError], are not
    frames of this embedding. *)
Definition predict (num_meses : option Z) (s : St) : St * (exn + ref) :=
  match _period_ (self s) with
  | None => (s, inl (Exception msg_not_fitted))
  | Some p =>
      let mes_escolhido_ini := p + 1 in
      match df_base (self s) with
      | None => (s, inl AttributeError)
      | Some b =>
          let base := nth b (heap s) empty_frame in
          match lastE (index base) with
          | inl e => (s, inl e)
          | inr ultimo =>
              let next_month := ultimo + 1 in
              let n := match num_meses with
                       | Some n => if n =? 0 then 13 - month mes_escolhido_ini else n
                       | None => 13 - month mes_escolhido_ini
                       end in
              match loc_from (Some mes_escolhido_ini) base with
              | inl e => (s, inl e)
              | inr desde =>
                  let df_escolhido := with_rows (iloc_head n desde) base in
                  (mkSt (heap s
                         ++ [set_index (period_range next_month (length (rows df_escolhido)))
                                       df_escolhido])
                        (self s),
                   inr (length (heap s)))
              end
          end
      end
  end.

End Methods.

End SimpleCorrelation12.

(** A computation that neither reads nor writes the model object. *)
Definition heap_only {A : Type} (c : M A) : Prop :=
  forall h m m',
    c (mkSt h m') = (mkSt (heap (fst (c (mkSt h m)))) m', snd (c (mkSt h m))).

(** [SimpleCorrelation12.fit] of station 6 on the worked series, stored at
    reference 0, for a position. *)
Definition simple_serie (pos : option Z) : SimpleCorrelation12.St * (exn + unit) :=
  SimpleCorrelation12.fit pearson_rolling 0%nat
    (SimpleCorrelation12.mkSt [serie] (SimpleCorrelation12.init 6 pos)).

(* ================================================================== *)
(** * Properties *)

(** ** The order of binary64 values

    Comparisons are specified through [SFcompare] on the decoded value; a
    NaN compares with nothing, every other pair is ordered. *)

Ltac cmp_cases :=
  repeat match goal with
  | H : context [(?a ?= ?b)%Z] |- _ => destruct (Z.compare_spec a b); simpl in H
  | |- context [(?a ?= ?b)%Z] => destruct (Z.compare_spec a b); simpl
  | H : context [Pos.compare_cont Eq ?a ?b] |- _ =>
      change (Pos.compare_cont Eq a b) with (Pos.compare a b) in *;
      destruct (Pos.compare_spec a b); simpl in H
  | |- context [Pos.compare_cont Eq ?a ?b] =>
      change (Pos.compare_cont Eq a b) with (Pos.compare a b) in *;
      destruct (Pos.compare_spec a b); simpl
  end.

Lemma SFcompare_swap (x y : spec_float) (c : comparison) :
  SFcompare x y = Some c -> SFcompare y x = Some (CompOpp c).
Proof.
  destruct x as [sx|sx| |sx mx ex], y as [sy|sy| |sy my ey]; simpl;
    try discriminate; intros H; injection H as <-;
    repeat match goal with s : bool |- _ => destruct s end;
    simpl; try reflexivity;
    cmp_cases; subst; simpl in *; try congruence; try lia; try reflexivity.
Qed.

Lemma SFcompare_chain (x y z : spec_float) (c1 c2 : comparison) :
  SFcompare x y = Some c1 -> SFcompare y z = Some c2 ->
  c1 <> Gt -> c2 <> Gt ->
  SFcompare x z = Some (match c1 with Eq => c2 | _ => Lt end).
Proof.
  destruct x as [sx|sx| |sx mx ex], y as [sy|sy| |sy my ey], z as [sz|sz| |sz mz ez];
    simpl; try discriminate; intros H1 H2 N1 N2;
    injection H1 as <-; injection H2 as <-;
    repeat match goal with s : bool |- _ => destruct s end;
    simpl in *; try congruence; try reflexivity;
    cmp_cases; subst; simpl in *; try congruence; try lia; try reflexivity.
Qed.

Lemma SFcompare_defined (x y : spec_float) :
  x <> S754_nan -> y <> S754_nan -> exists c, SFcompare x y = Some c.
Proof.
  destruct x, y; simpl; intros; try congruence; eauto.
Qed.

Lemma SFcompare_refl (x : spec_float) : x <> S754_nan -> SFcompare x x = Some Eq.
Proof.
  destruct x as [s|s| |s m e]; simpl; intros; try congruence;
    try (destruct s; reflexivity).
  destruct s; rewrite Z.compare_refl;
    change (Pos.compare_cont Eq m m) with (Pos.compare m m);
    rewrite Pos.compare_refl; reflexivity.
Qed.

Lemma is_nan_decode (x : float) : is_nan x = true <-> Prim2SF x = S754_nan.
Proof.
  unfold is_nan. rewrite FloatAxioms.eqb_spec. unfold SFeqb. split.
  - intros H. destruct (Prim2SF x) eqn:E; try reflexivity;
      rewrite SFcompare_refl in H by discriminate; discriminate.
  - intros ->. reflexivity.
Qed.

Lemma not_nan_decode (x : float) : is_nan x = false <-> Prim2SF x <> S754_nan.
Proof.
  rewrite <- is_nan_decode. destruct (is_nan x); split; congruence.
Qed.

Lemma ltb_nan_left (x y : float) : is_nan x = true -> PrimFloat.ltb x y = false.
Proof.
  intros H. apply is_nan_decode in H. rewrite FloatAxioms.ltb_spec. unfold SFltb. rewrite H. reflexivity.
Qed.

Lemma ltb_nan_right (x y : float) : is_nan y = true -> PrimFloat.ltb x y = false.
Proof.
  intros H. apply is_nan_decode in H. rewrite FloatAxioms.ltb_spec. unfold SFltb. rewrite H.
  destruct (Prim2SF x); reflexivity.
Qed.

Lemma ltb_not_nan (x y : float) :
  PrimFloat.ltb x y = true -> is_nan x = false /\ is_nan y = false.
Proof.
  intros H. split.
  - destruct (is_nan x) eqn:E; [rewrite ltb_nan_left in H by assumption; discriminate | reflexivity].
  - destruct (is_nan y) eqn:E; [rewrite ltb_nan_right in H by assumption; discriminate | reflexivity].
Qed.

Lemma leb_not_nan (x y : float) :
  PrimFloat.leb x y = true -> is_nan x = false /\ is_nan y = false.
Proof.
  rewrite FloatAxioms.leb_spec. unfold SFleb. intros H. split; apply not_nan_decode; intros E;
    rewrite E in H; simpl in H; [discriminate | destruct (Prim2SF x); discriminate].
Qed.

Lemma ltb_negb_leb (x y : float) :
  is_nan x = false -> is_nan y = false ->
  PrimFloat.ltb y x = negb (PrimFloat.leb x y).
Proof.
  intros Hx Hy. apply not_nan_decode in Hx. apply not_nan_decode in Hy.
  rewrite FloatAxioms.ltb_spec, FloatAxioms.leb_spec. unfold SFltb, SFleb.
  destruct (SFcompare_defined _ _ Hx Hy) as [c Hc].
  rewrite Hc, (SFcompare_swap _ _ _ Hc). destruct c; reflexivity.
Qed.

Lemma leb_refl (x : float) : is_nan x = false -> PrimFloat.leb x x = true.
Proof.
  intros Hx. apply not_nan_decode in Hx. rewrite FloatAxioms.leb_spec. unfold SFleb.
  rewrite SFcompare_refl by assumption. reflexivity.
Qed.

Lemma ltb_leb (x y : float) : PrimFloat.ltb x y = true -> PrimFloat.leb x y = true.
Proof.
  rewrite FloatAxioms.ltb_spec, FloatAxioms.leb_spec. unfold SFltb, SFleb.
  destruct (SFcompare (Prim2SF x) (Prim2SF y)) as [[]|]; congruence.
Qed.

Lemma leb_trans (x y z : float) :
  PrimFloat.leb x y = true -> PrimFloat.leb y z = true -> PrimFloat.leb x z = true.
Proof.
  rewrite !FloatAxioms.leb_spec. unfold SFleb.
  destruct (SFcompare (Prim2SF x) (Prim2SF y)) as [c1|] eqn:E1; try discriminate.
  destruct (SFcompare (Prim2SF y) (Prim2SF z)) as [c2|] eqn:E2;
    [|destruct c1; discriminate].
  intros H1 H2.
  rewrite (SFcompare_chain _ _ _ _ _ E1 E2) by (destruct c1, c2; congruence).
  destruct c1, c2; congruence.
Qed.

Lemma ltb_leb_trans (x y z : float) :
  PrimFloat.ltb x y = true -> PrimFloat.leb y z = true -> PrimFloat.ltb x z = true.
Proof.
  rewrite !FloatAxioms.ltb_spec, FloatAxioms.leb_spec. unfold SFleb, SFltb.
  destruct (SFcompare (Prim2SF x) (Prim2SF y)) as [c1|] eqn:E1; try discriminate.
  destruct (SFcompare (Prim2SF y) (Prim2SF z)) as [c2|] eqn:E2;
    [|destruct c1; discriminate].
  intros H1 H2.
  rewrite (SFcompare_chain _ _ _ _ _ E1 E2) by (destruct c1, c2; congruence).
  destruct c1, c2; congruence.
Qed.

Lemma leb_ltb_trans (x y z : float) :
  PrimFloat.leb x y = true -> PrimFloat.ltb y z = true -> PrimFloat.ltb x z = true.
Proof.
  rewrite !FloatAxioms.ltb_spec, FloatAxioms.leb_spec. unfold SFleb, SFltb.
  destruct (SFcompare (Prim2SF x) (Prim2SF y)) as [c1|] eqn:E1; try discriminate.
  destruct (SFcompare (Prim2SF y) (Prim2SF z)) as [c2|] eqn:E2;
    [|destruct c1; discriminate].
  intros H1 H2.
  rewrite (SFcompare_chain _ _ _ _ _ E1 E2) by (destruct c1, c2; congruence).
  destruct c1, c2; congruence.
Qed.

Lemma ltb_irrefl (x : float) : PrimFloat.ltb x x = false.
Proof.
  destruct (is_nan x) eqn:E; [apply ltb_nan_left; assumption|].
  rewrite (ltb_negb_leb x x E E), (leb_refl x E). reflexivity.
Qed.

(** IEEE equality is "below both ways". *)
Lemma eqb_leb_both (x y : float) :
  PrimFloat.eqb x y = PrimFloat.leb x y && PrimFloat.leb y x.
Proof.
  rewrite FloatAxioms.eqb_spec, !FloatAxioms.leb_spec. unfold SFeqb, SFleb.
  destruct (SFcompare (Prim2SF x) (Prim2SF y)) as [c|] eqn:E.
  - rewrite (SFcompare_swap _ _ _ E). destruct c; reflexivity.
  - destruct (SFcompare (Prim2SF y) (Prim2SF x)) as [c'|] eqn:E'; [|reflexivity].
    apply SFcompare_swap in E'. congruence.
Qed.

(* ================================================================== *)
(** ** The ranking *)

Definition not_nan_entry (e : Period * float) : bool := negb (is_nan (snd e)).
Definition nan_entry (e : Period * float) : bool := is_nan (snd e).

Definition value_le (a b : Period * float) : Prop := PrimFloat.leb (snd a) (snd b) = true.
Definition value_ge (a b : Period * float) : Prop := PrimFloat.leb (snd b) (snd a) = true.

Lemma insert_by_value_perm (x : Period * float) (l : Series) :
  Permutation (insert_by_value x l) (x :: l).
Proof.
  induction l as [|y l IH]; simpl; [constructor; constructor|].
  destruct (PrimFloat.leb (snd x) (snd y)); [apply Permutation_refl|].
  eapply perm_trans; [apply perm_skip, IH | apply perm_swap].
Qed.

Lemma argsort_asc_perm (l : Series) : Permutation (argsort_asc l) l.
Proof.
  induction l as [|x l IH]; simpl; [constructor|].
  eapply perm_trans; [apply insert_by_value_perm | apply perm_skip, IH].
Qed.

Lemma insert_by_value_sorted (x : Period * float) (l : Series) :
  is_nan (snd x) = false ->
  Forall (fun e => is_nan (snd e) = false) l ->
  StronglySorted value_le l ->
  StronglySorted value_le (insert_by_value x l).
Proof.
  intros Hx Hl Hs. induction Hs as [|y l Hs IH Hy]; simpl.
  - repeat constructor.
  - inversion Hl as [|? ? Hyn Hl']; subst.
    destruct (PrimFloat.leb (snd x) (snd y)) eqn:E.
    + constructor; [constructor; assumption|].
      constructor; [exact E|].
      rewrite Forall_forall in *. intros z Hz. unfold value_le in *.
      eapply leb_trans; [exact E | apply Hy, Hz].
    + constructor; [apply IH, Hl'|].
      assert (Hyx : PrimFloat.leb (snd y) (snd x) = true).
      { apply ltb_leb. rewrite (ltb_negb_leb (snd x) (snd y)) by assumption.
        rewrite E. reflexivity. }
      rewrite Forall_forall in *. intros z Hz.
      apply (Permutation_in _ (insert_by_value_perm x l)) in Hz.
      destruct Hz as [<-|Hz]; [exact Hyx | apply Hy, Hz].
Qed.

Lemma argsort_asc_sorted (l : Series) :
  Forall (fun e => is_nan (snd e) = false) l ->
  StronglySorted value_le (argsort_asc l).
Proof.
  induction l as [|x l IH]; simpl; intros H; [constructor|].
  inversion H; subst. apply insert_by_value_sorted; auto.
  rewrite Forall_forall in *. intros z Hz.
  apply (Permutation_in _ (argsort_asc_perm l)) in Hz. auto.
Qed.

Lemma StronglySorted_snoc {A : Type} (R : A -> A -> Prop) (l : list A) (x : A) :
  StronglySorted R l -> Forall (fun y => R y x) l -> StronglySorted R (l ++ [x]).
Proof.
  induction 1 as [|y l Hs IH Hy]; simpl; intros Hx.
  - repeat constructor.
  - inversion Hx; subst. constructor; [apply IH; assumption|].
    apply Forall_app. split; [assumption | repeat constructor; assumption].
Qed.

Lemma StronglySorted_reverse {A : Type} (R : A -> A -> Prop) (l : list A) :
  StronglySorted R l -> StronglySorted (fun a b => R b a) (rev l).
Proof.
  induction 1 as [|y l Hs IH Hy]; simpl; [constructor|].
  apply StronglySorted_snoc; [exact IH|].
  apply Forall_rev. exact Hy.
Qed.

(** Insertion keeps the entries of equal value in the order they came. *)
Lemma argsort_asc_not_nan (l : Series) :
  Forall (fun e => is_nan (snd e) = false) l ->
  Forall (fun e => is_nan (snd e) = false) (argsort_asc l).
Proof.
  intros H. rewrite Forall_forall in *. intros z Hz.
  apply (Permutation_in _ (argsort_asc_perm l)) in Hz. auto.
Qed.

Lemma filter_split_perm {A : Type} (p : A -> bool) (l : list A) :
  Permutation (filter (fun x => negb (p x)) l ++ filter p l) l.
Proof.
  induction l as [|x l IH]; simpl; [constructor|].
  destruct (p x); simpl.
  - apply Permutation_sym. eapply perm_trans;
      [apply perm_skip, Permutation_sym, IH | apply Permutation_middle].
  - apply perm_skip, IH.
Qed.

Lemma not_nan_filter (s : Series) :
  Forall (fun e => is_nan (snd e) = false) (filter not_nan_entry s).
Proof.
  rewrite Forall_forall. intros e He. apply filter_In in He.
  destruct He as [_ He]. unfold not_nan_entry in He.
  destruct (is_nan (snd e)); [discriminate | reflexivity].
Qed.

(** The sorted, NaN-free head of the ranking. *)
Definition ranked_head (s : Series) : Series :=
  rev (argsort_asc (rev (filter not_nan_entry s))).

Lemma sort_values_desc_split (s : Series) :
  sort_values_desc s = ranked_head s ++ filter nan_entry s.
Proof. reflexivity. Qed.

Lemma ranked_head_perm (s : Series) :
  Permutation (ranked_head s) (filter not_nan_entry s).
Proof.
  unfold ranked_head.
  eapply perm_trans; [apply Permutation_sym, Permutation_rev|].
  eapply perm_trans; [apply argsort_asc_perm|].
  apply Permutation_sym, Permutation_rev.
Qed.

Lemma sort_values_desc_perm (s : Series) : Permutation (sort_values_desc s) s.
Proof.
  rewrite sort_values_desc_split.
  eapply perm_trans; [apply Permutation_app_tail, ranked_head_perm|].
  apply (filter_split_perm nan_entry).
Qed.

Lemma sort_values_desc_length (s : Series) : length (sort_values_desc s) = length s.
Proof. apply Permutation_length, sort_values_desc_perm. Qed.

Lemma ranked_head_sorted (s : Series) : StronglySorted value_ge (ranked_head s).
Proof.
  unfold ranked_head.
  apply (StronglySorted_reverse value_le).
  apply argsort_asc_sorted, Forall_rev, not_nan_filter.
Qed.

Lemma ranked_head_not_nan (s : Series) :
  Forall (fun e => is_nan (snd e) = false) (ranked_head s).
Proof.
  rewrite Forall_forall. intros e He.
  apply (Permutation_in _ (ranked_head_perm s)) in He.
  revert e He. apply Forall_forall, not_nan_filter.
Qed.

(** Rank 0 carries the greatest correlation of the column. *)
Lemma ranked_head_first_max (s : Series) (h : Period * float) (rest : Series) :
  ranked_head s = h :: rest ->
  forall e, In e s -> is_nan (snd e) = false -> PrimFloat.leb (snd e) (snd h) = true.
Proof.
  intros Hh e He Hn.
  assert (Hin : In e (ranked_head s)).
  { apply (Permutation_in _ (Permutation_sym (ranked_head_perm s))).
    apply filter_In. split; [exact He|]. unfold not_nan_entry. rewrite Hn. reflexivity. }
  pose proof (ranked_head_sorted s) as Hs. rewrite Hh in Hs, Hin.
  inversion Hs as [|? ? _ Hall]; subst.
  destruct Hin as [<-|Hin]; [apply leb_refl, Hn|].
  rewrite Forall_forall in Hall. apply (Hall e Hin).
Qed.

Lemma ranked_head_dominant (s : Series) (e : Period * float) :
  In e s -> is_nan (snd e) = false ->
  (forall e', In e' s -> fst e' <> fst e -> PrimFloat.ltb (snd e') (snd e) = true) ->
  exists h rest, sort_values_desc s = h :: rest /\ fst h = fst e.
Proof.
  intros He Hn Hdom.
  assert (Hin : In e (ranked_head s)).
  { apply (Permutation_in _ (Permutation_sym (ranked_head_perm s))).
    apply filter_In. split; [exact He|]. unfold not_nan_entry. rewrite Hn. reflexivity. }
  rewrite sort_values_desc_split.
  destruct (ranked_head s) as [|h rest] eqn:Hh; [contradiction|].
  exists h, (rest ++ filter nan_entry s). split; [reflexivity|].
  destruct (Z.eq_dec (fst h) (fst e)) as [Heq|Hne]; [exact Heq|exfalso].
  assert (Hhs : In h s).
  { assert (In h (ranked_head s)) as Hx by (rewrite Hh; left; reflexivity).
    apply (Permutation_in _ (ranked_head_perm s)) in Hx.
    apply filter_In in Hx. tauto. }
  pose proof (Hdom h Hhs Hne) as Hlt.
  pose proof (ranked_head_first_max s h rest Hh e He Hn) as Hle.
  pose proof (ltb_leb_trans _ _ _ Hlt Hle) as Habs.
  rewrite ltb_irrefl in Habs. discriminate.
Qed.

(* ================================================================== *)
(** ** The store is only extended *)

Lemma update_nth_length {A : Type} (f : A -> A) (l : list A) (n : nat) :
  length (update_nth n f l) = length l.
Proof.
  revert n. induction l as [|x l IH]; intros [|n]; simpl; auto.
Qed.

Lemma update_nth_app_r {A : Type} (f : A -> A) (l1 l2 : list A) (n : nat) :
  (length l1 <= n)%nat ->
  update_nth n f (l1 ++ l2) = l1 ++ update_nth (n - length l1) f l2.
Proof.
  revert n. induction l1 as [|x l1 IH]; intros n Hn; simpl.
  - rewrite Nat.sub_0_r. reflexivity.
  - destruct n as [|n]; simpl in *; [lia|]. rewrite IH by lia. reflexivity.
Qed.

Lemma freq_month_end_true (d : DataFrame) :
  freq_month_end d = true -> index_freq d = Freq true.
Proof.
  unfold freq_month_end. destruct (index_freq d) as [|[|]]; intros H;
    [discriminate H | reflexivity | discriminate H].
Qed.

Lemma freq_month_end_false (d : DataFrame) :
  freq_month_end d = false -> index_freq d = SemFreq \/ index_freq d = Freq false.
Proof.
  unfold freq_month_end. destruct (index_freq d) as [|[|]]; intros H;
    [left; reflexivity | discriminate H | right; reflexivity].
Qed.

Section Frames.

Variable corr : nat -> list float -> list float -> float.

Lemma spread_frame (o : ref) (tr : list (Period * Row)) (months : list Z) :
  forall s s' res h0 extra,
    spread o tr months s = (s', res) ->
    heap s = h0 ++ extra -> (length h0 <= o)%nat ->
    self s' = self s /\
    exists extra', heap s' = h0 ++ extra' /\ length extra' = length extra.
Proof.
  induction months as [|m ms IH]; intros s s' res h0 extra Hrun Hh Ho; simpl in Hrun.
  - injection Hrun as <- <-. eauto.
  - unfold bind in Hrun at 1. unfold lift in Hrun.
    destruct (iloc0 (select_month m tr)) as [e|v]; simpl in Hrun.
    + injection Hrun as <- <-. eauto.
    + unfold bind in Hrun at 1. simpl in Hrun.
      eapply IH in Hrun; simpl; [| rewrite Hh, update_nth_app_r by exact Ho; reflexivity | exact Ho].
      destruct Hrun as [Hs [extra' [Hx Hl]]]. simpl in Hs.
      split; [exact Hs|]. exists extra'. split; [exact Hx|].
      rewrite Hl. apply update_nth_length.
Qed.

Local Opaque spread range_1_13 rolling_corr select_month iloc_tail lastE.

Lemma calc_corr_last12_frame (r : ref) (s s' : St) (res : exn + ref) :
  calc_corr_last12 corr r s = (s', res) ->
  self s' = self s /\
  exists extra, heap s' = heap s ++ extra /\
    match res with
    | inr c => (length (heap s) <= c < length (heap s'))%nat
    | inl _ => True
    end.
Proof.
  unfold calc_corr_last12. unfold bind at 1. simpl.
  destruct (index_freq (nth r (heap s) empty_frame)) as [|[|]]; cbn [negb].
  - intros H. injection H as <- <-. split; [reflexivity|]. exists []. rewrite app_nil_r. auto.
  - unfold copy. unfold bind at 1 2. simpl.
    unfold bind at 1. simpl. unfold bind at 1 2. simpl.
    unfold bind at 1.
    match goal with |- context [spread ?o ?tr ?ms ?st] =>
      destruct (spread o tr ms st) as [s1 [e|[]]] eqn:Hsp end.
    + intros H. injection H as <- <-.
      eapply spread_frame with (h0 := heap s) in Hsp;
        [| simpl; rewrite <- app_assoc; reflexivity | rewrite length_app; simpl; lia].
      destruct Hsp as [Hs [extra' [Hx _]]]. split; [exact Hs|]. exists extra'. auto.
    + eapply spread_frame with (h0 := heap s) in Hsp;
        [| simpl; rewrite <- app_assoc; reflexivity | rewrite length_app; simpl; lia].
      destruct Hsp as [Hs [extra' [Hx Hl]]]. simpl in Hs, Hl.
      unfold bind at 1. simpl. unfold bind at 1. simpl. unfold bind at 1. unfold lift.
      match goal with |- context [lastE ?l] => destruct (lastE l) as [e|mf] end; simpl.
      * intros H. injection H as <- <-. split; [exact Hs|]. exists extra'. auto.
      * unfold bind at 1. simpl. unfold bind at 1. simpl.
        intros H. injection H as <- <-. simpl. split; [exact Hs|].
        rewrite Hx. rewrite update_nth_app_r by (rewrite !length_app; simpl; lia).
        rewrite <- app_assoc.
        eexists. split; [reflexivity|].
        rewrite !length_app, update_nth_length. simpl. lia.
  - intros H. injection H as <- <-. split; [reflexivity|]. exists []. rewrite app_nil_r. auto.
Qed.

End Frames.

(** ** Element-wise operations *)

Lemma length_map2 {A B C : Type} (f : A -> B -> C) (l1 : list A) (l2 : list B) :
  length (map2 f l1 l2) = Nat.min (length l1) (length l2).
Proof.
  revert l2. induction l1 as [|a l1 IH]; intros [|b l2]; simpl; auto.
Qed.

Lemma map2_app {A B C : Type} (f : A -> B -> C) (l1 l1' : list A) (l2 l2' : list B) :
  length l1 = length l2 ->
  map2 f (l1 ++ l1') (l2 ++ l2') = map2 f l1 l2 ++ map2 f l1' l2'.
Proof.
  revert l2. induction l1 as [|a l1 IH]; intros [|b l2] H; simpl in *;
    try discriminate; [reflexivity|].
  rewrite IH by lia. reflexivity.
Qed.

Lemma nth_map2 {A B C : Type} (f : A -> B -> C) (l1 : list A) (l2 : list B)
    (n : nat) (a : A) (b : B) (c : C) :
  (n < length l1)%nat -> (n < length l2)%nat ->
  nth n (map2 f l1 l2) c = f (nth n l1 a) (nth n l2 b).
Proof.
  revert l2 n. induction l1 as [|x l1 IH]; intros [|y l2] [|n] H1 H2; simpl in *;
    try lia; [reflexivity|].
  apply IH; lia.
Qed.

(* ================================================================== *)
(** ** The candidate walk *)

Section Walk.

Variable top : Series.

Lemma walk_step (p : nat) (rest : list nat) (h : list DataFrame)
    (m0 : CorrelacaoAmplitude) (l : list Rejeitado) (b : ref) (amp : Amplitudes) :
  df_base m0 = Some b -> amplitudes_ m0 = Some amp ->
  walk top (p :: rest) (mkSt h (set_anos_rejeitados l m0)) =
  match candidate_ratio (nth b h empty_frame) (start_of top p) with
  | None => (mkSt h (set_anos_rejeitados l m0),
             inl (candidate_error (nth b h empty_frame) (start_of top p)))
  | Some ratio =>
      let gt := above_count ratio amp in
      let lt := below_count ratio amp in
      let rej := fun mot => mkRejeitado (year (start_of top p))
                                        (snd (nth p top (0, nan))) mot in
      if max_gt_max m0 <? gt then
        walk top rest
             (mkSt h (set_anos_rejeitados (l ++ [rej (MotivoGtMax gt (max_gt_max m0))]) m0))
      else if max_lt_min m0 <? lt then
        walk top rest
             (mkSt h (set_anos_rejeitados (l ++ [rej (MotivoLtMin lt (max_lt_min m0))]) m0))
      else if existsb (Z.eqb (year (start_of top p))) (anos_ignorados m0) then
        walk top rest (mkSt h (set_anos_rejeitados (l ++ [rej MotivoAnoUtilizado]) m0))
      else
        (mkSt h (set_escolhido p (start_of top p) ratio gt lt (set_anos_rejeitados l m0)),
         inr tt)
  end.
Proof.
  intros Hb Ha.
  unfold candidate_ratio, candidate_error, start_of, above_count, below_count.
  cbn [walk]. unfold bind at 1. unfold self_df_base at 1. unfold bind at 1.
  cbn [get_self self set_anos_rejeitados df_base]. rewrite Hb. cbn [deref heap].
  unfold bind at 1. unfold lift at 1.
  destruct (loc (fst (nth p top (0, nan)) + 1) (nth b h empty_frame)) as [e|found];
    [reflexivity|].
  cbn [ret]. unfold bind at 1. unfold lift at 1.
  destruct (lastE (values (nth b h empty_frame))) as [e|ult];
    [destruct found; reflexivity|].
  cbn [ret]. destruct found as [cand|rs]; [|reflexivity].
  unfold bind at 1. unfold self_amplitudes at 1. unfold bind at 1.
  cbn [get_self self set_anos_rejeitados amplitudes_]. rewrite Ha. cbn [ret].
  unfold bind at 1. cbn [get_self self set_anos_rejeitados max_gt_max max_lt_min anos_ignorados].
  cbv zeta.
  destruct (max_gt_max m0 <? _); [reflexivity|].
  destruct (max_lt_min m0 <? _); [reflexivity|].
  destruct (existsb _ _); reflexivity.
Qed.

(** What the walk over a list of ranks ends in. *)
Inductive walk_result (base : DataFrame) (amp : Amplitudes) (m0 : CorrelacaoAmplitude)
    (l : list Rejeitado) (pos : list nat) : CorrelacaoAmplitude -> exn + unit -> Prop :=
| WalkExhausted (l' : list Rejeitado) :
    length l' = length pos ->
    Forall (fun p => rejected_by_checks base amp (anos_ignorados m0)
                       (max_lt_min m0) (max_gt_max m0) (start_of top p)) pos ->
    walk_result base amp m0 l pos (set_anos_rejeitados (l ++ l') m0) (inr tt)
| WalkAccepted (pre : list nat) (p : nat) (post : list nat) (l' : list Rejeitado)
               (ratio : Row) :
    pos = pre ++ p :: post ->
    length l' = length pre ->
    candidate_ratio base (start_of top p) = Some ratio ->
    above_count ratio amp <= max_gt_max m0 ->
    below_count ratio amp <= max_lt_min m0 ->
    ~ In (year (start_of top p)) (anos_ignorados m0) ->
    walk_result base amp m0 l pos
      (set_escolhido p (start_of top p) ratio (above_count ratio amp) (below_count ratio amp)
                     (set_anos_rejeitados (l ++ l') m0))
      (inr tt)
| WalkRaised (pre : list nat) (p : nat) (post : list nat) (l' : list Rejeitado) :
    pos = pre ++ p :: post ->
    length l' = length pre ->
    candidate_ratio base (start_of top p) = None ->
    walk_result base amp m0 l pos (set_anos_rejeitados (l ++ l') m0)
      (inl (candidate_error base (start_of top p))).

Lemma existsb_year (y : Z) (anos : list Z) :
  existsb (Z.eqb y) anos = true <-> In y anos.
Proof.
  rewrite existsb_exists. split.
  - intros [x [Hx E]]. apply Z.eqb_eq in E. subst. exact Hx.
  - intros H. exists y. split; [exact H | apply Z.eqb_refl].
Qed.

Lemma walk_result_cons_rejected base amp m0 l p rest r m' res :
  rejected_by_checks base amp (anos_ignorados m0) (max_lt_min m0) (max_gt_max m0)
                     (start_of top p) ->
  walk_result base amp m0 (l ++ [r]) rest m' res ->
  walk_result base amp m0 l (p :: rest) m' res.
Proof.
  intros Hrej Hw. inversion Hw; subst.
  - rewrite <- app_assoc. apply WalkExhausted; [simpl; lia | constructor; assumption].
  - rewrite <- app_assoc.
    apply (WalkAccepted base amp m0 l _ (p :: pre) p0 post ([r] ++ l') ratio); auto.
    simpl. lia.
  - rewrite <- app_assoc.
    apply (WalkRaised base amp m0 l _ (p :: pre) p0 post ([r] ++ l')); auto.
    simpl. lia.
Qed.

Lemma walk_spec (pos : list nat) :
  forall (h : list DataFrame) (m0 : CorrelacaoAmplitude) (l : list Rejeitado)
         (b : ref) (amp : Amplitudes) (s' : St) (res : exn + unit),
    df_base m0 = Some b -> amplitudes_ m0 = Some amp ->
    walk top pos (mkSt h (set_anos_rejeitados l m0)) = (s', res) ->
    heap s' = h /\ walk_result (nth b h empty_frame) amp m0 l pos (self s') res.
Proof.
  induction pos as [|p rest IH]; intros h m0 l b amp s' res Hb Ha Hrun.
  - cbn in Hrun. injection Hrun as <- <-. split; [reflexivity|]. cbn [self].
    replace (set_anos_rejeitados l m0) with (set_anos_rejeitados (l ++ []) m0)
      by (rewrite app_nil_r; reflexivity).
    apply WalkExhausted; [reflexivity | constructor].
  - rewrite (walk_step p rest h m0 l b amp Hb Ha) in Hrun.
    destruct (candidate_ratio (nth b h empty_frame) (start_of top p)) as [ratio|] eqn:Hc.
    + cbv zeta in Hrun.
      destruct (max_gt_max m0 <? above_count ratio amp) eqn:Eg.
      { apply IH with (b := b) (amp := amp) in Hrun; auto.
        destruct Hrun as [Hh Hw]. split; [exact Hh|].
        eapply walk_result_cons_rejected; [|exact Hw].
        exists ratio. split; [exact Hc|]. left. apply Z.ltb_lt. exact Eg. }
      destruct (max_lt_min m0 <? below_count ratio amp) eqn:El.
      { apply IH with (b := b) (amp := amp) in Hrun; auto.
        destruct Hrun as [Hh Hw]. split; [exact Hh|].
        eapply walk_result_cons_rejected; [|exact Hw].
        exists ratio. split; [exact Hc|]. right. left. apply Z.ltb_lt. exact El. }
      destruct (existsb (Z.eqb (year (start_of top p))) (anos_ignorados m0)) eqn:Ey.
      { apply IH with (b := b) (amp := amp) in Hrun; auto.
        destruct Hrun as [Hh Hw]. split; [exact Hh|].
        eapply walk_result_cons_rejected; [|exact Hw].
        exists ratio. split; [exact Hc|]. right. right. apply existsb_year. exact Ey. }
      injection Hrun as <- <-. split; [reflexivity|]. cbn [self].
      replace (set_anos_rejeitados l m0) with (set_anos_rejeitados (l ++ []) m0)
        by (rewrite app_nil_r; reflexivity).
      apply (WalkAccepted _ amp m0 l _ [] p rest [] ratio); auto.
      * apply Z.ltb_ge. exact Eg.
      * apply Z.ltb_ge. exact El.
      * intros Hin. apply existsb_year in Hin. congruence.
    + injection Hrun as <- <-. split; [reflexivity|]. cbn [self].
      replace (set_anos_rejeitados l m0) with (set_anos_rejeitados (l ++ []) m0)
        by (rewrite app_nil_r; reflexivity).
      apply (WalkRaised _ amp m0 l _ [] p rest []); auto.
Qed.

End Walk.

(* ================================================================== *)
(** ** Running [fit] *)

Section FitRun.

Variable corr : nat -> list float -> list float -> float.

Lemma finish_run (top : Series) (h : list DataFrame) (m : CorrelacaoAmplitude) :
  finish top (mkSt h m) =
  match posicao_ m with
  | None => (mkSt h m, inl TypeError)
  | Some p =>
      match nth_error top p with
      | None => (mkSt h m, inl IndexError)
      | Some e =>
          match df_correlacao m with
          | None => (mkSt h (set_correlacao (snd e) m), inl AttributeError)
          | Some c =>
              match loc (fst e) (nth c h empty_frame) with
              | inl er => (mkSt h (set_correlacao (snd e) m), inl er)
              | inr o => (mkSt h (set_correlacao_outros o (set_correlacao (snd e) m)), inr tt)
              end
          end
      end
  end.
Proof.
  unfold finish. unfold bind at 1. cbn [get_self self].
  destruct (posicao_ m) as [p|]; [|reflexivity].
  destruct (nth_error top p) as [e|]; [|reflexivity].
  unfold bind at 1. cbn [set_self heap self].
  destruct (df_correlacao m) as [c|]; [|reflexivity].
  unfold bind at 1. cbn [deref heap]. unfold bind at 1. unfold lift.
  destruct (loc (fst e) (nth c h empty_frame)); reflexivity.
Qed.

Local Opaque walk finish calc_corr_last12 sort_values_desc ratio_rows column_min
  column_max select_month lastE getitem.

Lemma fit_unfold (r : ref) (h : list DataFrame) (m : CorrelacaoAmplitude) :
  fit corr r (mkSt h m) =
  let df := nth r h empty_frame in
  match calc_corr_last12 corr r (mkSt (h ++ [df]) (set_df_base (length h) m)) with
  | (s1, inl e) => (s1, inl e)
  | (s1, inr c) =>
      let m1 := set_df_correlacao c (self s1) in
      match getitem (coluna m1) (nth c (heap s1) empty_frame) with
      | inl e => (mkSt (heap s1) m1, inl e)
      | inr col =>
          match df_base m1 with
          | None => (mkSt (heap s1) m1, inl AttributeError)
          | Some b =>
              let base := nth b (heap s1) empty_frame in
              match lastE (index base) with
              | inl e => (mkSt (heap s1) m1, inl e)
              | inr last_period =>
                  let top := sort_values_desc col in
                  match walk top (seq 1 (length top - 1))
                             (mkSt (heap s1)
                                   (set_anos_rejeitados []
                                      (set_amplitudes (bounds_of base last_period)
                                         (set_ratio_mes
                                            (select_month (month last_period) (ratio_rows base))
                                            m1)))) with
                  | (s2, inl e) => (s2, inl e)
                  | (s2, inr _) => finish top s2
                  end
              end
          end
      end
  end.
Proof.
  unfold fit. unfold bind at 1. unfold copy. unfold bind at 1.
  cbn [deref alloc heap self]. unfold bind at 1. cbn [set_self heap self].
  unfold bind at 1. cbv zeta.
  destruct (calc_corr_last12 corr r _) as [s1 [e|c]]; [reflexivity|].
  unfold bind at 1. cbn [set_self heap self]. unfold bind at 1. cbn [get_self heap self].
  unfold bind at 1. cbn [deref heap]. unfold bind at 1. unfold lift at 1.
  cbn [coluna set_df_correlacao].
  destruct (getitem (coluna (self s1)) (nth c (heap s1) empty_frame)) as [e|col];
    [reflexivity|].
  cbn [ret]. unfold bind at 1. unfold self_df_base. unfold bind at 1.
  cbn [get_self self heap df_base set_df_correlacao].
  destruct (df_base (self s1)) as [b|]; [|reflexivity].
  cbn [deref heap]. unfold bind at 1. unfold lift at 1.
  destruct (lastE (index (nth b (heap s1) empty_frame))) as [e|last_period]; [reflexivity|].
  cbn [ret]. unfold bind at 1. cbn [set_self heap self].
  unfold bind at 1. cbn [set_self heap self].
  unfold bind at 1. cbn [set_self heap self].
  unfold bind at 1. unfold bounds_of.
  reflexivity.
Qed.

Lemma getitem_index (c : Z) (d : DataFrame) (col : Series) :
  getitem c d = inr col -> map fst col = index d.
Proof.
  Local Transparent getitem.
  unfold getitem, index. destruct (position c (columns d)); [|discriminate].
  intros H. injection H as <-. rewrite map_map. reflexivity.
  Local Opaque getitem.
Qed.

Lemma loc_defined (label : Period) (d : DataFrame) :
  In label (index d) -> exists o, loc label d = inr o.
Proof.
  unfold loc, index. intros H. apply in_map_iff in H. destruct H as [row [Hl Hr]].
  assert (Hin : In row (filter (fun r => fst r =? label) (rows d))).
  { apply filter_In. split; [exact Hr|]. apply Z.eqb_eq. exact Hl. }
  destruct (filter (fun r => fst r =? label) (rows d)) as [|x [|y rest]];
    [contradiction | eauto | eauto].
Qed.

Lemma fit_run (r : ref) (h : list DataFrame) (c0 : Z) (anos : list Z) (ml mg : Z)
    (s' : St) (res : exn + unit) :
  fit corr r (mkSt h (init c0 anos ml mg)) = (s', res) ->
  let df := nth r h empty_frame in
  let fresh := init c0 anos ml mg in
  (exists extra, heap s' = h ++ df :: extra) /\
  ((exists e, res = inl e /\ amplitudes_ (self s') = None /\
              anos_rejeitados_ (self s') = None /\ posicao_ (self s') = None)
   \/
   exists c col last_period m' wres,
     let top := sort_values_desc col in
     let m0 := model_before_walk fresh (length h) c df last_period in
     (c < length (heap s'))%nat /\
     getitem c0 (nth c (heap s') empty_frame) = inr col /\
     lastE (index df) = inr last_period /\
     walk_result top df (bounds_of df last_period) m0 [] (seq 1 (length top - 1)) m' wres /\
     match wres with
     | inl e => res = inl e /\ self s' = m'
     | inr _ =>
         match posicao_ m' with
         | None => res = inl TypeError /\ self s' = m'
         | Some p =>
             exists e outros,
               nth_error top p = Some e /\
               loc (fst e) (nth c (heap s') empty_frame) = inr outros /\
               res = inr tt /\
               self s' = set_correlacao_outros outros (set_correlacao (snd e) m')
         end
     end).
Proof.
  intros Hrun df fresh. rewrite fit_unfold in Hrun. cbv zeta in Hrun. fold df in Hrun.
  destruct (calc_corr_last12 corr r _) as [s1 [e|c]] eqn:Hcalc.
  - injection Hrun as <- <-.
    apply calc_corr_last12_frame in Hcalc. destruct Hcalc as [Hs [extra [Hh _]]].
    cbn [heap self] in Hs, Hh. split.
    + exists extra. rewrite Hh, <- app_assoc. reflexivity.
    + left. exists e. rewrite Hs. repeat split; reflexivity.
  - apply calc_corr_last12_frame in Hcalc. destruct Hcalc as [Hs [extra [Hh Hc]]].
    cbn [heap self] in Hs, Hh, Hc.
    assert (Hh' : heap s1 = h ++ df :: extra) by (rewrite Hh, <- app_assoc; reflexivity).
    assert (Hbase : nth (length h) (heap s1) empty_frame = df).
    { rewrite Hh'. apply nth_middle. }
    rewrite Hs in Hrun. cbn [coluna set_df_correlacao set_df_base df_base init] in Hrun.
    destruct (getitem c0 (nth c (heap s1) empty_frame)) as [e|col] eqn:Hget.
    { injection Hrun as <- <-. cbn [heap self]. split; [eauto|].
      left. exists e. repeat split; reflexivity. }
    rewrite Hbase in Hrun.
    destruct (lastE (index df)) as [e|last_period] eqn:Hlast.
    { injection Hrun as <- <-. cbn [heap self]. split; [eauto|].
      left. exists e. repeat split; reflexivity. }
    destruct (walk _ _ _) as [s2 wres] eqn:Hwalk in Hrun.
    change (mkSt (heap s1) _)
      with (mkSt (heap s1)
                 (set_anos_rejeitados []
                    (model_before_walk fresh (length h) c df last_period))) in Hwalk.
    apply walk_spec with (b := length h) (amp := bounds_of df last_period) in Hwalk;
      [| reflexivity | reflexivity].
    rewrite Hbase in Hwalk. destruct Hwalk as [Hh2 Hw]. destruct s2 as [h2 m2].
    cbn [heap self] in Hh2, Hw. subst h2.
    change (set_anos_rejeitados ([] ++ ?l) ?m) with (set_anos_rejeitados l m) in Hw.
    revert Hrun.
    destruct Hw as [l' Hl Hall | pre p post l' ratio Hpos Hl Hcr Hgt Hlt Hyr
                   | pre p post l' Hpos Hl Hcr]; intros Hrun.
    + rewrite finish_run in Hrun.
      cbn [posicao_ set_anos_rejeitados model_before_walk set_amplitudes set_ratio_mes
             set_df_correlacao set_df_base init] in Hrun.
      injection Hrun as <- <-. cbn [heap self]. split; [eauto|].
      right. exists c, col, last_period. eexists. exists (inr tt).
      cbv zeta. split; [apply Hc|].
      split; [exact Hget|]. split; [reflexivity|].
      split; [exact (WalkExhausted _ _ _ _ _ _ l' Hl Hall)|].
      split; reflexivity.
    + rewrite finish_run in Hrun.
      cbn [posicao_ set_escolhido] in Hrun.
      assert (Hp : (p < length (sort_values_desc col))%nat).
      { assert (In p (seq 1 (length (sort_values_desc col) - 1))) as Hin
          by (rewrite Hpos; apply in_elt).
        apply in_seq in Hin. lia. }
      destruct (nth_error (sort_values_desc col) p) as [e|] eqn:He;
        [| apply nth_error_None in He; lia].
      cbn [df_correlacao set_escolhido set_anos_rejeitados model_before_walk set_amplitudes
             set_ratio_mes set_df_correlacao set_df_base init] in Hrun.
      assert (Hloc : exists o, loc (fst e) (nth c (heap s1) empty_frame) = inr o).
      { apply loc_defined. rewrite <- (getitem_index _ _ _ Hget).
        apply in_map. apply (Permutation_in _ (sort_values_desc_perm col)).
        eapply nth_error_In. exact He. }
      destruct Hloc as [o Ho]. rewrite Ho in Hrun.
      injection Hrun as <- <-. cbn [heap self]. split; [eauto|].
      right. exists c, col, last_period. eexists. exists (inr tt).
      cbv zeta. split; [apply Hc|].
      split; [exact Hget|]. split; [reflexivity|].
      split; [exact (WalkAccepted _ _ _ _ _ _ pre p post l' ratio Hpos Hl Hcr Hgt Hlt Hyr)|].
      cbn [posicao_ set_escolhido]. exists e, o. repeat split; assumption.
    + injection Hrun as <- <-. cbn [heap self]. split; [eauto|].
      right. exists c, col, last_period. eexists. exists (inl (candidate_error df (start_of (sort_values_desc col) p))).
      cbv zeta. split; [apply Hc|].
      split; [exact Hget|]. split; [reflexivity|].
      split; [exact (WalkRaised _ _ _ _ _ _ pre p post l' Hpos Hl Hcr)|].
      split; reflexivity.
Qed.

(** A normal return of [fit] on a fresh model: a candidate was accepted. *)
Lemma fit_returns (r : ref) (h : list DataFrame) (c0 : Z) (anos : list Z) (ml mg : Z)
    (s' : St) :
  fit corr r (mkSt h (init c0 anos ml mg)) = (s', inr tt) ->
  let df := nth r h empty_frame in
  exists extra c col last_period pre p post l' ratio e outros,
    let top := sort_values_desc col in
    let amp := bounds_of df last_period in
    let m0 := model_before_walk (init c0 anos ml mg) (length h) c df last_period in
    heap s' = h ++ df :: extra /\
    (c < length (heap s'))%nat /\
    getitem c0 (nth c (heap s') empty_frame) = inr col /\
    lastE (index df) = inr last_period /\
    seq 1 (length top - 1) = pre ++ p :: post /\
    length l' = length pre /\
    candidate_ratio df (start_of top p) = Some ratio /\
    above_count ratio amp <= mg /\
    below_count ratio amp <= ml /\
    ~ In (year (start_of top p)) anos /\
    nth_error top p = Some e /\
    self s' =
      set_correlacao_outros outros
        (set_correlacao (snd e)
           (set_escolhido p (start_of top p) ratio
              (above_count ratio amp) (below_count ratio amp)
              (set_anos_rejeitados l' m0))).
Proof.
  intros Hrun df. apply fit_run in Hrun. cbv zeta in Hrun. fold df in Hrun.
  destruct Hrun as [[extra Hh] [[e [He _]] | [c [col [lastp [m' [wres H]]]]]]];
    [discriminate|].
  destruct H as [Hc [Hget [Hlast [Hw Hfin]]]].
  revert Hfin.
  destruct Hw as [l' Hl Hall | pre p post l' ratio Hpos Hl Hcr Hgt Hlt Hyr
                 | pre p post l' Hpos Hl Hcr]; intros Hfin.
  - cbn in Hfin. destruct Hfin as [Hfin _]. discriminate.
  - cbn [posicao_ set_escolhido] in Hfin. destruct Hfin as [e [o [He [Ho [_ Hs]]]]].
    exists extra, c, col, lastp, pre, p, post, l', ratio, e, o.
    cbv zeta. repeat split; assumption.
  - destruct Hfin as [Hfin _]. discriminate.
Qed.

End FitRun.

(* ================================================================== *)
(** ** The methods never write to a frame they were given *)

Section MethodFrames.

Variable corr : nat -> list float -> list float -> float.

Lemma walk_heap (top : Series) (pos : list nat) :
  forall s, heap (fst (walk top pos s)) = heap s.
Proof.
  induction pos as [|p rest IH]; intros s; [reflexivity|].
  cbn [walk]. unfold bind at 1. unfold self_df_base at 1. unfold bind at 1. cbn [get_self].
  destruct (df_base (self s)) as [b|]; [|reflexivity].
  cbn [deref]. unfold bind at 1. unfold lift at 1.
  destruct (loc _ _) as [e|found]; [reflexivity|].
  cbn [ret]. unfold bind at 1. unfold lift at 1.
  destruct (lastE _) as [e|ult]; [reflexivity|].
  cbn [ret]. destruct found as [cand|rs]; [|reflexivity].
  unfold bind at 1. unfold self_amplitudes at 1. unfold bind at 1. cbn [get_self].
  destruct (amplitudes_ (self s)) as [amp|]; [|reflexivity].
  cbn [ret]. unfold bind at 1. cbn [get_self]. cbv zeta.
  destruct (max_gt_max (self s) <? _);
    [unfold bind at 1; cbn [set_self]; rewrite IH; reflexivity|].
  destruct (max_lt_min (self s) <? _);
    [unfold bind at 1; cbn [set_self]; rewrite IH; reflexivity|].
  destruct (existsb _ _);
    [unfold bind at 1; cbn [set_self]; rewrite IH; reflexivity|].
  reflexivity.
Qed.

Lemma finish_heap (top : Series) (s : St) : heap (fst (finish top s)) = heap s.
Proof.
  destruct s as [h m]. rewrite finish_run.
  destruct (posicao_ m); [|reflexivity].
  destruct (nth_error top n); [|reflexivity].
  destruct (df_correlacao m); [|reflexivity].
  destruct (loc _ _); reflexivity.
Qed.

Lemma fit_extends (r : ref) (s : St) :
  exists extra, heap (fst (fit corr r s)) = heap s ++ extra.
Proof.
  destruct s as [h m]. rewrite fit_unfold. cbv zeta. cbn [heap].
  destruct (calc_corr_last12 corr r _) as [s1 res1] eqn:Hcalc.
  apply calc_corr_last12_frame in Hcalc. destruct Hcalc as [_ [extra [Hh _]]].
  cbn [heap] in Hh. rewrite <- app_assoc in Hh.
  destruct res1 as [e|c]; [eauto|].
  destruct (getitem _ _); [eauto|].
  destruct (df_base _); [|eauto].
  destruct (lastE _); [eauto|].
  match goal with |- context [walk ?t ?p ?st] =>
    pose proof (walk_heap t p st) as Hw; destruct (walk t p st) as [s2 [e|u]] end;
    cbn [fst heap] in Hw.
  - exists ([nth r h empty_frame] ++ extra). cbn [fst]. congruence.
  - exists ([nth r h empty_frame] ++ extra). rewrite finish_heap. congruence.
Qed.

Lemma predict_extends (n : option Z) (s : St) :
  exists extra, heap (fst (predict n s)) = heap s ++ extra.
Proof.
  unfold predict. unfold bind at 1. cbn [get_self].
  unfold bind at 1. unfold self_df_base at 1. unfold bind at 1. cbn [get_self].
  destruct (df_base (self s)) as [b|]; [|exists []; rewrite app_nil_r; reflexivity].
  cbn [deref]. unfold bind at 1. unfold lift at 1.
  destruct (lastE _) as [e|ult]; [exists []; rewrite app_nil_r; reflexivity|].
  cbn [ret]. unfold bind at 1.
  match goal with |- context [if ?c then _ else _] => destruct c end.
  - cbn [ret]. unfold bind at 1. unfold lift at 1.
    destruct (loc_from _ _) as [e|desde]; [exists []; rewrite app_nil_r; reflexivity|].
    cbn [ret]. unfold bind at 1. cbn [alloc]. unfold bind at 1. cbn [mutate heap self].
    cbn [ret fst heap]. rewrite update_nth_app_r by lia. eauto.
  - destruct (period_escolhido_ini_ (self s)) as [p|];
      [|exists []; rewrite app_nil_r; reflexivity].
    cbn [ret]. unfold bind at 1. unfold lift at 1.
    destruct (loc_from _ _) as [e|desde]; [exists []; rewrite app_nil_r; reflexivity|].
    cbn [ret]. unfold bind at 1. cbn [alloc]. unfold bind at 1. cbn [mutate heap self].
    cbn [ret fst heap]. rewrite update_nth_app_r by lia. eauto.
Qed.

Lemma firstn_prefix {A : Type} (l extra : list A) : firstn (length l) (l ++ extra) = l.
Proof.
  rewrite firstn_app, Nat.sub_diag, firstn_all. simpl. apply app_nil_r.
Qed.

End MethodFrames.

(* ================================================================== *)
(** ** Running [predict] *)

Lemma monotonic_tail (x : Period) (l : list Period) :
  is_monotonic_increasing (x :: l) = true ->
  is_monotonic_increasing l = true /\ forall y, In y l -> x <= y.
Proof.
  revert x. induction l as [|z l IH]; intros x H.
  - split; [reflexivity | intros y []].
  - cbn [is_monotonic_increasing] in H. apply andb_prop in H. destruct H as [Hxz Hl].
    apply Z.leb_le in Hxz. split; [exact Hl|].
    intros y [<-|Hy]; [exact Hxz|].
    destruct (IH z Hl) as [_ Hz]. specialize (Hz y Hy). lia.
Qed.

Lemma drop_until_monotonic (start : Period) (rs : list (Period * Row)) :
  is_monotonic_increasing (map fst rs) = true ->
  In start (map fst rs) ->
  drop_until (fun r => start <=? fst r) rs = drop_until (fun r => fst r =? start) rs.
Proof.
  unfold Period in *.
  induction rs as [|x rs IH]; intros Hm Hin; [reflexivity|].
  cbn [map] in Hm. destruct (monotonic_tail _ _ Hm) as [Hm' Hge].
  unfold Period in *. cbn [drop_until].
  match goal with |- (if ?c then _ else _) = _ => destruct c eqn:E1 end.
  - apply Z.leb_le in E1.
    assert (fst x = start) as Heq.
    { destruct Hin as [H|H]; [exact H|]. specialize (Hge start H). lia. }
    match goal with |- _ = (if ?c then _ else _) => destruct c eqn:E2 end;
      [reflexivity | apply Z.eqb_neq in E2; contradiction].
  - apply Z.leb_gt in E1.
    match goal with |- _ = (if ?c then _ else _) => destruct c eqn:E2 end;
      [apply Z.eqb_eq in E2; lia|].
    apply IH; [exact Hm'|].
    destruct Hin as [H|H]; [cbn in H; lia | exact H].
Qed.

Lemma drop_until_found {A : Type} (p : A -> bool) (l : list A) (x : A) :
  In x l -> p x = true ->
  exists y rest, drop_until p l = y :: rest /\ p y = true.
Proof.
  induction l as [|z l IH]; intros Hin Hp; [contradiction|].
  cbn [drop_until]. destruct (p z) eqn:E; [eauto|].
  destruct Hin as [->|Hin]; [congruence|]. apply IH; assumption.
Qed.

(** The rows from a label that occurs in the index start with a row that
    carries it. *)
Lemma rows_from_head (start : Period) (d : DataFrame) :
  In start (index d) ->
  exists row rest, rows_from start d = (start, row) :: rest.
Proof.
  unfold index, rows_from. intros H. apply in_map_iff in H. destruct H as [x [Hx Hin]].
  destruct (drop_until_found (fun r => fst r =? start) (rows d) x Hin) as [y [rest [Hd Hy]]].
  - apply Z.eqb_eq. exact Hx.
  - apply Z.eqb_eq in Hy. destruct y as [py row]. cbn in Hy. subst py. eauto.
Qed.

Lemma loc_from_present (start : Period) (d : DataFrame) :
  In start (index d) -> loc_from (Some start) d = inr (rows_from start d).
Proof.
  intros Hin. unfold loc_from.
  destruct (is_monotonic_increasing (index d)) eqn:Hm.
  - unfold rows_from. rewrite drop_until_monotonic by assumption. reflexivity.
  - destruct (rows_from_head start d Hin) as [row [rest Hr]].
    unfold rows_from in *. rewrite Hr. reflexivity.
Qed.

Lemma loc_series_in_index (label : Period) (d : DataFrame) (row : Row) :
  loc label d = inr (LocSeries row) -> In label (index d).
Proof.
  unfold loc, index.
  destruct (filter (fun r => fst r =? label) (rows d)) as [|x rest] eqn:E; [discriminate|].
  intros _.
  assert (Hx : In x (filter (fun r => fst r =? label) (rows d))) by (rewrite E; left; reflexivity).
  apply filter_In in Hx. destruct Hx as [Hx Hl]. apply Z.eqb_eq in Hl.
  apply in_map_iff. exists x. split; assumption.
Qed.

Lemma candidate_ratio_in_index (d : DataFrame) (start : Period) (ratio : Row) :
  candidate_ratio d start = Some ratio -> In start (index d).
Proof.
  unfold candidate_ratio.
  destruct (loc start d) as [e|[row|rs]] eqn:E; try discriminate.
  intros _. eapply loc_series_in_index. exact E.
Qed.

Lemma map_fst_combine {A B : Type} (l1 : list A) (l2 : list B) :
  length l1 = length l2 -> map fst (combine l1 l2) = l1.
Proof.
  revert l2. induction l1 as [|a l1 IH]; intros [|b l2] H; simpl in *;
    try discriminate; [reflexivity|].
  rewrite IH by lia. reflexivity.
Qed.

Lemma map_snd_combine {A B : Type} (l1 : list A) (l2 : list B) :
  length l1 = length l2 -> map snd (combine l1 l2) = l2.
Proof.
  revert l2. induction l1 as [|a l1 IH]; intros [|b l2] H; simpl in *;
    try discriminate; [reflexivity|].
  rewrite IH by lia. reflexivity.
Qed.

Lemma length_period_range (start : Period) (n : nat) : length (period_range start n) = n.
Proof. unfold period_range. rewrite length_map, length_seq. reflexivity. Qed.

(** [predict] with an explicit, non-zero number of months, on a model whose
    forecast start labels a row of its base series. *)
Lemma predict_run (h : list DataFrame) (m : CorrelacaoAmplitude) (b : ref)
    (start last_period : Period) (k : Z) :
  df_base m = Some b ->
  period_escolhido_ini_ m = Some start ->
  lastE (index (nth b h empty_frame)) = inr last_period ->
  In start (index (nth b h empty_frame)) ->
  k <> 0 ->
  let base := nth b h empty_frame in
  let taken := iloc_head k (rows_from start base) in
  predict (Some k) (mkSt h m) =
  (mkSt (h ++ [set_index (period_range (last_period + 1) (length taken))
                         (with_rows taken base)]) m,
   inr (length h)).
Proof.
  intros Hb Hp Hl Hin Hk base taken.
  unfold predict. unfold bind at 1. cbn [get_self self].
  unfold bind at 1. unfold self_df_base at 1. unfold bind at 1. cbn [get_self self].
  rewrite Hb. cbn [deref heap]. unfold bind at 1. unfold lift at 1.
  fold base. unfold base at 1. rewrite Hl. cbn [ret]. unfold bind at 1.
  destruct (k =? 0) eqn:E; [apply Z.eqb_eq in E; contradiction|].
  cbn [negb ret]. unfold bind at 1. unfold lift at 1.
  rewrite Hp. rewrite (loc_from_present start base Hin). cbn [ret].
  unfold bind at 1. cbn [alloc heap self]. unfold bind at 1. cbn [mutate heap self ret].
  rewrite update_nth_app_r by lia. rewrite Nat.sub_diag. reflexivity.
Qed.

Lemma predict_result_frame (idx_start : Period) (taken : list (Period * Row))
    (base : DataFrame) :
  let result := set_index (period_range idx_start (length taken)) (with_rows taken base) in
  values result = map snd taken /\
  index result = period_range idx_start (length taken) /\
  columns result = columns base /\
  length (rows result) = length taken.
Proof.
  cbv zeta. unfold set_index, with_index_name, with_rows, values, index.
  cbn [rows columns].
  assert (Hlen : length (period_range idx_start (length taken)) = length (map snd taken))
    by (rewrite length_period_range, length_map; reflexivity).
  rewrite map_snd_combine, map_fst_combine by exact Hlen.
  repeat split. rewrite length_combine, length_period_range, length_map. apply Nat.min_id.
Qed.

(* ================================================================== *)
(** ** The amplitude bounds *)

Lemma positive_finite_not_nan (x : float) : positive_finite x = true -> is_nan x = false.
Proof.
  unfold positive_finite. intros H. apply andb_prop in H. destruct H as [H _].
  apply ltb_not_nan in H. tauto.
Qed.

Lemma is_nan_mask_cell (x : float) : is_nan (mask_cell x) = negb (positive_finite x).
Proof.
  unfold mask_cell. destruct (positive_finite x) eqn:E; [|reflexivity].
  rewrite (positive_finite_not_nan x E). reflexivity.
Qed.

Lemma all_masked_iff (raw : list float) :
  forallb is_nan (map mask_cell raw) = true <-> filter positive_finite raw = [].
Proof.
  induction raw as [|x raw IH]; [split; reflexivity|].
  cbn [map forallb filter]. rewrite is_nan_mask_cell.
  destruct (positive_finite x); cbn [negb andb]; [split; discriminate | exact IH].
Qed.

Lemma fmin_not_nan (a x : float) :
  is_nan a = false -> is_nan x = false -> is_nan (fmin a x) = false.
Proof. unfold fmin. destruct (PrimFloat.ltb x a); auto. Qed.

Lemma fmax_not_nan (a x : float) :
  is_nan a = false -> is_nan x = false -> is_nan (fmax a x) = false.
Proof. unfold fmax. destruct (PrimFloat.ltb a x); auto. Qed.

Lemma fold_fmin_spec (l : list float) :
  forall a,
    Forall (fun x => is_nan x = false) l -> is_nan a = false ->
    (fold_left fmin l a = a \/ In (fold_left fmin l a) l) /\
    PrimFloat.leb (fold_left fmin l a) a = true /\
    (forall x, In x l -> PrimFloat.leb (fold_left fmin l a) x = true).
Proof.
  induction l as [|x l IH]; intros a Hl Ha; cbn [fold_left].
  - split; [left; reflexivity|]. split; [apply leb_refl, Ha | intros x []].
  - inversion Hl as [|? ? Hx Hl']; subst.
    destruct (IH (fmin a x) Hl' (fmin_not_nan a x Ha Hx)) as [Hin [Hle Hall]].
    assert (Hfa : PrimFloat.leb (fmin a x) a = true).
    { unfold fmin. destruct (PrimFloat.ltb x a) eqn:E; [apply ltb_leb, E | apply leb_refl, Ha]. }
    assert (Hfx : PrimFloat.leb (fmin a x) x = true).
    { unfold fmin. destruct (PrimFloat.ltb x a) eqn:E; [apply leb_refl, Hx|].
      rewrite (ltb_negb_leb a x Ha Hx) in E. destruct (PrimFloat.leb a x); [reflexivity|discriminate]. }
    split; [|split].
    + destruct Hin as [Hin|Hin]; [|right; right; exact Hin].
      rewrite Hin. unfold fmin. destruct (PrimFloat.ltb x a); [right; left|left]; reflexivity.
    + eapply leb_trans; eassumption.
    + intros y [<-|Hy]; [eapply leb_trans; eassumption | apply Hall, Hy].
Qed.

Lemma fold_fmax_spec (l : list float) :
  forall a,
    Forall (fun x => is_nan x = false) l -> is_nan a = false ->
    (fold_left fmax l a = a \/ In (fold_left fmax l a) l) /\
    PrimFloat.leb a (fold_left fmax l a) = true /\
    (forall x, In x l -> PrimFloat.leb x (fold_left fmax l a) = true).
Proof.
  induction l as [|x l IH]; intros a Hl Ha; cbn [fold_left].
  - split; [left; reflexivity|]. split; [apply leb_refl, Ha | intros x []].
  - inversion Hl as [|? ? Hx Hl']; subst.
    destruct (IH (fmax a x) Hl' (fmax_not_nan a x Ha Hx)) as [Hin [Hle Hall]].
    assert (Hfa : PrimFloat.leb a (fmax a x) = true).
    { unfold fmax. destruct (PrimFloat.ltb a x) eqn:E; [apply ltb_leb, E | apply leb_refl, Ha]. }
    assert (Hfx : PrimFloat.leb x (fmax a x) = true).
    { unfold fmax. destruct (PrimFloat.ltb a x) eqn:E; [apply leb_refl, Hx|].
      rewrite (ltb_negb_leb x a Hx Ha) in E. destruct (PrimFloat.leb x a); [reflexivity|discriminate]. }
    split; [|split].
    + destruct Hin as [Hin|Hin]; [|right; right; exact Hin].
      rewrite Hin. unfold fmax. destruct (PrimFloat.ltb a x); [right; left|left]; reflexivity.
    + eapply leb_trans; eassumption.
    + intros y [<-|Hy]; [eapply leb_trans; eassumption | apply Hall, Hy].
Qed.

Definition fill_min (x : float) : float := if is_nan x then infinity else x.
Definition fill_max (x : float) : float := if is_nan x then neg_infinity else x.

Lemma fill_min_mask (x : float) :
  fill_min (mask_cell x) = if positive_finite x then x else infinity.
Proof.
  unfold fill_min. rewrite is_nan_mask_cell. unfold mask_cell.
  destruct (positive_finite x); reflexivity.
Qed.

Lemma fill_max_mask (x : float) :
  fill_max (mask_cell x) = if positive_finite x then x else neg_infinity.
Proof.
  unfold fill_max. rewrite is_nan_mask_cell. unfold mask_cell.
  destruct (positive_finite x); reflexivity.
Qed.

Lemma filled_not_nan_min (raw : list float) :
  Forall (fun x => is_nan x = false) (map fill_min (map mask_cell raw)).
Proof.
  rewrite map_map. apply Forall_forall. intros y Hy. apply in_map_iff in Hy.
  destruct Hy as [x [<- _]]. rewrite fill_min_mask.
  destruct (positive_finite x) eqn:E; [apply positive_finite_not_nan, E | reflexivity].
Qed.

Lemma filled_not_nan_max (raw : list float) :
  Forall (fun x => is_nan x = false) (map fill_max (map mask_cell raw)).
Proof.
  rewrite map_map. apply Forall_forall. intros y Hy. apply in_map_iff in Hy.
  destruct Hy as [x [<- _]]. rewrite fill_max_mask.
  destruct (positive_finite x) eqn:E; [apply positive_finite_not_nan, E | reflexivity].
Qed.

(** The reductions of a masked column are the extremes of the cells the
    mask kept, and NaN when it kept none. *)
Lemma nanmin_masked (raw : list float) :
  (filter positive_finite raw = [] -> nanmin (map mask_cell raw) = nan) /\
  (filter positive_finite raw <> [] ->
   is_minimum (nanmin (map mask_cell raw)) (filter positive_finite raw)).
Proof.
  unfold nanmin. split.
  - intros H. apply all_masked_iff in H. rewrite H. reflexivity.
  - intros H.
    destruct (forallb is_nan (map mask_cell raw)) eqn:E;
      [apply all_masked_iff in E; contradiction|].
    change (fun x : float => if is_nan x then infinity else x) with fill_min.
    destruct (fold_fmin_spec _ infinity (filled_not_nan_min raw) eq_refl) as [Hin [_ Hall]].
    set (m := fold_left fmin (map fill_min (map mask_cell raw)) infinity) in *.
    assert (Hkept : forall y, In y (filter positive_finite raw) ->
                              In y (map fill_min (map mask_cell raw))).
    { intros y Hy. apply filter_In in Hy. destruct Hy as [Hy Hp].
      rewrite map_map. apply in_map_iff. exists y. split; [|exact Hy].
      rewrite fill_min_mask, Hp. reflexivity. }
    split; [|intros y Hy; apply Hall, Hkept, Hy].
    assert (Hex : exists r0, In r0 (filter positive_finite raw)).
    { destruct (filter positive_finite raw) as [|r0 R]; [contradiction|].
      exists r0. left. reflexivity. }
    destruct Hex as [r0 Hr0].
    assert (Hlt : PrimFloat.ltb m infinity = true).
    { eapply leb_ltb_trans; [apply Hall, Hkept, Hr0|].
      apply filter_In in Hr0. destruct Hr0 as [_ Hp].
      unfold positive_finite in Hp. apply andb_prop in Hp. tauto. }
    destruct Hin as [Hin|Hin]; [rewrite Hin in Hlt; discriminate|].
    rewrite map_map in Hin. apply in_map_iff in Hin. destruct Hin as [x [Hx Hxin]].
    rewrite fill_min_mask in Hx.
    destruct (positive_finite x) eqn:Ep.
    + rewrite <- Hx. apply filter_In. split; assumption.
    + rewrite <- Hx in Hlt. discriminate.
Qed.

Lemma nanmax_masked (raw : list float) :
  (filter positive_finite raw = [] -> nanmax (map mask_cell raw) = nan) /\
  (filter positive_finite raw <> [] ->
   is_maximum (nanmax (map mask_cell raw)) (filter positive_finite raw)).
Proof.
  unfold nanmax. split.
  - intros H. apply all_masked_iff in H. rewrite H. reflexivity.
  - intros H.
    destruct (forallb is_nan (map mask_cell raw)) eqn:E;
      [apply all_masked_iff in E; contradiction|].
    change (fun x : float => if is_nan x then neg_infinity else x) with fill_max.
    destruct (fold_fmax_spec _ neg_infinity (filled_not_nan_max raw) eq_refl) as [Hin [_ Hall]].
    set (m := fold_left fmax (map fill_max (map mask_cell raw)) neg_infinity) in *.
    assert (Hkept : forall y, In y (filter positive_finite raw) ->
                              In y (map fill_max (map mask_cell raw))).
    { intros y Hy. apply filter_In in Hy. destruct Hy as [Hy Hp].
      rewrite map_map. apply in_map_iff. exists y. split; [|exact Hy].
      rewrite fill_max_mask, Hp. reflexivity. }
    split; [|intros y Hy; apply Hall, Hkept, Hy].
    assert (Hex : exists r0, In r0 (filter positive_finite raw)).
    { destruct (filter positive_finite raw) as [|r0 R]; [contradiction|].
      exists r0. left. reflexivity. }
    destruct Hex as [r0 Hr0].
    assert (Hlt : PrimFloat.ltb 0 m = true).
    { eapply ltb_leb_trans; [|apply Hall, Hkept, Hr0].
      apply filter_In in Hr0. destruct Hr0 as [_ Hp].
      unfold positive_finite in Hp. apply andb_prop in Hp. tauto. }
    destruct Hin as [Hin|Hin]; [rewrite Hin in Hlt; discriminate|].
    rewrite map_map in Hin. apply in_map_iff in Hin. destruct Hin as [x [Hx Hxin]].
    rewrite fill_max_mask in Hx.
    destruct (positive_finite x) eqn:Ep.
    + rewrite <- Hx. apply filter_In. split; assumption.
    + rewrite <- Hx in Hlt. discriminate.
Qed.

(** *** The column of the ratio table, row by row *)

Lemma list_as_map_nth {A : Type} (l : list A) (d : A) :
  map (fun t => nth t l d) (seq 0 (length l)) = l.
Proof.
  induction l as [|x l IH]; [reflexivity|].
  cbn [length seq map nth]. f_equal.
  rewrite <- seq_shift, map_map. exact IH.
Qed.

Lemma filter_map_commute {A B : Type} (f : A -> B) (p : B -> bool) (l : list A) :
  filter p (map f l) = map f (filter (fun x => p (f x)) l).
Proof.
  induction l as [|x l IH]; [reflexivity|].
  cbn [map filter]. destruct (p (f x)); cbn [map]; rewrite IH; reflexivity.
Qed.

Lemma nth_map_mask (j : nat) (l : list float) :
  nth j (map mask_cell l) nan = mask_cell (nth j l nan).
Proof.
  revert j. induction l as [|x l IH]; intros [|j]; cbn [map nth]; auto.
Qed.

Lemma shift_up_length (ncols : nat) (vs : list Row) :
  length (shift_up ncols vs) = length vs.
Proof.
  destruct vs as [|v tl]; [reflexivity|].
  cbn [shift_up]. rewrite length_app. cbn [length]. lia.
Qed.

Lemma nth_shift_up (ncols : nat) (vs : list Row) (t : nat) :
  (t < length vs)%nat ->
  nth t (shift_up ncols vs) []
  = if (S t <? length vs)%nat then nth (S t) vs [] else repeat nan ncols.
Proof.
  destruct vs as [|v tl]; cbn [length shift_up]; intros Ht; [lia|].
  destruct (S t <? S (length tl))%nat eqn:E.
  - apply Nat.ltb_lt in E. rewrite app_nth1 by lia. reflexivity.
  - apply Nat.ltb_ge in E. rewrite app_nth2 by lia.
    replace (t - length tl)%nat with 0%nat by lia. reflexivity.
Qed.

Lemma nth_repeat_nan (j n : nat) : nth j (repeat nan n) nan = nan.
Proof.
  revert j. induction n as [|n IH]; intros [|j]; cbn [repeat nth]; auto.
Qed.

Lemma cell_inside (base : DataFrame) (t j : nat) :
  (t < length (rows base))%nat -> cell base t j = nth j (nth t (values base) []) nan.
Proof.
  intros Ht. unfold cell.
  rewrite (nth_error_nth' (values base) []) by (unfold values; rewrite length_map; exact Ht).
  reflexivity.
Qed.

Lemma cell_outside (base : DataFrame) (t j : nat) :
  (length (rows base) <= t)%nat -> cell base t j = nan.
Proof.
  intros Ht. unfold cell.
  assert (H : nth_error (values base) t = None)
    by (apply nth_error_None; unfold values; rewrite length_map; exact Ht).
  rewrite H. reflexivity.
Qed.

Lemma rectangular_row (base : DataFrame) (t : nat) :
  rectangular base -> (t < length (rows base))%nat ->
  length (nth t (values base) []) = length (columns base).
Proof.
  unfold rectangular, values. intros Hr Ht. rewrite Forall_forall in Hr.
  change [] with (snd (0, @nil float)). rewrite map_nth.
  apply Hr. apply nth_In. exact Ht.
Qed.

Lemma ratio_rows_length (base : DataFrame) :
  length (ratio_rows base) = length (rows base).
Proof.
  unfold ratio_rows, index, values.
  rewrite length_combine, !length_map, length_map2, shift_up_length, !length_map. lia.
Qed.

Lemma nth_ratio_rows (base : DataFrame) (t : nat) :
  (t < length (rows base))%nat ->
  nth t (ratio_rows base) (0, [])
  = (nth t (index base) 0,
     map mask_cell
         (series_div (nth t (values base) [])
                     (nth t (shift_up (length (columns base)) (values base)) []))).
Proof.
  intros Ht. unfold ratio_rows.
  assert (Hv : length (values base) = length (rows base))
    by (unfold values; apply length_map).
  rewrite combine_nth
    by (unfold index; rewrite !length_map, length_map2, shift_up_length; lia).
  f_equal.
  change (@nil float) with (map mask_cell []) at 1. rewrite map_nth. f_equal.
  apply nth_map2; rewrite ?shift_up_length; lia.
Qed.

Lemma ratio_cell (base : DataFrame) (t j : nat) :
  rectangular base -> (j < length (columns base))%nat -> (t < length (rows base))%nat ->
  nth j (snd (nth t (ratio_rows base) (0, []))) nan
  = mask_cell (cell base t j / cell base (S t) j)%float.
Proof.
  intros Hr Hj Ht. rewrite nth_ratio_rows by exact Ht. cbn [snd].
  assert (Hv : length (values base) = length (rows base))
    by (unfold values; apply length_map).
  rewrite nth_map_mask. f_equal. unfold series_div.
  rewrite (nth_map2 PrimFloat.div _ _ j nan nan nan).
  - rewrite (cell_inside base t j Ht). f_equal.
    rewrite nth_shift_up by lia. rewrite Hv.
    destruct (S t <? length (rows base))%nat eqn:E.
    + apply Nat.ltb_lt in E. rewrite (cell_inside base (S t) j E). reflexivity.
    + apply Nat.ltb_ge in E. rewrite (cell_outside base (S t) j E). apply nth_repeat_nan.
  - rewrite rectangular_row by assumption. exact Hj.
  - rewrite nth_shift_up by lia. rewrite Hv.
    destruct (S t <? length (rows base))%nat eqn:E.
    + apply Nat.ltb_lt in E. rewrite rectangular_row by assumption. exact Hj.
    + rewrite repeat_length. exact Hj.
Qed.

Lemma ratio_column (base : DataFrame) (m : Z) (j : nat) :
  rectangular base -> (j < length (columns base))%nat ->
  column j (map snd (select_month m (ratio_rows base)))
  = map mask_cell
        (map (fun t => (cell base t j / cell base (S t) j)%float)
             (filter (fun t => month (nth t (index base) 0) =? m)
                     (seq 0 (length (rows base))))).
Proof.
  intros Hr Hj. unfold column, select_month.
  rewrite <- (list_as_map_nth (ratio_rows base) (0, [])) at 1.
  rewrite ratio_rows_length, filter_map_commute, !map_map.
  rewrite (filter_ext_in
             (fun t => month (fst (nth t (ratio_rows base) (0, []))) =? m)
             (fun t => month (nth t (index base) 0) =? m)).
  - apply map_ext_in. intros t Ht. apply filter_In in Ht. destruct Ht as [Ht _].
    apply in_seq in Ht. apply ratio_cell; [assumption | assumption | lia].
  - intros t Ht. apply in_seq in Ht. rewrite nth_ratio_rows by lia. reflexivity.
Qed.

Lemma nth_map_seq {A : Type} (f : nat -> A) (n j : nat) (d : A) :
  (j < n)%nat -> nth j (map f (seq 0 n)) d = f j.
Proof.
  intros Hj.
  rewrite (nth_indep _ d (f 0%nat)) by (rewrite length_map, length_seq; exact Hj).
  rewrite (map_nth f (seq 0 n) 0%nat j), seq_nth by exact Hj. reflexivity.
Qed.

(** The bounds [fit] assigns, station by station. *)
Lemma bounds_of_station (base : DataFrame) (last_period : Period) (j : nat) :
  rectangular base -> (j < length (columns base))%nat ->
  lastE (index base) = inr last_period ->
  nth j (amp_min (bounds_of base last_period)) nan
  = nanmin (map mask_cell (month_ratios base j)) /\
  nth j (amp_max (bounds_of base last_period)) nan
  = nanmax (map mask_cell (month_ratios base j)).
Proof.
  intros Hr Hj Hl. unfold bounds_of, month_ratios. rewrite Hl. cbn [amp_min amp_max].
  unfold column_min, column_max.
  rewrite !nth_map_seq by exact Hj.
  rewrite ratio_column by assumption. split; reflexivity.
Qed.

(* ================================================================== *)
(** * The claims *)

Section Claims.

Variable corr : nat -> list float -> list float -> float.

Lemma ranking_of_final (c0 : Z) (h : list DataFrame) (m : CorrelacaoAmplitude)
    (c : ref) (col : Series) :
  df_correlacao m = Some c ->
  getitem c0 (nth c h empty_frame) = inr col ->
  ranking_of c0 (mkSt h m) = sort_values_desc col.
Proof.
  intros Hc Hg. unfold ranking_of. cbn [self heap]. rewrite Hc, Hg. reflexivity.
Qed.

(** C1.  When [fit] accepts a candidate, the recorded counts obey both
    limits at once: [gt_max_ <= max_gt_max] and [lt_min_ <= max_lt_min],
    where [gt_max_] counts the stations whose candidate ratio (the row of
    the month after the candidate's window end over the last row of the
    series) is above the station's historical maximum, and [lt_min_] those
    whose ratio is below the historical minimum. *)
Theorem fit_accepted_within_limits (r : ref) (h : list DataFrame) (c0 : Z)
    (anos : list Z) (ml mg : Z) (s' : St) :
  fit corr r (mkSt h (init c0 anos ml mg)) = (s', inr tt) ->
  exists p start amp ratio,
    posicao_ (self s') = Some p /\
    start = start_of (ranking_of c0 s') p /\
    period_escolhido_ini_ (self s') = Some start /\
    amplitudes_ (self s') = Some amp /\
    candidate_ratio (nth r h empty_frame) start = Some ratio /\
    gt_max_ (self s') = Some (above_count ratio amp) /\
    lt_min_ (self s') = Some (below_count ratio amp) /\
    above_count ratio amp <= mg /\
    below_count ratio amp <= ml.
Proof.
  intros Hrun. apply fit_returns in Hrun. cbv zeta in Hrun.
  destruct Hrun as (extra & c & col & lastp & pre & p & post & l' & ratio & e & o & H).
  destruct H as (Hh & Hc & Hget & Hlast & Hpos & Hl & Hcr & Hgt & Hlt & Hyr & He & Hs).
  destruct s' as [h' m']. cbn [heap self] in *. subst m'.
  exists p, (start_of (sort_values_desc col) p).
  eexists. exists ratio.
  rewrite (ranking_of_final c0 h' _ c col) by (try reflexivity; exact Hget).
  repeat split; try reflexivity; assumption.
Qed.

(** C2.  When [fit] accepts a candidate, its year [ano_escolhido_] (the
    calendar year of the month right after the candidate's window end) is
    not one of [anos_ignorados]. *)
Theorem fit_accepted_year_not_ignored (r : ref) (h : list DataFrame) (c0 : Z)
    (anos : list Z) (ml mg : Z) (s' : St) :
  fit corr r (mkSt h (init c0 anos ml mg)) = (s', inr tt) ->
  exists p a,
    posicao_ (self s') = Some p /\
    ano_escolhido_ (self s') = Some a /\
    a = year (start_of (ranking_of c0 s') p) /\
    ~ In a anos.
Proof.
  intros Hrun. apply fit_returns in Hrun. cbv zeta in Hrun.
  destruct Hrun as (extra & c & col & lastp & pre & p & post & l' & ratio & e & o & H).
  destruct H as (Hh & Hc & Hget & Hlast & Hpos & Hl & Hcr & Hgt & Hlt & Hyr & He & Hs).
  destruct s' as [h' m']. cbn [heap self] in *. subst m'.
  exists p, (year (start_of (sort_values_desc col) p)).
  rewrite (ranking_of_final c0 h' _ c col) by (try reflexivity; exact Hget).
  repeat split; try reflexivity; assumption.
Qed.

(** C3, as amended.  When every candidate of the ranking, rank 0 left out,
    is rejected by an amplitude check or by the excluded-year check, [fit]
    fails: the lookup [top_corr.iloc[None]] raises a [TypeError], which is
    none of the errors of the specification, and at that point
    [anos_rejeitados_] holds one record per candidate, so its length is the
    length of the ranking less one. *)
Theorem fit_exhausted_raises_type_error (r : ref) (h : list DataFrame) (c0 : Z)
    (anos : list Z) (ml mg : Z) (s' : St) (res : exn + unit) (amp : Amplitudes) :
  fit corr r (mkSt h (init c0 anos ml mg)) = (s', res) ->
  amplitudes_ (self s') = Some amp ->
  Forall (fun p => rejected_by_checks (nth r h empty_frame) amp anos ml mg
                     (start_of (ranking_of c0 s') p))
         (seq 1 (length (ranking_of c0 s') - 1)) ->
  res = inl TypeError /\
  classify TypeError = None /\
  exists l, anos_rejeitados_ (self s') = Some l /\
            length l = (length (ranking_of c0 s') - 1)%nat.
Proof.
  intros Hrun Hamp Hall. apply fit_run in Hrun. cbv zeta in Hrun.
  destruct Hrun as [_ [[e [_ [Hnone _]]] | [c [col [lastp [m' [wres H]]]]]]];
    [congruence|].
  destruct H as [Hc [Hget [Hlast [Hw Hfin]]]].
  destruct s' as [h' ms]. cbn [heap self] in *.
  revert Hfin.
  destruct Hw as [l' Hl Hrej | pre p post l' ratio Hpos Hl Hcr Hgt Hlt Hyr
                 | pre p post l' Hpos Hl Hcr]; intros Hfin.
  - cbn in Hfin. destruct Hfin as [-> ->].
    rewrite (ranking_of_final c0 h' _ c col) by (try reflexivity; exact Hget).
    split; [reflexivity|]. split; [reflexivity|].
    exists l'. split; [reflexivity|]. rewrite Hl, length_seq. reflexivity.
  - exfalso. cbn [posicao_ set_escolhido] in Hfin.
    destruct Hfin as [e [o [He [Ho [_ ->]]]]].
    rewrite (ranking_of_final c0 h' _ c col) in Hall by (try reflexivity; exact Hget).
    rewrite Hpos in Hall. apply Forall_elt in Hall.
    destruct Hall as [ratio' [Hcr' Hbad]]. rewrite Hcr in Hcr'. injection Hcr' as <-.
    cbn in Hamp. injection Hamp as <-.
    unfold above_count, below_count in *. cbn [amp_max amp_min bounds_of] in *.
    cbn [anos_ignorados max_lt_min max_gt_max model_before_walk set_anos_rejeitados
           set_amplitudes set_ratio_mes set_df_correlacao set_df_base init] in *.
    destruct Hbad as [Hb | [Hb | Hb]]; [lia | lia | contradiction].
  - exfalso. destruct Hfin as [_ ->].
    rewrite (ranking_of_final c0 h' _ c col) in Hall by (try reflexivity; exact Hget).
    rewrite Hpos in Hall. apply Forall_elt in Hall.
    destruct Hall as [ratio' [Hcr' _]]. congruence.
Qed.

(** C9.  Frame condition: [calc_corr_last12], [fit] and [predict] never
    write to a frame that existed when they were called.  After each of
    them, and after [fit] followed by [predict], every object of the store
    the caller had, the input series among them, is what it was: same
    index, same cells.  The methods write to their own copies only. *)
Theorem methods_leave_input_untouched (r : ref) (n : option Z) (s : St) :
  firstn (length (heap s)) (heap (fst (calc_corr_last12 corr r s))) = heap s /\
  firstn (length (heap s)) (heap (fst (fit corr r s))) = heap s /\
  firstn (length (heap s)) (heap (fst (predict n s))) = heap s /\
  firstn (length (heap s)) (heap (fst ((fit corr r ;;; predict n) s))) = heap s /\
  ((r < length (heap s))%nat ->
   nth r (heap (fst ((fit corr r ;;; predict n) s))) empty_frame
   = nth r (heap s) empty_frame).
Proof.
  assert (Hboth : exists extra,
             heap (fst ((fit corr r ;;; predict n) s)) = heap s ++ extra).
  { unfold bind. destruct (fit_extends corr r s) as [e1 H1].
    destruct (fit corr r s) as [s1 [e|u]]; cbn [fst] in *; [eauto|].
    destruct (predict_extends n s1) as [e2 H2]. rewrite H2, H1, <- app_assoc. eauto. }
  repeat split.
  - destruct (calc_corr_last12 corr r s) as [s1 res1] eqn:Hc.
    apply calc_corr_last12_frame in Hc. destruct Hc as [_ [extra [Hh _]]].
    cbn [fst]. rewrite Hh. apply firstn_prefix.
  - destruct (fit_extends corr r s) as [extra Hh]. rewrite Hh. apply firstn_prefix.
  - destruct (predict_extends n s) as [extra Hh]. rewrite Hh. apply firstn_prefix.
  - destruct Hboth as [extra Hh]. rewrite Hh. apply firstn_prefix.
  - intros Hlt. destruct Hboth as [extra Hh]. rewrite Hh.
    apply app_nth1. exact Hlt.
Qed.

(** C10.  In the amplitude test a station whose bound is NaN, or whose
    candidate ratio is NaN, counts neither as above the maximum nor as
    below the minimum: both comparisons are false for it, and the two
    counts are what they would be with the station left out.  Such a
    station cannot make a candidate be rejected on amplitude grounds. *)
Theorem nan_station_never_counted (r1 r2 lo1 lo2 hi1 hi2 : Row) (x lo hi : float) :
  length r1 = length hi1 -> length r1 = length lo1 ->
  is_nan x = true \/ (is_nan lo = true /\ is_nan hi = true) ->
  let ratio := r1 ++ x :: r2 in
  let amp := mkAmplitudes (lo1 ++ lo :: lo2) (hi1 ++ hi :: hi2) None in
  let amp' := mkAmplitudes (lo1 ++ lo2) (hi1 ++ hi2) None in
  nth (length r1) (series_gt ratio (amp_max amp)) true = false /\
  nth (length r1) (series_lt ratio (amp_min amp)) true = false /\
  above_count ratio amp = above_count (r1 ++ r2) amp' /\
  below_count ratio amp = below_count (r1 ++ r2) amp'.
Proof.
  intros Hhi Hlo Hnan ratio amp amp'.
  assert (Hgt : PrimFloat.ltb hi x = false).
  { destruct Hnan as [Hx | [_ Hh]];
      [apply ltb_nan_right; exact Hx | apply ltb_nan_left; exact Hh]. }
  assert (Hlt : PrimFloat.ltb x lo = false).
  { destruct Hnan as [Hx | [Hl _]];
      [apply ltb_nan_left; exact Hx | apply ltb_nan_right; exact Hl]. }
  unfold above_count, below_count, series_gt, series_lt, ratio, amp, amp'.
  cbn [amp_max amp_min].
  rewrite !map2_app by assumption. cbn [map2]. rewrite Hgt, Hlt.
  repeat split.
  - rewrite app_nth2 by (rewrite length_map2; lia).
    rewrite length_map2, <- Hhi, Nat.min_id, Nat.sub_diag. reflexivity.
  - rewrite app_nth2 by (rewrite length_map2; lia).
    rewrite length_map2, <- Hlo, Nat.min_id, Nat.sub_diag. reflexivity.
  - unfold count_true. rewrite !filter_app. reflexivity.
  - unfold count_true. rewrite !filter_app. reflexivity.
Qed.

(** The ranking [fit] walked, read from the state it leaves. *)
Lemma ranking_after_fit (r : ref) (h : list DataFrame) (c0 : Z) (anos : list Z)
    (ml mg : Z) (s' : St) (res : exn + unit) :
  fit corr r (mkSt h (init c0 anos ml mg)) = (s', res) ->
  amplitudes_ (self s') <> None ->
  exists c col,
    df_correlacao (self s') = Some c /\
    getitem c0 (nth c (heap s') empty_frame) = inr col /\
    ranking_of c0 s' = sort_values_desc col /\
    (res = inr tt ->
     exists p e,
       posicao_ (self s') = Some p /\ (1 <= p)%nat /\
       nth_error (sort_values_desc col) p = Some e /\
       period_escolhido_ini_ (self s') = Some (fst e + 1) /\
       correlacao_ (self s') = Some (snd e)).
Proof.
  intros Hrun Hamp. apply fit_run in Hrun. cbv zeta in Hrun.
  destruct Hrun as [_ [[e [_ [Hnone _]]] | [c [col [lastp [m' [wres H]]]]]]];
    [congruence|].
  destruct H as [Hc [Hget [Hlast [Hw Hfin]]]].
  destruct s' as [h' ms]. cbn [heap self] in *.
  exists c, col.
  revert Hfin.
  destruct Hw as [l' Hl Hrej | pre p post l' ratio Hpos Hl Hcr Hgt Hlt Hyr
                 | pre p post l' Hpos Hl Hcr]; intros Hfin.
  - cbn in Hfin. destruct Hfin as [-> ->].
    split; [reflexivity|]. split; [exact Hget|].
    split; [apply (ranking_of_final c0 h' _ c col); [reflexivity | exact Hget]|].
    intros Hres. discriminate Hres.
  - cbn [posicao_ set_escolhido] in Hfin.
    destruct Hfin as [e [o [He [Ho [_ ->]]]]].
    split; [reflexivity|]. split; [exact Hget|].
    split; [apply (ranking_of_final c0 h' _ c col); [reflexivity | exact Hget]|].
    intros _. exists p, e.
    split; [reflexivity|].
    split.
    { assert (In p (seq 1 (length (sort_values_desc col) - 1))) as Hin
        by (rewrite Hpos; apply in_elt).
      apply in_seq in Hin. lia. }
    split; [exact He|].
    split; [|reflexivity].
    cbn [period_escolhido_ini_ set_correlacao_outros set_correlacao set_escolhido].
    unfold start_of. apply f_equal. apply (f_equal (fun x => x + 1)).
    apply (f_equal fst). apply nth_error_nth. exact He.
  - destruct Hfin as [-> ->].
    split; [reflexivity|]. split; [exact Hget|].
    split; [apply (ranking_of_final c0 h' _ c col); [reflexivity | exact Hget]|].
    intros Hres. discriminate Hres.
Qed.

(** C5, as amended.  The ranking [fit] walks is the reference station's
    column of the correlation table reordered: the entries whose
    correlation is not NaN come first, by correlation descending, and the
    NaN entries follow in the order of the table; rank 0 carries the
    greatest correlation of the column, and it is the reference window
    whenever the correlation of the reference window is not NaN and
    strictly above that of every other window.  When [fit] returns, the
    window it chose is an entry of this ranking at a rank of 1 or more,
    whose correlation it recorded. *)
Theorem ranking_sorted_descending (r : ref) (h : list DataFrame) (c0 : Z)
    (anos : list Z) (ml mg : Z) (s' : St) (res : exn + unit) :
  fit corr r (mkSt h (init c0 anos ml mg)) = (s', res) ->
  amplitudes_ (self s') <> None ->
  exists c col head,
    df_correlacao (self s') = Some c /\
    getitem c0 (nth c (heap s') empty_frame) = inr col /\
    ranking_of c0 s' = head ++ filter nan_entry col /\
    Permutation head (filter not_nan_entry col) /\
    StronglySorted value_ge head /\
    (forall top rest e,
        ranking_of c0 s' = top :: rest -> In e col -> is_nan (snd e) = false ->
        PrimFloat.leb (snd e) (snd top) = true) /\
    (forall e,
        In e col -> is_nan (snd e) = false ->
        (forall e', In e' col -> fst e' <> fst e ->
                    PrimFloat.ltb (snd e') (snd e) = true) ->
        exists top rest, ranking_of c0 s' = top :: rest /\ fst top = fst e) /\
    (res = inr tt ->
     exists p e,
       posicao_ (self s') = Some p /\ (1 <= p)%nat /\
       nth_error (ranking_of c0 s') p = Some e /\
       period_escolhido_ini_ (self s') = Some (fst e + 1) /\
       correlacao_ (self s') = Some (snd e)).
Proof.
  intros Hrun Hamp.
  destruct (ranking_after_fit r h c0 anos ml mg s' res Hrun Hamp)
    as (c & col & Hc & Hget & Hrank & Hchosen).
  exists c, col, (ranked_head col). rewrite Hrank.
  split; [exact Hc|]. split; [exact Hget|].
  split; [apply sort_values_desc_split|].
  split; [apply ranked_head_perm|].
  split; [apply ranked_head_sorted|].
  split; [|split; [intros e; apply ranked_head_dominant | exact Hchosen]].
  intros top rest e Htop He Hn. rewrite sort_values_desc_split in Htop.
  destruct (ranked_head col) as [|h' rest'] eqn:Hh.
  - exfalso.
    assert (Hin : In e (ranked_head col)).
    { apply (Permutation_in _ (Permutation_sym (ranked_head_perm col))).
      apply filter_In. split; [exact He|]. unfold not_nan_entry. rewrite Hn. reflexivity. }
    rewrite Hh in Hin. contradiction.
  - simpl in Htop. injection Htop as <- _.
    apply (ranked_head_first_max col h' rest' Hh e He Hn).
Qed.

End Claims.


Section ClaimsPredict.

Variable corr : nat -> list float -> list float -> float.

(** After a normal return of [fit] on a fresh model, [predict] with an
    explicit, non-zero number of months returns a new frame holding the
    first rows of the base series from the forecast start on. *)
Lemma predict_after_fit (r : ref) (h : list DataFrame) (c0 : Z) (anos : list Z)
    (ml mg : Z) (s1 : St) (start : Period) (k : Z) :
  fit corr r (mkSt h (init c0 anos ml mg)) = (s1, inr tt) ->
  period_escolhido_ini_ (self s1) = Some start ->
  k <> 0 ->
  let df := nth r h empty_frame in
  let taken := iloc_head k (rows_from start df) in
  exists s2 out last_period row rest,
    predict (Some k) s1 = (s2, inr out) /\
    lastE (index df) = inr last_period /\
    rows_from start df = (start, row) :: rest /\
    values (nth out (heap s2) empty_frame) = map snd taken /\
    index (nth out (heap s2) empty_frame)
    = period_range (last_period + 1) (length taken) /\
    columns (nth out (heap s2) empty_frame) = columns df /\
    length (rows (nth out (heap s2) empty_frame)) = length taken.
Proof.
  intros Hrun Hstart Hk df taken. apply fit_returns in Hrun. cbv zeta in Hrun. fold df in Hrun.
  destruct Hrun as (extra & c & col & lastp & pre & p & post & l' & ratio & e & o & H).
  destruct H as (Hh & Hc & Hget & Hlast & Hpos & Hl & Hcr & Hgt & Hlt & Hyr & He & Hs).
  destruct s1 as [h1 m1]. cbn [heap self] in *. subst m1.
  cbn in Hstart. injection Hstart as <-.
  assert (Hbase : nth (length h) h1 empty_frame = df) by (rewrite Hh; apply nth_middle).
  pose proof (candidate_ratio_in_index _ _ _ Hcr) as Hin.
  destruct (rows_from_head _ _ Hin) as [row [rest Hrows]].
  eexists. exists (length h1), lastp, row, rest.
  split.
  { apply predict_run with (b := length h) (start := start_of (sort_values_desc col) p)
                           (last_period := lastp);
      try reflexivity; rewrite ?Hbase; assumption. }
  cbn [heap]. rewrite nth_middle, Hbase.
  split; [exact Hlast|]. split; [exact Hrows|].
  apply predict_result_frame.
Qed.

(** X19.  For a fitted model and a horizon [k] of at least one
    month, with [k] rows in the base series from the forecast start on,
    [predict(k)] returns a frame of [k] rows whose cells are those of the
    base rows from [period_escolhido_ini_] on, in the same order, and whose
    index is the [k] consecutive months after the last month of the base
    series. *)
Theorem predict_copies_base_rows (r : ref) (h : list DataFrame) (c0 : Z)
    (anos : list Z) (ml mg : Z) (s1 : St) (start : Period) (k : Z) :
  fit corr r (mkSt h (init c0 anos ml mg)) = (s1, inr tt) ->
  period_escolhido_ini_ (self s1) = Some start ->
  1 <= k <= Z.of_nat (length (rows_from start (nth r h empty_frame))) ->
  exists s2 out last_period row rest,
    predict (Some k) s1 = (s2, inr out) /\
    lastE (index (nth r h empty_frame)) = inr last_period /\
    rows_from start (nth r h empty_frame) = (start, row) :: rest /\
    values (nth out (heap s2) empty_frame)
    = map snd (firstn (Z.to_nat k) (rows_from start (nth r h empty_frame))) /\
    index (nth out (heap s2) empty_frame)
    = period_range (last_period + 1) (Z.to_nat k) /\
    columns (nth out (heap s2) empty_frame) = columns (nth r h empty_frame) /\
    length (rows (nth out (heap s2) empty_frame)) = Z.to_nat k.
Proof.
  intros Hrun Hstart Hk.
  destruct (predict_after_fit r h c0 anos ml mg s1 start k Hrun Hstart) as
    (s2 & out & lastp & row & rest & Hp & Hl & Hr & Hv & Hi & Hc & Hn); [lia|].
  assert (Htaken : iloc_head k (rows_from start (nth r h empty_frame))
                   = firstn (Z.to_nat k) (rows_from start (nth r h empty_frame))).
  { unfold iloc_head. destruct (0 <=? k) eqn:E; [reflexivity | apply Z.leb_gt in E; lia]. }
  rewrite Htaken in *.
  assert (Hlen : length (firstn (Z.to_nat k) (rows_from start (nth r h empty_frame)))
                 = Z.to_nat k) by (apply firstn_length_le; lia).
  rewrite Hlen in *.
  exists s2, out, lastp, row, rest. repeat split; assumption.
Qed.

(** C7, as amended.  For a fitted model and a requested horizon [k] larger
    than the number of rows of the base series from the forecast start on,
    [predict(k)] raises nothing: it returns the rows that remain, fewer
    than [k], re-indexed onto the months after the last month of the base
    series. *)
Theorem predict_beyond_history_truncates (r : ref) (h : list DataFrame) (c0 : Z)
    (anos : list Z) (ml mg : Z) (s1 : St) (start : Period) (k : Z) :
  fit corr r (mkSt h (init c0 anos ml mg)) = (s1, inr tt) ->
  period_escolhido_ini_ (self s1) = Some start ->
  Z.of_nat (length (rows_from start (nth r h empty_frame))) < k ->
  exists s2 out last_period,
    predict (Some k) s1 = (s2, inr out) /\
    lastE (index (nth r h empty_frame)) = inr last_period /\
    values (nth out (heap s2) empty_frame)
    = map snd (rows_from start (nth r h empty_frame)) /\
    index (nth out (heap s2) empty_frame)
    = period_range (last_period + 1)
                   (length (rows_from start (nth r h empty_frame))) /\
    Z.of_nat (length (rows (nth out (heap s2) empty_frame))) < k.
Proof.
  intros Hrun Hstart Hk.
  destruct (predict_after_fit r h c0 anos ml mg s1 start k Hrun Hstart) as
    (s2 & out & lastp & row & rest & Hp & Hl & Hr & Hv & Hi & Hc & Hn); [lia|].
  assert (Htaken : iloc_head k (rows_from start (nth r h empty_frame))
                   = rows_from start (nth r h empty_frame)).
  { unfold iloc_head. destruct (0 <=? k) eqn:E; [|apply Z.leb_gt in E; lia].
    apply firstn_all2. lia. }
  rewrite Htaken in *.
  exists s2, out, lastp. repeat split; try assumption. rewrite Hn. exact Hk.
Qed.

End ClaimsPredict.

Section ClaimsBounds.

Variable corr : nat -> list float -> list float -> float.

(** Whatever the outcome of [fit] on a fresh model, the bounds it has
    assigned are those of the base series. *)
Lemma fit_bounds (r : ref) (h : list DataFrame) (c0 : Z) (anos : list Z) (ml mg : Z)
    (s' : St) (res : exn + unit) (amp : Amplitudes) :
  fit corr r (mkSt h (init c0 anos ml mg)) = (s', res) ->
  amplitudes_ (self s') = Some amp ->
  exists last_period,
    lastE (index (nth r h empty_frame)) = inr last_period /\
    amp_min amp = amp_min (bounds_of (nth r h empty_frame) last_period) /\
    amp_max amp = amp_max (bounds_of (nth r h empty_frame) last_period).
Proof.
  intros Hrun Hamp. apply fit_run in Hrun. cbv zeta in Hrun.
  destruct Hrun as [_ [[e [_ [Hnone _]]] | [c [col [lastp [m' [wres H]]]]]]];
    [congruence|].
  destruct H as [Hc [Hget [Hlast [Hw Hfin]]]].
  exists lastp. split; [exact Hlast|].
  revert Hfin.
  destruct Hw as [l' Hl Hrej | pre p post l' ratio Hpos Hl Hcr Hgt Hlt Hyr
                 | pre p post l' Hpos Hl Hcr]; intros Hfin.
  - cbn in Hfin. destruct Hfin as [_ Hs]. rewrite Hs in Hamp.
    cbn in Hamp. injection Hamp as <-. split; reflexivity.
  - cbn [posicao_ set_escolhido] in Hfin. destruct Hfin as [e [o [_ [_ [_ Hs]]]]].
    rewrite Hs in Hamp. cbn in Hamp. injection Hamp as <-. split; reflexivity.
  - destruct Hfin as [_ Hs]. rewrite Hs in Hamp.
    cbn in Hamp. injection Hamp as <-. split; reflexivity.
Qed.

Lemma bounds_nan_without_ratios (r : ref) (h : list DataFrame)
    (c0 : Z) (anos : list Z) (ml mg : Z) (s' : St) (res : exn + unit)
    (amp : Amplitudes) (j : nat) :
  fit corr r (mkSt h (init c0 anos ml mg)) = (s', res) ->
  amplitudes_ (self s') = Some amp ->
  rectangular (nth r h empty_frame) ->
  (j < length (columns (nth r h empty_frame)))%nat ->
  retained_ratios (nth r h empty_frame) j = [] ->
  nth j (amp_min amp) nan = nan /\ nth j (amp_max amp) nan = nan.
Proof.
  intros Hrun Hamp Hrect Hj H.
  destruct (fit_bounds r h c0 anos ml mg s' res amp Hrun Hamp) as [lastp [Hl [Hmin Hmax]]].
  destruct (bounds_of_station _ lastp j Hrect Hj Hl) as [Hbmin Hbmax].
  rewrite Hmin, Hmax, Hbmin, Hbmax. unfold retained_ratios in H.
  split; [apply nanmin_masked; exact H | apply nanmax_masked; exact H].
Qed.

(** C4.  After [fit], for every station, [amplitudes_['min']] and
    [amplitudes_['max']] are the least and the greatest of the ratios
    [value[t] / value[t+1]] over the rows [t] whose calendar month is that
    of the last row and whose ratio is strictly positive and finite; the
    other ratios (zero, negative, infinite, NaN) are left out of the
    reduction.  When no ratio is retained both are NaN. *)
Theorem amplitudes_are_extremes_of_retained_ratios (r : ref) (h : list DataFrame)
    (c0 : Z) (anos : list Z) (ml mg : Z) (s' : St) (res : exn + unit)
    (amp : Amplitudes) (j : nat) :
  fit corr r (mkSt h (init c0 anos ml mg)) = (s', res) ->
  amplitudes_ (self s') = Some amp ->
  rectangular (nth r h empty_frame) ->
  (j < length (columns (nth r h empty_frame)))%nat ->
  (retained_ratios (nth r h empty_frame) j <> [] ->
   is_minimum (nth j (amp_min amp) nan) (retained_ratios (nth r h empty_frame) j) /\
   is_maximum (nth j (amp_max amp) nan) (retained_ratios (nth r h empty_frame) j)) /\
  (retained_ratios (nth r h empty_frame) j = [] ->
   nth j (amp_min amp) nan = nan /\ nth j (amp_max amp) nan = nan).
Proof.
  intros Hrun Hamp Hrect Hj.
  destruct (fit_bounds r h c0 anos ml mg s' res amp Hrun Hamp) as [lastp [Hl [Hmin Hmax]]].
  destruct (bounds_of_station _ lastp j Hrect Hj Hl) as [Hbmin Hbmax].
  rewrite Hmin, Hmax, Hbmin, Hbmax. unfold retained_ratios.
  split; intros H; split;
    first [apply nanmin_masked; exact H | apply nanmax_masked; exact H].
Qed.

Lemma series_gt_nan_bound (ratio bound : Row) (j : nat) :
  nth j bound nan = nan -> nth j (series_gt ratio bound) false = false.
Proof.
  unfold series_gt. revert bound j.
  induction ratio as [|x ratio IH]; intros [|b bound] [|j] H; cbn [map2 nth] in *;
    try reflexivity.
  - subst b. apply ltb_nan_left. reflexivity.
  - apply IH. exact H.
Qed.

Lemma series_lt_nan_bound (ratio bound : Row) (j : nat) :
  nth j bound nan = nan -> nth j (series_lt ratio bound) false = false.
Proof.
  unfold series_lt. revert bound j.
  induction ratio as [|x ratio IH]; intros [|b bound] [|j] H; cbn [map2 nth] in *;
    try reflexivity.
  - subst b. apply ltb_nan_right. reflexivity.
  - apply IH. exact H.
Qed.

End ClaimsBounds.

(* ================================================================== *)
(** * The claims on the worked series *)

(** With limits of five stations and no excluded year, [fit] accepts the
    candidate of rank 1, the window ending in 1971-12. *)
Lemma fit_accepted_within_limits_serie :
  exists p start amp ratio,
    posicao_ (self (fst (fit_serie [] 5 5))) = Some p /\
    start = start_of (ranking_of 6 (fst (fit_serie [] 5 5))) p /\
    period_escolhido_ini_ (self (fst (fit_serie [] 5 5))) = Some start /\
    amplitudes_ (self (fst (fit_serie [] 5 5))) = Some amp /\
    candidate_ratio (nth 0 [serie] empty_frame) start = Some ratio /\
    gt_max_ (self (fst (fit_serie [] 5 5))) = Some (above_count ratio amp) /\
    lt_min_ (self (fst (fit_serie [] 5 5))) = Some (below_count ratio amp) /\
    above_count ratio amp <= 5 /\
    below_count ratio amp <= 5.
Proof.
  apply (fit_accepted_within_limits pearson_rolling 0%nat [serie] 6 [] 5 5).
  vm_compute. reflexivity.
Defined.

(** With 1972 excluded, the candidate of rank 1 is passed over and the one
    of rank 2, whose year is 1971, is accepted. *)
Lemma fit_accepted_year_not_ignored_serie :
  exists p a,
    posicao_ (self (fst (fit_serie [1972] 5 5))) = Some p /\
    ano_escolhido_ (self (fst (fit_serie [1972] 5 5))) = Some a /\
    a = year (start_of (ranking_of 6 (fst (fit_serie [1972] 5 5))) p) /\
    ~ In a [1972].
Proof.
  apply (fit_accepted_year_not_ignored pearson_rolling 0%nat [serie] 6 [1972] 5 5).
  vm_compute. reflexivity.
Defined.

(** The run in which both candidate years are excluded. *)
Definition fit_serie_excluded : St * (exn + unit) := fit_serie [1971; 1972] 5 5.

Definition amp_serie : Amplitudes :=
  mkAmplitudes [1; 1.125; nan]%float [2; 1.5; nan]%float None.

Lemma serie_all_rejected :
  Forall (fun p => rejected_by_checks (nth 0 [serie] empty_frame) amp_serie [1971; 1972] 5 5
                     (start_of (ranking_of 6 (fst fit_serie_excluded)) p))
         (seq 1 (length (ranking_of 6 (fst fit_serie_excluded)) - 1)).
Proof.
  replace (seq 1 (length (ranking_of 6 (fst fit_serie_excluded)) - 1))
    with [1%nat; 2%nat] by (vm_compute; reflexivity).
  constructor; [|constructor; [|constructor]].
  - eexists. split; [vm_compute; reflexivity|]. right. right. vm_compute. tauto.
  - eexists. split; [vm_compute; reflexivity|]. right. right. vm_compute. tauto.
Qed.

(** With both 1971 and 1972 excluded every candidate is rejected. *)
Lemma fit_exhausted_serie :
  snd fit_serie_excluded = inl TypeError /\
  classify TypeError = None /\
  exists l, anos_rejeitados_ (self (fst fit_serie_excluded)) = Some l /\
            length l = (length (ranking_of 6 (fst fit_serie_excluded)) - 1)%nat.
Proof.
  apply (fit_exhausted_raises_type_error pearson_rolling 0%nat [serie] 6 [1971; 1972] 5 5
           (fst fit_serie_excluded) (snd fit_serie_excluded) amp_serie).
  - vm_compute. reflexivity.
  - vm_compute. reflexivity.
  - exact serie_all_rejected.
Defined.

(** C3, as stated, fails on the worked series: every candidate is rejected
    by the excluded-year check, and the failure of [fit] is not the error
    [NoAcceptableAnalog]. *)
Lemma fit_exhausted_not_no_acceptable_analog :
  Forall (fun p => rejected_by_checks (nth 0 [serie] empty_frame) amp_serie [1971; 1972] 5 5
                     (start_of (ranking_of 6 (fst fit_serie_excluded)) p))
         (seq 1 (length (ranking_of 6 (fst fit_serie_excluded)) - 1)) /\
  amplitudes_ (self (fst fit_serie_excluded)) = Some amp_serie /\
  snd fit_serie_excluded = inl TypeError /\
  ~ fails_with (snd fit_serie_excluded) NoAcceptableAnalog.
Proof.
  split; [exact serie_all_rejected|].
  split; [vm_compute; reflexivity|].
  split; [vm_compute; reflexivity|].
  intros [e [He Hk]].
  assert (Hres : snd fit_serie_excluded = inl TypeError)
    by (vm_compute; reflexivity).
  rewrite Hres in He. injection He as <-. clear Hres. discriminate Hk.
Qed.

(** A station with a NaN bound, and one with a NaN ratio. *)
Lemma nan_station_never_counted_example :
  nth 1 (series_gt [3; 9; 3]%float [2; nan; 2]%float) true = false /\
  nth 1 (series_lt [3; 9; 3]%float [1; nan; 1]%float) true = false /\
  above_count [3; 9; 3]%float (mkAmplitudes [1; nan; 1]%float [2; nan; 2]%float None)
  = above_count [3; 3]%float (mkAmplitudes [1; 1]%float [2; 2]%float None) /\
  below_count [3; 9; 3]%float (mkAmplitudes [1; nan; 1]%float [2; nan; 2]%float None)
  = below_count [3; 3]%float (mkAmplitudes [1; 1]%float [2; 2]%float None).
Proof.
  apply (nan_station_never_counted [3]%float [3]%float [1]%float [1]%float
           [2]%float [2]%float 9%float nan nan).
  - reflexivity.
  - reflexivity.
  - right. split; reflexivity.
Defined.

(** The ranking of the fitted model of the worked series. *)
Lemma ranking_sorted_descending_serie :
  exists c col head,
    df_correlacao (self fitted_serie) = Some c /\
    getitem 6 (nth c (heap fitted_serie) empty_frame) = inr col /\
    ranking_of 6 fitted_serie = head ++ filter nan_entry col /\
    Permutation head (filter not_nan_entry col) /\
    StronglySorted value_ge head /\
    (forall top rest e,
        ranking_of 6 fitted_serie = top :: rest -> In e col -> is_nan (snd e) = false ->
        PrimFloat.leb (snd e) (snd top) = true) /\
    (forall e,
        In e col -> is_nan (snd e) = false ->
        (forall e', In e' col -> fst e' <> fst e ->
                    PrimFloat.ltb (snd e') (snd e) = true) ->
        exists top rest, ranking_of 6 fitted_serie = top :: rest /\ fst top = fst e) /\
    (snd (fit_serie [] 5 5) = inr tt ->
     exists p e,
       posicao_ (self fitted_serie) = Some p /\ (1 <= p)%nat /\
       nth_error (ranking_of 6 fitted_serie) p = Some e /\
       period_escolhido_ini_ (self fitted_serie) = Some (fst e + 1) /\
       correlacao_ (self fitted_serie) = Some (snd e)).
Proof.
  apply (ranking_sorted_descending pearson_rolling 0%nat [serie] 6 [] 5 5
           fitted_serie (snd (fit_serie [] 5 5))).
  - vm_compute. reflexivity.
  - vm_compute. intros H. discriminate H.
Defined.

(** C5, as stated, fails on the series that never varies: its reference
    window ends in 1972-12, yet rank 0 of the ranking is the window ending
    in 1970-12, and its correlation is NaN, not 1.0. *)
Lemma ranking_rank0_not_reference_window :
  length (rows serie_constante) = 36%nat /\
  snd fit_constante = inr tt /\
  lastE (index serie_constante) = inr 35 /\
  hd_error (ranking_of 6 (fst fit_constante)) = Some (11, nan) /\
  hd_error (ranking_of 6 (fst fit_constante)) <> Some (35, 1%float).
Proof.
  split; [reflexivity|].
  split; [vm_compute; reflexivity|].
  split; [reflexivity|].
  assert (H : hd_error (ranking_of 6 (fst fit_constante)) = Some (11, nan))
    by (vm_compute; reflexivity).
  split; [exact H|]. rewrite H. intros E.
  apply (f_equal (fun o => match o with Some (p, _) => p | None => 0 end)) in E.
  discriminate E.
Qed.

(** Three months asked from the fitted model of the worked series. *)
Lemma predict_copies_base_rows_serie :
  exists s2 out last_period row rest,
    predict (Some 3) fitted_serie = (s2, inr out) /\
    lastE (index (nth 0 [serie] empty_frame)) = inr last_period /\
    rows_from 24 (nth 0 [serie] empty_frame) = (24, row) :: rest /\
    values (nth out (heap s2) empty_frame)
    = map snd (firstn (Z.to_nat 3) (rows_from 24 (nth 0 [serie] empty_frame))) /\
    index (nth out (heap s2) empty_frame)
    = period_range (last_period + 1) (Z.to_nat 3) /\
    columns (nth out (heap s2) empty_frame) = columns (nth 0 [serie] empty_frame) /\
    length (rows (nth out (heap s2) empty_frame)) = Z.to_nat 3.
Proof.
  apply (predict_copies_base_rows pearson_rolling 0%nat [serie] 6 [] 5 5 fitted_serie 24 3).
  - vm_compute. reflexivity.
  - vm_compute. reflexivity.
  - vm_compute. split; discriminate.
Defined.

(** C6, at a horizon of zero months on the fitted model of the worked
    series.  No row is asked for, and [predict(0)] returns the twelve
    months of 1972, exactly what [predict()] returns: the test
    [num_meses if num_meses else ...] takes the given horizon 0 for one
    that was not given, where the docstring keeps the months to the end of
    the year for the horizon that is not given. *)
Lemma predict_zero_months_returns_rows :
  snd (fit_serie [] 5 5) = inr tt /\
  period_escolhido_ini_ (self fitted_serie) = Some 24 /\
  0 <= Z.of_nat (length (rows_from 24 serie)) /\
  snd (predict (Some 0) fitted_serie) = inr 5%nat /\
  length (rows (nth 5 (heap (fst (predict (Some 0) fitted_serie))) empty_frame)) = 12%nat /\
  predict (Some 0) fitted_serie = predict None fitted_serie.
Proof.
  split; [vm_compute; reflexivity|].
  split; [vm_compute; reflexivity|].
  split; [vm_compute; discriminate|].
  split; [vm_compute; reflexivity|].
  split; vm_compute; reflexivity.
Qed.

(** Twenty months asked where twelve remain. *)
Lemma predict_beyond_history_truncates_serie :
  exists s2 out last_period,
    predict (Some 20) fitted_serie = (s2, inr out) /\
    lastE (index (nth 0 [serie] empty_frame)) = inr last_period /\
    values (nth out (heap s2) empty_frame)
    = map snd (rows_from 24 (nth 0 [serie] empty_frame)) /\
    index (nth out (heap s2) empty_frame)
    = period_range (last_period + 1)
                   (length (rows_from 24 (nth 0 [serie] empty_frame))) /\
    Z.of_nat (length (rows (nth out (heap s2) empty_frame))) < 20.
Proof.
  apply (predict_beyond_history_truncates pearson_rolling 0%nat [serie] 6 [] 5 5 fitted_serie 24 20).
  - vm_compute. reflexivity.
  - vm_compute. reflexivity.
  - vm_compute. reflexivity.
Defined.

(** C7, as stated, fails on the worked series: twenty months are asked
    for, twelve rows remain from the forecast start, and [predict] returns
    a frame of twelve rows instead of failing. *)
Lemma predict_beyond_history_does_not_fail :
  snd (fit_serie [] 5 5) = inr tt /\
  Z.of_nat (length (rows_from 24 serie)) < 20 /\
  snd (predict (Some 20) fitted_serie) = inr 5%nat /\
  length (rows (nth 5 (heap (fst (predict (Some 20) fitted_serie))) empty_frame)) = 12%nat /\
  ~ fails_with (snd (predict (Some 20) fitted_serie)) HorizonExceedsHistory.
Proof.
  split; [vm_compute; reflexivity|].
  split; [vm_compute; reflexivity|].
  assert (H : snd (predict (Some 20) fitted_serie) = inr 5%nat) by (vm_compute; reflexivity).
  split; [exact H|].
  split; [vm_compute; reflexivity|].
  intros [e [He _]]. rewrite H in He. discriminate He.
Qed.

Lemma rectangular_check (d : DataFrame) :
  forallb (fun r => Nat.eqb (length (snd r)) (length (columns d))) (rows d) = true ->
  rectangular d.
Proof.
  intros H. unfold rectangular. apply Forall_forall. intros row Hin.
  rewrite forallb_forall in H. apply Nat.eqb_eq. apply H, Hin.
Qed.

Lemma serie_rectangular : rectangular (nth 0 [serie] empty_frame).
Proof. apply rectangular_check. vm_compute. reflexivity. Qed.

(** Station 6 of the worked series: two ratios retained, 2 and 1. *)
Lemma amplitudes_are_extremes_serie :
  (retained_ratios (nth 0 [serie] empty_frame) 0 <> [] ->
   is_minimum (nth 0 (amp_min (amplitudes_of fitted_serie)) nan)
              (retained_ratios (nth 0 [serie] empty_frame) 0) /\
   is_maximum (nth 0 (amp_max (amplitudes_of fitted_serie)) nan)
              (retained_ratios (nth 0 [serie] empty_frame) 0)) /\
  (retained_ratios (nth 0 [serie] empty_frame) 0 = [] ->
   nth 0 (amp_min (amplitudes_of fitted_serie)) nan = nan /\
   nth 0 (amp_max (amplitudes_of fitted_serie)) nan = nan).
Proof.
  apply (amplitudes_are_extremes_of_retained_ratios pearson_rolling 0%nat [serie] 6 [] 5 5
           fitted_serie (inr tt)).
  - vm_compute. reflexivity.
  - vm_compute. reflexivity.
  - exact serie_rectangular.
  - vm_compute. lia.
Defined.

(** C8, as stated, fails on the worked series: station 169 retains no
    ratio, and [fit] returns normally, with NaN for the two bounds of the
    station. *)
Lemma fit_returns_despite_station_without_ratios :
  retained_ratios serie 2 = [] /\
  snd (fit_serie [] 5 5) = inr tt /\
  nth 2 (amp_min (amplitudes_of fitted_serie)) 0%float = nan /\
  nth 2 (amp_max (amplitudes_of fitted_serie)) 0%float = nan /\
  ~ fails_with (snd (fit_serie [] 5 5)) InsufficientHistory.
Proof.
  split; [vm_compute; reflexivity|].
  assert (H : snd (fit_serie [] 5 5) = inr tt) by (vm_compute; reflexivity).
  split; [exact H|].
  split; [vm_compute; reflexivity|].
  split; [vm_compute; reflexivity|].
  intros [e [He _]]. rewrite H in He. discriminate He.
Qed.

(* ================================================================== *)
(** * Further properties of the code *)

(** ** [calc_corr_last12] *)

Lemma month_range (p : Period) : 1 <= month p <= 12.
Proof. unfold month. pose proof (Z.mod_pos_bound p 12). lia. Qed.

Lemma month_in_range_1_13 (p : Period) : In (month p) range_1_13.
Proof.
  pose proof (month_range p) as H. unfold range_1_13.
  assert (month p = 1 \/ month p = 2 \/ month p = 3 \/ month p = 4 \/ month p = 5 \/
          month p = 6 \/ month p = 7 \/ month p = 8 \/ month p = 9 \/ month p = 10 \/
          month p = 11 \/ month p = 12) as Hc by lia.
  cbn [In]. intuition.
Qed.

Lemma update_nth_twice {A : Type} (f g : A -> A) (n : nat) (l : list A) :
  update_nth n f (update_nth n g l) = update_nth n (fun x => f (g x)) l.
Proof.
  revert n. induction l as [|x l IH]; intros [|n]; cbn [update_nth]; try reflexivity.
  rewrite IH. reflexivity.
Qed.

Lemma update_nth_ext {A : Type} (f g : A -> A) (n : nat) (l : list A) :
  (forall x, f x = g x) -> update_nth n f l = update_nth n g l.
Proof.
  intros H. revert n. induction l as [|x l IH]; intros [|n]; cbn [update_nth];
    try reflexivity; [rewrite H | rewrite IH]; reflexivity.
Qed.

Lemma iloc0_select_month (tr : list (Period * Row)) (m : Z) :
  existsb (fun r => month (fst r) =? m) tr = true ->
  iloc0 (select_month m tr) = inr (reference_row tr m).
Proof.
  intros H. unfold reference_row, iloc0.
  destruct (select_month m tr) as [|x rest] eqn:E; [|reflexivity].
  exfalso. apply existsb_exists in H. destruct H as [x [Hx Hm]].
  assert (In x (select_month m tr)) as Hin by (apply filter_In; split; assumption).
  rewrite E in Hin. exact Hin.
Qed.

Lemma iloc0_select_month_missing (tr : list (Period * Row)) (m : Z) :
  existsb (fun r => month (fst r) =? m) tr = false ->
  iloc0 (select_month m tr) = inl IndexError.
Proof.
  intros H. unfold iloc0.
  destruct (select_month m tr) as [|x rest] eqn:E; [reflexivity|].
  exfalso.
  assert (In x (select_month m tr)) as Hin by (rewrite E; left; reflexivity).
  apply filter_In in Hin. destruct Hin as [Hin Hm].
  assert (existsb (fun r => month (fst r) =? m) tr = true) as Ht
    by (apply existsb_exists; exists x; split; assumption).
  congruence.
Qed.


Lemma spread_rows_step (tr : list (Period * Row)) (m : Z) (ms : list Z) (d : DataFrame) :
  spread_rows tr ms (setitem_month m (reference_row tr m) d) = spread_rows tr (m :: ms) d.
Proof.
  unfold spread_rows, setitem_month, with_rows. cbn [rows freq_month_end index_name columns].
  f_equal. rewrite map_map. apply map_ext. intros r. cbn [existsb]. cbv beta.
  destruct (month (fst r) =? m) eqn:E.
  - apply Z.eqb_eq in E. cbn [fst orb]. rewrite E.
    destruct (existsb (Z.eqb m) ms); reflexivity.
  - cbn [orb]. reflexivity.
Qed.

Lemma update_nth_id {A : Type} (f : A -> A) (n : nat) (l : list A) :
  (forall x, f x = x) -> update_nth n f l = l.
Proof.
  intros H. revert n. induction l as [|x l IH]; intros [|n]; cbn [update_nth];
    try reflexivity; [rewrite H | rewrite IH]; reflexivity.
Qed.

Lemma spread_rows_nil (tr : list (Period * Row)) (d : DataFrame) : spread_rows tr [] d = d.
Proof.
  unfold spread_rows, with_rows. cbn [existsb]. rewrite map_id. destruct d; reflexivity.
Qed.

Section ExtraCalc.

Variable corr : nat -> list float -> list float -> float.

Local Transparent spread.

Lemma spread_run (o : ref) (tr : list (Period * Row)) (months : list Z) :
  forall s,
    forallb (fun m => existsb (fun r => month (fst r) =? m) tr) months = true ->
    spread o tr months s
    = (mkSt (update_nth o (spread_rows tr months) (heap s)) (self s), inr tt).
Proof.
  induction months as [|m ms IH]; intros s H.
  - cbn [spread ret]. rewrite update_nth_id by (apply spread_rows_nil).
    destruct s; reflexivity.
  - cbn [forallb] in H. apply andb_prop in H. destruct H as [Hm Hms].
    cbn [spread]. unfold bind at 1. rewrite (iloc0_select_month tr m Hm).
    cbn [lift ret]. unfold bind at 1. cbn [mutate].
    rewrite (IH _ Hms). cbn [heap self]. rewrite update_nth_twice.
    f_equal. f_equal. apply update_nth_ext. intros d. apply spread_rows_step.
Qed.

Lemma spread_missing (o : ref) (tr : list (Period * Row)) (months : list Z) :
  forall s,
    forallb (fun m => existsb (fun r => month (fst r) =? m) tr) months = false ->
    snd (spread o tr months s) = inl IndexError.
Proof.
  induction months as [|m ms IH]; intros s H; [discriminate|].
  cbn [forallb] in H. cbn [spread]. unfold bind at 1.
  destruct (existsb (fun r => month (fst r) =? m) tr) eqn:Hm.
  - rewrite (iloc0_select_month tr m Hm). cbn [lift ret]. unfold bind at 1. cbn [mutate].
    apply IH. exact H.
  - rewrite (iloc0_select_month_missing tr m Hm). reflexivity.
Qed.

Local Opaque spread.

Lemma spread_rows_all (tr : list (Period * Row)) (d : DataFrame) :
  spread_rows tr range_1_13 d = broadcast tr d.
Proof.
  unfold spread_rows, broadcast. f_equal. apply map_ext. intros r.
  assert (H : existsb (Z.eqb (month (fst r))) range_1_13 = true).
  { apply existsb_exists. exists (month (fst r)). split;
      [apply month_in_range_1_13 | apply Z.eqb_refl]. }
  rewrite H. reflexivity.
Qed.

Lemma lastE_app_one {A : Type} (l : list A) (x : A) : lastE (l ++ [x]) = inr x.
Proof. unfold lastE. rewrite rev_app_distr. reflexivity. Qed.

Lemma lastE_skipn {A : Type} (k : nat) (l : list A) :
  (k < length l)%nat -> lastE (skipn k l) = lastE l.
Proof.
  intros Hk. destruct (exists_last (l := l)) as [l' [x Hl]].
  { intros ->. cbn in Hk. lia. }
  subst l. rewrite length_app in Hk. cbn [length] in Hk.
  rewrite skipn_app. replace (k - length l')%nat with 0%nat by lia. cbn [skipn].
  rewrite !lastE_app_one. reflexivity.
Qed.

Lemma lastE_map {A B : Type} (f : A -> B) (l : list A) (x : A) :
  lastE l = inr x -> lastE (map f l) = inr (f x).
Proof.
  unfold lastE. rewrite <- map_rev. destruct (rev l); [discriminate|].
  intros H. injection H as ->. reflexivity.
Qed.

Lemma lastE_nonempty {A : Type} (l : list A) : l <> [] -> exists x, lastE l = inr x.
Proof.
  intros H. destruct (exists_last H) as [l' [x ->]]. exists x. apply lastE_app_one.
Qed.

Lemma months_covered_nonempty (tr : list (Period * Row)) :
  months_covered tr = true -> tr <> [].
Proof. intros H ->. discriminate H. Qed.

(** The month of the last row of the last twelve rows is that of the last
    row of the series. *)
Lemma iloc_tail_last_month (rs : list (Period * Row)) :
  iloc_tail 12 rs <> [] ->
  exists last_period,
    lastE (map fst rs) = inr last_period /\
    lastE (map (fun r => month (fst r)) (iloc_tail 12 rs)) = inr (month last_period).
Proof.
  Local Transparent iloc_tail lastE.
  intros H.
  assert (Hrs : rs <> []) by (intros ->; apply H; reflexivity).
  destruct (lastE_nonempty rs Hrs) as [x Hx].
  exists (fst x). split; [apply lastE_map; exact Hx|].
  apply (lastE_map (fun r => month (fst r))). unfold iloc_tail.
  rewrite lastE_skipn; [exact Hx|].
  destruct rs; [contradiction|]. cbn [length]. lia.
  Local Opaque iloc_tail lastE.
Qed.


Lemma nth_after_own_copy {A : Type} (l : list A) (r : nat) (d : A) :
  nth r (l ++ [nth r l d]) d = nth r l d.
Proof.
  destruct (Nat.lt_ge_cases r (length l)) as [H|H].
  - apply app_nth1. exact H.
  - rewrite app_nth2 by exact H. rewrite (nth_overflow l d H).
    destruct (r - length l)%nat as [|[|k]]; reflexivity.
Qed.

Lemma calc_corr_last12_run (r : ref) (s : St) :
  freq_month_end (nth r (heap s) empty_frame) = true ->
  months_covered (iloc_tail 12 (rows (nth r (heap s) empty_frame))) = true ->
  exists last_period,
    lastE (index (nth r (heap s) empty_frame)) = inr last_period /\
    calc_corr_last12 corr r s
    = (mkSt (heap s ++ [nth r (heap s) empty_frame;
                        broadcast (iloc_tail 12 (rows (nth r (heap s) empty_frame)))
                                  (nth r (heap s) empty_frame);
                        correlation_table corr (nth r (heap s) empty_frame) last_period])
            (self s),
       inr (length (heap s) + 2)%nat).
Proof.
  intros Hf Hm.
  destruct (iloc_tail_last_month _ (months_covered_nonempty _ Hm)) as [lastp [Hl Hlm]].
  exists lastp. split; [exact Hl|].
  unfold calc_corr_last12. unfold bind at 1. cbn [deref].
  rewrite (freq_month_end_true _ Hf). cbn [negb].
  unfold copy. unfold bind at 1. unfold bind at 1. cbn [deref alloc heap self].
  unfold bind at 1. cbn [deref heap]. rewrite nth_middle.
  unfold bind at 1. unfold bind at 1. cbn [deref alloc heap self].
  rewrite nth_middle. rewrite length_app. cbn [length].
  unfold bind at 1. rewrite spread_run by exact Hm. cbn [heap self].
  rewrite <- app_assoc. cbn [app].
  rewrite update_nth_app_r by lia.
  replace (length (heap s) + 1 - length (heap s))%nat with 1%nat by lia.
  cbn [update_nth]. rewrite spread_rows_all.
  unfold bind at 1. cbn [deref heap]. rewrite nth_middle.
  unfold bind at 1. cbn [deref heap].
  replace (nth (length (heap s) + 1) _ empty_frame)
    with (broadcast (iloc_tail 12 (rows (nth r (heap s) empty_frame)))
                    (nth r (heap s) empty_frame))
    by (rewrite app_nth2 by lia;
        replace (length (heap s) + 1 - length (heap s))%nat with 1%nat by lia;
        reflexivity).
  unfold bind at 1. rewrite Hlm. cbn [lift ret].
  unfold bind at 1. cbn [alloc heap self]. unfold bind at 1. cbn [mutate heap self ret].
  rewrite update_nth_app_r by lia. rewrite Nat.sub_diag. cbn [update_nth].
  unfold ret. rewrite <- app_assoc. cbn [app]. rewrite length_app. cbn [length].
  unfold correlation_table. reflexivity.
Qed.

Lemma calc_refuses (r : ref) (s : St) :
  freq_month_end (nth r (heap s) empty_frame) = false ->
  calc_corr_last12 corr r s = (s, inl (refusal (nth r (heap s) empty_frame))).
Proof.
  intros H0. unfold calc_corr_last12, refusal. unfold bind at 1. cbn [deref].
  destruct (freq_month_end_false _ H0) as [E|E]; rewrite E; reflexivity.
Qed.

(** X1.  A frame whose index is not one of monthly periods is refused
    before anything is computed, with the exception [refusal] names: the
    one with the message of line 31 where the index has a [freq] that is
    not [MonthEnd], [AttributeError] where it has no [freq] to read.
    [calc_corr_last12] leaves the store as it was, and the [fit] of either
    class raises the same exception having assigned [df_base], its copy of
    the frame, and nothing else. *)
Theorem not_monthly_index_is_refused (r : ref) (s : St) (t : SimpleCorrelation12.Obj) :
  freq_month_end (nth r (heap s) empty_frame) = false ->
  calc_corr_last12 corr r s = (s, inl (refusal (nth r (heap s) empty_frame))) /\
  fit corr r s
  = (mkSt (heap s ++ [nth r (heap s) empty_frame])
          (set_df_base (length (heap s)) (self s)),
     inl (refusal (nth r (heap s) empty_frame))) /\
  SimpleCorrelation12.fit corr r (SimpleCorrelation12.mkSt (heap s) t)
  = (SimpleCorrelation12.mkSt (heap s ++ [nth r (heap s) empty_frame])
       (SimpleCorrelation12.set_df_base (length (heap s)) t),
     inl (refusal (nth r (heap s) empty_frame))).
Proof.
  intros Hf.
  split; [apply calc_refuses, Hf|].
  assert (Hcopy : forall m0,
            calc_corr_last12 corr r (mkSt (heap s ++ [nth r (heap s) empty_frame]) m0)
            = (mkSt (heap s ++ [nth r (heap s) empty_frame]) m0,
               inl (refusal (nth r (heap s) empty_frame)))).
  { intros m0.
    rewrite (calc_refuses r (mkSt (heap s ++ [nth r (heap s) empty_frame]) m0));
      cbn [heap]; rewrite nth_after_own_copy; [reflexivity | exact Hf]. }
  split.
  - destruct s as [h m]. rewrite fit_unfold. cbv zeta. cbn [heap self] in *.
    rewrite Hcopy. reflexivity.
  - unfold SimpleCorrelation12.fit, calc_corr_last12_store.
    cbn [SimpleCorrelation12.heap SimpleCorrelation12.self].
    rewrite Hcopy. reflexivity.
Qed.

Lemma missing_month_index_error (r : ref) (s : St) :
  freq_month_end (nth r (heap s) empty_frame) = true ->
  months_covered (iloc_tail 12 (rows (nth r (heap s) empty_frame))) = false ->
  snd (calc_corr_last12 corr r s) = inl IndexError /\
  snd (fit corr r s) = inl IndexError.
Proof.
  intros Hf Hm.
  assert (Hcalc : forall s0, nth r (heap s0) empty_frame = nth r (heap s) empty_frame ->
            snd (calc_corr_last12 corr r s0) = inl IndexError).
  { intros s0 H0. unfold calc_corr_last12. unfold bind at 1. cbn [deref].
    rewrite H0, (freq_month_end_true _ Hf). cbn [negb]. unfold copy. unfold bind at 1. unfold bind at 1. cbn [deref alloc heap self].
    unfold bind at 1. cbn [deref heap]. rewrite nth_middle.
    unfold bind at 1. unfold bind at 1. cbn [deref alloc heap self]. rewrite nth_middle.
    unfold bind at 1. rewrite H0.
    match goal with |- context [spread ?o ?tr ?ms ?st] =>
      pose proof (spread_missing o tr ms st Hm) as Hsp;
      destruct (spread o tr ms st) as [s1 res1] end.
    cbn [snd] in Hsp. rewrite Hsp. reflexivity. }
  split; [apply Hcalc; reflexivity|].
  destruct s as [h m]. rewrite fit_unfold. cbv zeta. cbn [heap self] in *.
  match goal with |- context [calc_corr_last12 corr r ?st] =>
    pose proof (Hcalc st) as Hc; destruct (calc_corr_last12 corr r st) as [s1 res1] end.
  cbn [snd heap] in Hc. rewrite Hc by apply nth_after_own_copy. reflexivity.
Qed.

(** X2.  A monthly frame whose last twelve rows miss a calendar month:
    [calc_corr_last12] raises [IndexError] (the [iloc[0]] of an empty
    selection), and so does [fit]. *)
Theorem missing_month_raises_index_error (r : ref) (s : St) :
  freq_month_end (nth r (heap s) empty_frame) = true ->
  months_covered (iloc_tail 12 (rows (nth r (heap s) empty_frame))) = false ->
  snd (calc_corr_last12 corr r s) = inl IndexError /\
  snd (fit corr r s) = inl IndexError.
Proof.
  intros Hfreq Hmiss.
  destruct (missing_month_index_error r s Hfreq Hmiss) as [Hcalc Hfit].
  split; [exact Hcalc | exact Hfit].
Qed.

Lemma NoDup_range_1_13 : NoDup range_1_13.
Proof.
  Local Transparent range_1_13.
  unfold range_1_13.
  repeat (constructor; [cbn [In]; intros H; repeat (destruct H as [H|H]; [discriminate H|]); exact H|]).
  constructor.
  Local Opaque range_1_13.
Qed.

Lemma months_covered_length (tr : list (Period * Row)) :
  months_covered tr = true -> (12 <= length tr)%nat.
Proof.
  intros H. unfold months_covered in H. rewrite forallb_forall in H.
  assert (Hincl : incl range_1_13 (map (fun r => month (fst r)) tr)).
  { intros m Hm. specialize (H m Hm). apply existsb_exists in H.
    destruct H as [x [Hx Hmx]]. apply Z.eqb_eq in Hmx. apply in_map_iff. eauto. }
  pose proof (NoDup_incl_length NoDup_range_1_13 Hincl) as Hlen.
  rewrite length_map in Hlen. exact Hlen.
Qed.

(** X3.  A monthly frame of fewer than twelve rows, the empty frame
    included: [calc_corr_last12] and [fit] raise [IndexError]. *)
Theorem short_series_raises_index_error (r : ref) (s : St) :
  freq_month_end (nth r (heap s) empty_frame) = true ->
  (length (rows (nth r (heap s) empty_frame)) < 12)%nat ->
  snd (calc_corr_last12 corr r s) = inl IndexError /\
  snd (fit corr r s) = inl IndexError.
Proof.
  intros Hf Hlen. apply missing_month_index_error; [exact Hf|].
  destruct (months_covered (iloc_tail 12 (rows (nth r (heap s) empty_frame)))) eqn:E;
    [|reflexivity].
  apply months_covered_length in E.
  Local Transparent iloc_tail.
  unfold iloc_tail in E. rewrite length_skipn in E. lia.
  Local Opaque iloc_tail.
Qed.

Lemma map_const_seq {A : Type} (x : A) (a n : nat) : map (fun _ => x) (seq a n) = repeat x n.
Proof.
  revert a. induction n as [|n IH]; intros a; [reflexivity|].
  cbn [seq map repeat]. rewrite IH. reflexivity.
Qed.

Lemma rolling_corr_index (x y : DataFrame) :
  map fst (rolling_corr corr x y) = index x.
Proof.
  Local Transparent rolling_corr.
  unfold rolling_corr. rewrite map_map. cbn [fst].
  replace (length (rows x)) with (length (index x))
    by (unfold index; apply length_map).
  apply list_as_map_nth.
  Local Opaque rolling_corr.
Qed.

Lemma rolling_corr_row (x y : DataFrame) (i : nat) :
  (i < length (rows x))%nat ->
  nth i (rolling_corr corr x y) (0, [])
  = (nth i (index x) 0,
     map (fun j =>
            if (i <? 11)%nat then nan
            else corr i (column j (values x)) (column j (values y)))
         (seq 0 (length (columns x)))).
Proof.
  Local Transparent rolling_corr.
  intros Hi. unfold rolling_corr.
  exact (nth_map_seq _ (length (rows x)) i _ Hi).
  Local Opaque rolling_corr.
Qed.

Lemma rolling_corr_length (x y : DataFrame) :
  length (rolling_corr corr x y) = length (rows x).
Proof.
  Local Transparent rolling_corr.
  unfold rolling_corr. rewrite length_map, length_seq. reflexivity.
  Local Opaque rolling_corr.
Qed.

Lemma select_month_index (m : Z) (rs : list (Period * Row)) :
  map fst (select_month m rs) = filter (fun p => month p =? m) (map fst rs).
Proof.
  Local Transparent select_month.
  unfold select_month. induction rs as [|x rs IH]; [reflexivity|].
  cbn [filter map]. destruct (month (fst x) =? m); cbn [map]; rewrite IH; reflexivity.
  Local Opaque select_month.
Qed.

(** X4.  On a monthly frame whose last twelve rows cover the twelve
    calendar months, [calc_corr_last12] returns a new table: its index is
    made of the months of the series that fall on the calendar month of
    the last row, in order, and is named [mes_final]; its columns are
    those of the series, one cell per column in every row; and a row whose
    window has fewer than twelve months is NaN throughout. *)
Theorem correlation_table_shape (r : ref) (s : St) :
  freq_month_end (nth r (heap s) empty_frame) = true ->
  months_covered (iloc_tail 12 (rows (nth r (heap s) empty_frame))) = true ->
  exists last_period c,
    lastE (index (nth r (heap s) empty_frame)) = inr last_period /\
    snd (calc_corr_last12 corr r s) = inr c /\
    (length (heap s) <= c)%nat /\
    index (nth c (heap (fst (calc_corr_last12 corr r s))) empty_frame)
    = filter (fun p => month p =? month last_period)
             (index (nth r (heap s) empty_frame)) /\
    index_name (nth c (heap (fst (calc_corr_last12 corr r s))) empty_frame)
    = Some "mes_final"%string /\
    columns (nth c (heap (fst (calc_corr_last12 corr r s))) empty_frame)
    = columns (nth r (heap s) empty_frame) /\
    (forall row,
        In row (rows (nth c (heap (fst (calc_corr_last12 corr r s))) empty_frame)) ->
        length (snd row) = length (columns (nth r (heap s) empty_frame))) /\
    (forall i,
        (i < 11)%nat -> (i < length (rows (nth r (heap s) empty_frame)))%nat ->
        month (nth i (index (nth r (heap s) empty_frame)) 0) = month last_period ->
        In (nth i (index (nth r (heap s) empty_frame)) 0,
            repeat nan (length (columns (nth r (heap s) empty_frame))))
           (rows (nth c (heap (fst (calc_corr_last12 corr r s))) empty_frame))).
Proof.
  intros Hf Hm. destruct (calc_corr_last12_run r s Hf Hm) as [lastp [Hl Hrun]].
  exists lastp, (length (heap s) + 2)%nat. rewrite Hrun. cbn [fst snd heap].
  set (df := nth r (heap s) empty_frame) in *.
  replace (nth (length (heap s) + 2) _ empty_frame) with (correlation_table corr df lastp)
    by (rewrite app_nth2 by lia;
        replace (length (heap s) + 2 - length (heap s))%nat with 2%nat by lia;
        reflexivity).
  split; [exact Hl|]. split; [reflexivity|]. split; [lia|].
  unfold correlation_table, with_index_name, with_rows, index.
  cbn [rows columns index_name].
  split; [rewrite select_month_index, rolling_corr_index; reflexivity|].
  split; [reflexivity|]. split; [reflexivity|]. split.
  - intros row Hin.
    Local Transparent select_month.
    unfold select_month in Hin. apply filter_In in Hin. destruct Hin as [Hin _].
    apply (In_nth _ _ (0, [])) in Hin. destruct Hin as [i [Hi Hrow]].
    rewrite rolling_corr_length in Hi. rewrite rolling_corr_row in Hrow by exact Hi.
    subst row. cbn [snd]. rewrite length_map, length_seq. reflexivity.
  - intros i Hi11 Hi Hmonth.
    unfold select_month. apply filter_In. split.
    + assert (Hrow : nth i (rolling_corr corr df (broadcast (iloc_tail 12 (rows df)) df)) (0, [])
                     = (nth i (map fst (rows df)) 0, repeat nan (length (columns df)))).
      { rewrite rolling_corr_row by exact Hi.
        apply Nat.ltb_lt in Hi11. rewrite Hi11. rewrite map_const_seq. reflexivity. }
      rewrite <- Hrow. apply nth_In. rewrite rolling_corr_length. exact Hi.
    + cbn [fst]. apply Z.eqb_eq. exact Hmonth.
    Local Opaque select_month.
Qed.

End ExtraCalc.

(** ** What the table compares *)

Lemma month_shift_ne (q d : Z) : 0 < d < 12 -> month q <> month (q + d).
Proof.
  unfold month. intros Hd H.
  pose proof (Z.div_mod q 12 ltac:(lia)).
  pose proof (Z.div_mod (q + d) 12 ltac:(lia)).
  pose proof (Z.mod_pos_bound q 12 ltac:(lia)).
  pose proof (Z.mod_pos_bound (q + d) 12 ltac:(lia)).
  lia.
Qed.

Lemma month_shift_eq (a b c : Z) : month a = month b -> month (a + c) = month (b + c).
Proof.
  unfold month. intros H.
  assert (Hm : a mod 12 = b mod 12) by lia.
  rewrite <- (Zplus_mod_idemp_l a c), <- (Zplus_mod_idemp_l b c), Hm. reflexivity.
Qed.

(** In a block of at most twelve consecutive months every month labels one
    row, which is the row of reference for it. *)
Lemma reference_row_consecutive (tr : list (Period * Row)) :
  forall (q : Z) (t : nat),
    (forall t', (t' < length tr)%nat -> fst (nth t' tr (0, [])) = q + Z.of_nat t') ->
    (length tr <= 12)%nat -> (t < length tr)%nat ->
    reference_row tr (month (q + Z.of_nat t)) = snd (nth t tr (0, [])).
Proof.
  Local Transparent select_month.
  induction tr as [|x tr IH]; intros q t Hidx Hlen Ht; [cbn in Ht; lia|].
  assert (Hx : fst x = q).
  { specialize (Hidx 0%nat ltac:(cbn; lia)). cbn in Hidx. lia. }
  destruct t as [|t].
  - unfold reference_row, select_month. cbn [filter nth].
    rewrite Hx. replace (q + Z.of_nat 0) with q by lia. rewrite Z.eqb_refl. reflexivity.
  - unfold reference_row, select_month. cbn [filter nth]. rewrite Hx.
    destruct (month q =? month (q + Z.of_nat (S t))) eqn:E.
    + apply Z.eqb_eq in E. exfalso. cbn [length] in *.
      apply (month_shift_ne q (Z.of_nat (S t))); [lia | exact E].
    + replace (q + Z.of_nat (S t)) with ((q + 1) + Z.of_nat t) by lia.
      apply (IH (q + 1) t).
      * intros t' Ht'. specialize (Hidx (S t') ltac:(cbn; lia)). cbn [nth] in Hidx. lia.
      * cbn [length] in Hlen. lia.
      * cbn [length] in Ht. lia.
  Local Opaque select_month.
Qed.

Lemma nth_period_range (start : Period) (n k : nat) :
  (k < n)%nat -> nth k (period_range start n) 0 = start + Z.of_nat k.
Proof.
  intros Hk. unfold period_range.
  exact (nth_map_seq (fun k => start + Z.of_nat k) n k 0 Hk).
Qed.

Lemma window_length (i : nat) (l : list float) :
  (11 <= i < length l)%nat -> length (window i l) = 12%nat.
Proof.
  intros Hi. unfold window. rewrite length_firstn, length_skipn. lia.
Qed.

Lemma nth_window (i t : nat) (l : list float) (d : float) :
  (t < 12)%nat -> nth t (window i l) d = nth (i - 11 + t) l d.
Proof.
  intros Ht. unfold window. rewrite nth_firstn.
  apply Nat.ltb_lt in Ht. rewrite Ht. apply nth_skipn.
Qed.

Lemma nth_column (j k : nat) (vs : list Row) :
  nth k (column j vs) nan = nth j (nth k vs []) nan.
Proof.
  unfold column.
  destruct (Nat.lt_ge_cases k (length vs)) as [H|H].
  - rewrite (nth_indep _ nan (nth j [] nan)) by (rewrite length_map; exact H).
    apply (map_nth (fun r => nth j r nan)).
  - rewrite (nth_overflow (map (fun r => nth j r nan) vs)) by (rewrite length_map; exact H).
    rewrite (nth_overflow vs) by exact H. destruct j; reflexivity.
Qed.

Lemma nth_map_in {A B : Type} (f : A -> B) (l : list A) (k : nat) (d : A) (d' : B) :
  (k < length l)%nat -> nth k (map f l) d' = f (nth k l d).
Proof.
  intros Hk. rewrite (nth_indep _ d' (f d)) by (rewrite length_map; exact Hk).
  apply map_nth.
Qed.

(** At a row of the table, the twelve cells of the synthetic series are
    the last twelve cells of the station. *)
Lemma broadcast_window (d : DataFrame) (i j : nat) :
  contiguous d ->
  (12 <= length (rows d))%nat ->
  (11 <= i < length (rows d))%nat ->
  month (nth i (index d) 0) = month (nth (length (rows d) - 1) (index d) 0) ->
  window i (column j (values (broadcast (iloc_tail 12 (rows d)) d)))
  = window (length (rows d) - 1) (column j (values d)).
Proof.
  Local Transparent iloc_tail.
  intros [p0 Hidx] Hn Hi Hmonth.
  assert (Hlen : forall vs : list (Period * Row),
             length (column j (map snd vs)) = length vs)
    by (intros vs; unfold column; rewrite !length_map; reflexivity).
  assert (Hlb : length (column j (values (broadcast (iloc_tail 12 (rows d)) d)))
                = length (rows d)).
  { unfold values, broadcast, with_rows. cbn [rows]. rewrite Hlen, length_map. reflexivity. }
  assert (Hlv : length (column j (values d)) = length (rows d)) by apply Hlen.
  apply (nth_ext _ _ nan nan).
  { rewrite !window_length; [reflexivity | rewrite Hlv; lia | rewrite Hlb; lia]. }
  intros t Ht. rewrite window_length in Ht by (rewrite Hlb; lia).
  rewrite !nth_window by exact Ht. rewrite !nth_column.
  replace (length (rows d) - 1 - 11 + t)%nat with (length (rows d) - 12 + t)%nat by lia.
  f_equal.
  unfold values at 1, broadcast, with_rows. cbn [rows]. rewrite map_map. cbn [snd].
  rewrite (nth_map_in (fun r => reference_row (iloc_tail 12 (rows d)) (month (fst r)))
                      (rows d) (i - 11 + t) (0, []) []) by lia.
  assert (Hfst : forall k, (k < length (rows d))%nat ->
                           fst (nth k (rows d) (0, [])) = p0 + Z.of_nat k).
  { intros k Hk. rewrite <- (nth_map_in fst (rows d) k (0, []) 0 Hk).
    fold (index d). rewrite Hidx. apply nth_period_range. exact Hk. }
  rewrite Hfst by lia.
  rewrite Hidx, !nth_period_range in Hmonth by lia.
  assert (Hsame : month (p0 + Z.of_nat (i - 11 + t))
                  = month ((p0 + Z.of_nat (length (rows d) - 12)) + Z.of_nat t)).
  { replace (p0 + Z.of_nat (i - 11 + t)) with ((p0 + Z.of_nat i) + (Z.of_nat t - 11)) by lia.
    replace (p0 + Z.of_nat (length (rows d) - 12) + Z.of_nat t)
      with ((p0 + Z.of_nat (length (rows d) - 1)) + (Z.of_nat t - 11)) by lia.
    apply month_shift_eq. exact Hmonth. }
  rewrite Hsame.
  rewrite (reference_row_consecutive (iloc_tail 12 (rows d))
             (p0 + Z.of_nat (length (rows d) - 12)) t).
  - unfold iloc_tail. rewrite nth_skipn.
    unfold values. symmetry. apply nth_map_in. lia.
  - intros t' Ht'. unfold iloc_tail in *. rewrite length_skipn in Ht'.
    rewrite nth_skipn. rewrite Hfst by lia. lia.
  - unfold iloc_tail. rewrite length_skipn. lia.
  - unfold iloc_tail. rewrite length_skipn. lia.
  Local Opaque iloc_tail.
Qed.

Lemma contiguous_months_covered (d : DataFrame) :
  contiguous d -> (12 <= length (rows d))%nat ->
  months_covered (iloc_tail 12 (rows d)) = true.
Proof.
  Local Transparent iloc_tail.
  intros [p0 Hidx] Hn. unfold months_covered. apply forallb_forall. intros m Hm.
  assert (Hrange : 1 <= m <= 12).
  { Local Transparent range_1_13. unfold range_1_13 in Hm. cbn [In] in Hm.
    Local Opaque range_1_13. lia. }
  set (q := p0 + Z.of_nat (length (rows d) - 12)).
  set (t := Z.to_nat ((m - 1 - q) mod 12)).
  assert (Ht : (t < 12)%nat).
  { unfold t. pose proof (Z.mod_pos_bound (m - 1 - q) 12 ltac:(lia)). lia. }
  apply existsb_exists. exists (nth t (iloc_tail 12 (rows d)) (0, [])). split.
  - apply nth_In. unfold iloc_tail. rewrite length_skipn. lia.
  - apply Z.eqb_eq. unfold iloc_tail. rewrite nth_skipn.
    rewrite <- (nth_map_in fst (rows d) _ (0, []) 0) by lia.
    fold (index d). rewrite Hidx, nth_period_range by lia.
    replace (p0 + Z.of_nat (length (rows d) - 12 + t)) with (q + Z.of_nat t)
      by (unfold q; lia).
    unfold month, t. rewrite Z2Nat.id by (apply Z.mod_pos_bound; lia).
    rewrite Zplus_mod_idemp_r. replace (q + (m - 1 - q)) with (m - 1) by lia.
    rewrite Z.mod_small by lia. lia.
  Local Opaque iloc_tail.
Qed.

(** On consecutive months the loop of [calc_corr_last12] leaves in each
    column of [df_other] the last twelve cells of the station, laid over
    the whole history month for month. *)
Lemma broadcast_column (d : DataFrame) (j : nat) :
  contiguous d ->
  (12 <= length (rows d))%nat ->
  column j (values (broadcast (iloc_tail 12 (rows d)) d)) = tiled (column j (values d)).
Proof.
  Local Transparent iloc_tail.
  intros [p0 Hidx] Hn.
  assert (Hlen : forall vs : list (Period * Row),
             length (column j (map snd vs)) = length vs)
    by (intros vs; unfold column; rewrite !length_map; reflexivity).
  assert (Hlb : length (column j (values (broadcast (iloc_tail 12 (rows d)) d)))
                = length (rows d)).
  { unfold values, broadcast, with_rows. cbn [rows]. rewrite Hlen, length_map. reflexivity. }
  assert (Hlv : length (column j (values d)) = length (rows d)) by apply Hlen.
  assert (Hfst : forall k, (k < length (rows d))%nat ->
                           fst (nth k (rows d) (0, [])) = p0 + Z.of_nat k).
  { intros k Hk. rewrite <- (nth_map_in fst (rows d) k (0, []) 0 Hk).
    fold (index d). rewrite Hidx. apply nth_period_range. exact Hk. }
  apply (nth_ext _ _ nan nan).
  { unfold tiled. rewrite length_map, length_seq, Hlb, Hlv. reflexivity. }
  intros k Hk. rewrite Hlb in Hk.
  unfold tiled. rewrite Hlv.
  rewrite (nth_map_seq _ (length (rows d)) k nan Hk).
  set (t := Z.to_nat ((Z.of_nat k - (Z.of_nat (length (rows d)) - 12)) mod 12)).
  assert (Ht : (t < 12)%nat).
  { unfold t.
    pose proof (Z.mod_pos_bound (Z.of_nat k - (Z.of_nat (length (rows d)) - 12)) 12
                  ltac:(lia)). lia. }
  replace (Z.to_nat (Z.of_nat (length (rows d)) - 12
                     + (Z.of_nat k - (Z.of_nat (length (rows d)) - 12)) mod 12))
    with (length (rows d) - 12 + t)%nat
    by (unfold t;
        pose proof (Z.mod_pos_bound (Z.of_nat k - (Z.of_nat (length (rows d)) - 12)) 12
                      ltac:(lia)); lia).
  rewrite !nth_column. f_equal.
  unfold values at 1, broadcast, with_rows. cbn [rows]. rewrite map_map. cbn [snd].
  rewrite (nth_map_in (fun r => reference_row (iloc_tail 12 (rows d)) (month (fst r)))
                      (rows d) k (0, []) []) by exact Hk.
  rewrite Hfst by exact Hk.
  assert (Hsame : month (p0 + Z.of_nat k)
                  = month ((p0 + Z.of_nat (length (rows d) - 12)) + Z.of_nat t)).
  { unfold month. f_equal. unfold t.
    rewrite Z2Nat.id by (apply Z.mod_pos_bound; lia).
    rewrite Zplus_mod_idemp_r. f_equal. lia. }
  rewrite Hsame.
  rewrite (reference_row_consecutive (iloc_tail 12 (rows d))
             (p0 + Z.of_nat (length (rows d) - 12)) t).
  - unfold iloc_tail. rewrite nth_skipn.
    unfold values. symmetry. apply nth_map_in. lia.
  - intros t' Ht'. unfold iloc_tail in *. rewrite length_skipn in Ht'.
    rewrite nth_skipn. rewrite Hfst by lia. lia.
  - unfold iloc_tail. rewrite length_skipn. lia.
  - unfold iloc_tail. rewrite length_skipn. lia.
  Local Opaque iloc_tail.
Qed.

Section ExtraAlign.

Variable corr : nat -> list float -> list float -> float.

(** X5.  On a monthly series of at least twelve consecutive months, every
    row of the table of [calc_corr_last12] whose window is complete holds,
    for each station, the cell of the rolling correlation at that row
    between the station's column and the station's last twelve months laid
    over the whole history month for month; the twelve cells of that second
    column that end at the row are the station's last twelve cells. *)
Theorem table_compares_with_last_twelve_months (r : ref) (s : St) (i : nat) :
  freq_month_end (nth r (heap s) empty_frame) = true ->
  contiguous (nth r (heap s) empty_frame) ->
  (11 <= i < length (rows (nth r (heap s) empty_frame)))%nat ->
  month (nth i (index (nth r (heap s) empty_frame)) 0)
  = month (nth (length (rows (nth r (heap s) empty_frame)) - 1)
               (index (nth r (heap s) empty_frame)) 0) ->
  exists c,
    snd (calc_corr_last12 corr r s) = inr c /\
    In (nth i (index (nth r (heap s) empty_frame)) 0,
        map (fun j =>
               corr i (column j (values (nth r (heap s) empty_frame)))
                      (tiled (column j (values (nth r (heap s) empty_frame)))))
            (seq 0 (length (columns (nth r (heap s) empty_frame)))))
       (rows (nth c (heap (fst (calc_corr_last12 corr r s))) empty_frame)) /\
    forall j,
      window i (tiled (column j (values (nth r (heap s) empty_frame))))
      = window (length (rows (nth r (heap s) empty_frame)) - 1)
               (column j (values (nth r (heap s) empty_frame))).
Proof.
  intros Hf Hc Hi Hmonth.
  set (df := nth r (heap s) empty_frame) in *.
  assert (Hn : (12 <= length (rows df))%nat) by lia.
  pose proof (contiguous_months_covered df Hc Hn) as Hm.
  destruct (calc_corr_last12_run corr r s Hf Hm) as [lastp [Hl Hrun]]. fold df in Hl, Hrun.
  exists (length (heap s) + 2)%nat. rewrite Hrun. cbn [fst snd heap].
  split; [reflexivity|].
  split;
    [|intros j; rewrite <- (broadcast_column df j Hc Hn);
      apply broadcast_window; assumption].
  replace (nth (length (heap s) + 2) _ empty_frame) with (correlation_table corr df lastp)
    by (rewrite app_nth2 by lia;
        replace (length (heap s) + 2 - length (heap s))%nat with 2%nat by lia;
        reflexivity).
  unfold correlation_table, with_index_name, with_rows. cbn [rows].
  assert (Hlast : nth (length (rows df) - 1) (index df) 0 = lastp).
  { Local Transparent lastE.
    unfold lastE in Hl. destruct (rev (index df)) as [|x rest] eqn:E; [discriminate|].
    injection Hl as <-.
    assert (Hidx : index df = rev rest ++ [x])
      by (rewrite <- (rev_involutive (index df)), E; reflexivity).
    assert (Hlen : length (rows df) = length (index df))
      by (unfold index; rewrite length_map; reflexivity).
    rewrite Hlen, Hidx, length_app. cbn [length].
    rewrite app_nth2 by lia.
    replace (length (rev rest) + 1 - 1 - length (rev rest))%nat with 0%nat by lia.
    reflexivity.
    Local Opaque lastE. }
  Local Transparent select_month.
  unfold select_month. apply filter_In. split.
  - assert (Hrow : nth i (rolling_corr corr df (broadcast (iloc_tail 12 (rows df)) df)) (0, [])
                   = (nth i (index df) 0,
                      map (fun j => corr i (column j (values df))
                                         (tiled (column j (values df))))
                          (seq 0 (length (columns df))))).
    { rewrite rolling_corr_row by lia. f_equal. apply map_ext. intros j.
      assert (Hge : (i <? 11)%nat = false) by (apply Nat.ltb_ge; lia).
      rewrite Hge. f_equal. apply broadcast_column; assumption. }
    rewrite <- Hrow. apply nth_In. rewrite rolling_corr_length. lia.
  - cbn [fst]. apply Z.eqb_eq. rewrite Hmonth, Hlast. reflexivity.
  Local Opaque select_month.
Qed.

End ExtraAlign.

(** ** [CorrelacaoAmplitude.fit] *)

Section ExtraFit.

Variable corr : nat -> list float -> list float -> float.

Local Opaque walk finish calc_corr_last12 sort_values_desc ratio_rows column_min
  column_max select_month lastE getitem rolling_corr iloc_tail.

(** X6.  A station that is no column of the series: once the correlation
    table is built, [fit] raises [KeyError]; the bounds and the rejection
    list are not assigned yet. *)
Theorem unknown_station_raises_key_error (r : ref) (h : list DataFrame)
    (m : CorrelacaoAmplitude) :
  freq_month_end (nth r h empty_frame) = true ->
  months_covered (iloc_tail 12 (rows (nth r h empty_frame))) = true ->
  position (coluna m) (columns (nth r h empty_frame)) = None ->
  snd (fit corr r (mkSt h m)) = inl KeyError /\
  amplitudes_ (self (fst (fit corr r (mkSt h m)))) = amplitudes_ m /\
  anos_rejeitados_ (self (fst (fit corr r (mkSt h m)))) = anos_rejeitados_ m.
Proof.
  intros Hf Hm Hpos. rewrite fit_unfold. cbv zeta.
  set (df := nth r h empty_frame) in *.
  assert (Hdf : nth r (h ++ [df]) empty_frame = df) by (apply nth_after_own_copy).
  destruct (calc_corr_last12_run corr r (mkSt (h ++ [df]) (set_df_base (length h) m)))
    as [lastp [Hl Hrun]];
    [cbn [heap]; rewrite Hdf; exact Hf | cbn [heap]; rewrite Hdf; exact Hm |].
  cbn [heap self] in Hrun. rewrite Hdf in Hrun. rewrite Hrun. cbn [heap self].
  replace (nth (length (h ++ [df]) + 2) _ empty_frame) with (correlation_table corr df lastp)
    by (rewrite app_nth2 by lia;
        replace (length (h ++ [df]) + 2 - length (h ++ [df]))%nat with 2%nat by lia;
        reflexivity).
  cbn [coluna set_df_correlacao set_df_base].
  Local Transparent getitem.
  unfold getitem.
  change (columns (correlation_table corr df lastp)) with (columns df).
  rewrite Hpos. split; [reflexivity|]. split; reflexivity.
  Local Opaque getitem.
Qed.

(** The walk stops at the first candidate that is not rejected; it leaves
    one record for every candidate before it, with the candidate's year
    and correlation. *)
Lemma walk_first (top : Series) (pos : list nat) :
  forall (h : list DataFrame) (m0 : CorrelacaoAmplitude) (l : list Rejeitado)
         (b : ref) (amp : Amplitudes) (s' : St) (res : exn + unit),
    df_base m0 = Some b -> amplitudes_ m0 = Some amp ->
    walk top pos (mkSt h (set_anos_rejeitados l m0)) = (s', res) ->
    exists pre l',
      anos_rejeitados_ (self s') = Some (l ++ l') /\
      map ano l' = map (fun q => year (start_of top q)) pre /\
      map correlacao l' = map (fun q => snd (nth q top (0, nan))) pre /\
      Forall (fun q => rejected_by_checks (nth b h empty_frame) amp (anos_ignorados m0)
                         (max_lt_min m0) (max_gt_max m0) (start_of top q)) pre /\
      ((res = inr tt /\ pre = pos /\ posicao_ (self s') = posicao_ m0) \/
       exists p post,
         pos = pre ++ p :: post /\
         ((res = inr tt /\ posicao_ (self s') = Some p /\
           period_escolhido_ini_ (self s') = Some (start_of top p) /\
           passes_checks (nth b h empty_frame) amp (anos_ignorados m0)
                         (max_lt_min m0) (max_gt_max m0) (start_of top p)) \/
          (res = inl (candidate_error (nth b h empty_frame) (start_of top p)) /\
           candidate_ratio (nth b h empty_frame) (start_of top p) = None /\
           posicao_ (self s') = posicao_ m0))).
Proof.
  Local Transparent walk.
  induction pos as [|p rest IH]; intros h m0 l b amp s' res Hb Ha Hrun.
  - cbn in Hrun. injection Hrun as <- <-. exists [], []. cbn [self].
    rewrite app_nil_r. repeat split; try reflexivity; [constructor|].
    left. repeat split; reflexivity.
  - rewrite (walk_step top p rest h m0 l b amp Hb Ha) in Hrun.
    destruct (candidate_ratio (nth b h empty_frame) (start_of top p)) as [ratio|] eqn:Hc.
    + cbv zeta in Hrun.
      assert (Hstep : forall mot,
                 rejected_by_checks (nth b h empty_frame) amp (anos_ignorados m0)
                                    (max_lt_min m0) (max_gt_max m0) (start_of top p) ->
                 walk top rest
                      (mkSt h (set_anos_rejeitados
                                 (l ++ [mkRejeitado (year (start_of top p))
                                                    (snd (nth p top (0, nan))) mot]) m0))
                 = (s', res) ->
                 exists pre l',
                   anos_rejeitados_ (self s') = Some (l ++ l') /\
                   map ano l' = map (fun q => year (start_of top q)) pre /\
                   map correlacao l' = map (fun q => snd (nth q top (0, nan))) pre /\
                   Forall (fun q => rejected_by_checks (nth b h empty_frame) amp
                                      (anos_ignorados m0) (max_lt_min m0) (max_gt_max m0)
                                      (start_of top q)) pre /\
                   ((res = inr tt /\ pre = p :: rest /\ posicao_ (self s') = posicao_ m0) \/
                    exists p' post,
                      p :: rest = pre ++ p' :: post /\
                      ((res = inr tt /\ posicao_ (self s') = Some p' /\
                        period_escolhido_ini_ (self s') = Some (start_of top p') /\
                        passes_checks (nth b h empty_frame) amp (anos_ignorados m0)
                                      (max_lt_min m0) (max_gt_max m0) (start_of top p')) \/
                       (res = inl (candidate_error (nth b h empty_frame) (start_of top p')) /\
                        candidate_ratio (nth b h empty_frame) (start_of top p') = None /\
                        posicao_ (self s') = posicao_ m0)))).
      { intros mot Hrej Hw. apply IH with (b := b) (amp := amp) in Hw; auto.
        destruct Hw as (pre & l' & Hl & Hy & Hcv & Hall & Hend).
        exists (p :: pre), (mkRejeitado (year (start_of top p)) (snd (nth p top (0, nan))) mot :: l').
        rewrite <- app_assoc in Hl. cbn [app] in Hl.
        split; [exact Hl|]. cbn [map ano correlacao].
        split; [f_equal; exact Hy|]. split; [f_equal; exact Hcv|].
        split; [constructor; assumption|].
        destruct Hend as [[Hr [Hp Hq]] | [p' [post [Hp Hq]]]].
        - left. subst pre. repeat split; assumption.
        - right. exists p', post. split; [rewrite Hp; reflexivity | exact Hq]. }
      destruct (max_gt_max m0 <? above_count ratio amp) eqn:Eg.
      { eapply Hstep; [|exact Hrun].
        exists ratio. split; [exact Hc|]. left. apply Z.ltb_lt. exact Eg. }
      destruct (max_lt_min m0 <? below_count ratio amp) eqn:El.
      { eapply Hstep; [|exact Hrun].
        exists ratio. split; [exact Hc|]. right. left. apply Z.ltb_lt. exact El. }
      destruct (existsb (Z.eqb (year (start_of top p))) (anos_ignorados m0)) eqn:Ey.
      { eapply Hstep; [|exact Hrun].
        exists ratio. split; [exact Hc|]. right. right. apply existsb_year. exact Ey. }
      injection Hrun as <- <-. exists [], []. cbn [self].
      rewrite app_nil_r. repeat split; try reflexivity; [constructor|].
      right. exists p, rest. split; [reflexivity|]. left.
      repeat split; try reflexivity.
      exists ratio. repeat split; try assumption.
      * apply Z.ltb_ge. exact Eg.
      * apply Z.ltb_ge. exact El.
      * intros Hin. apply existsb_year in Hin. congruence.
    + injection Hrun as <- <-. exists [], []. cbn [self].
      rewrite app_nil_r. repeat split; try reflexivity; [constructor|].
      right. exists p, rest. split; [reflexivity|]. right.
      split; [reflexivity|]. split; [exact Hc | reflexivity].
  Local Opaque walk.
Qed.

(** [fit] on a fresh model, up to the walk. *)
Lemma fit_walk_entry (r : ref) (h : list DataFrame) (c0 : Z) (anos : list Z) (ml mg : Z)
    (s' : St) (res : exn + unit) :
  fit corr r (mkSt h (init c0 anos ml mg)) = (s', res) ->
  amplitudes_ (self s') <> None ->
  exists extra c col last_period s2 wres,
    let df := nth r h empty_frame in
    let h1 := h ++ df :: extra in
    let top := sort_values_desc col in
    getitem c0 (nth c h1 empty_frame) = inr col /\
    lastE (index df) = inr last_period /\
    walk top (seq 1 (length top - 1))
         (mkSt h1 (set_anos_rejeitados []
                     (model_before_walk (init c0 anos ml mg) (length h) c df last_period)))
    = (s2, wres) /\
    (s', res) = match wres with
                | inl e => (s2, inl e)
                | inr _ => finish top s2
                end.
Proof.
  intros Hrun Hamp. rewrite fit_unfold in Hrun. cbv zeta in Hrun.
  set (df := nth r h empty_frame) in *.
  destruct (calc_corr_last12 corr r _) as [s1 [e|c]] eqn:Hcalc.
  - exfalso. injection Hrun as <- <-.
    apply calc_corr_last12_frame in Hcalc. destruct Hcalc as [Hs _].
    cbn [heap self] in Hs. apply Hamp. rewrite Hs. reflexivity.
  - apply calc_corr_last12_frame in Hcalc. destruct Hcalc as [Hs [extra [Hh Hc]]].
    cbn [heap self] in Hs, Hh, Hc.
    assert (Hh' : heap s1 = h ++ df :: extra) by (rewrite Hh, <- app_assoc; reflexivity).
    assert (Hbase : nth (length h) (heap s1) empty_frame = df).
    { rewrite Hh'. apply nth_middle. }
    rewrite Hs in Hrun. cbn [coluna set_df_correlacao set_df_base df_base init] in Hrun.
    destruct (getitem c0 (nth c (heap s1) empty_frame)) as [e|col] eqn:Hget.
    { exfalso. injection Hrun as <- <-. apply Hamp. reflexivity. }
    rewrite Hbase in Hrun.
    destruct (lastE (index df)) as [e|last_period] eqn:Hlast.
    { exfalso. injection Hrun as <- <-. apply Hamp. reflexivity. }
    destruct (walk _ _ _) as [s2 wres] eqn:Hwalk in Hrun.
    exists extra, c, col, last_period, s2, wres. cbv zeta.
    rewrite <- Hh'. split; [exact Hget|]. split; [exact Hlast|].
    split; [exact Hwalk|].
    destruct wres as [e|u]; [symmetry; exact Hrun | symmetry; exact Hrun].
Qed.

Lemma seq_split (a n : nat) (pre : list nat) (p : nat) (post : list nat) :
  seq a n = pre ++ p :: post ->
  p = (a + length pre)%nat /\ pre = seq a (length pre) /\ (length pre < n)%nat.
Proof.
  revert a n. induction pre as [|x pre IH]; intros a n H.
  - destruct n as [|n]; [discriminate|]. cbn in H. injection H as <- _.
    cbn. repeat split; lia.
  - destruct n as [|n]; [discriminate|]. cbn [seq app] in H. injection H as <- H.
    apply IH in H. destruct H as [Hp [Hpre Hlen]]. cbn [length seq].
    repeat split; [lia | f_equal; exact Hpre | lia].
Qed.

Lemma same_setup_refl (m : CorrelacaoAmplitude) : same_setup m m.
Proof. repeat split. Qed.

Lemma same_setup_trans (m1 m2 m3 : CorrelacaoAmplitude) :
  same_setup m1 m2 -> same_setup m2 m3 -> same_setup m1 m3.
Proof.
  unfold same_setup. intros (A1 & A2 & A3 & A4 & A5) (B1 & B2 & B3 & B4 & B5).
  repeat split; congruence.
Qed.

Lemma same_setup_append (r0 : Rejeitado) (m : CorrelacaoAmplitude) :
  same_setup m (append_rejeitado r0 m).
Proof.
  unfold append_rejeitado. destruct (anos_rejeitados_ m); repeat split.
Qed.

Lemma same_setup_escolhido (p : nat) (start : Period) (ratio : Row) (g l : Z)
    (m : CorrelacaoAmplitude) :
  same_setup m (set_escolhido p start ratio g l m).
Proof.
  unfold same_setup, set_escolhido. cbn.
  destruct (amplitudes_ m); repeat split.
Qed.

Lemma walk_same_setup (top : Series) (pos : list nat) :
  forall s, same_setup (self s) (self (fst (walk top pos s))).
Proof.
  Local Transparent walk.
  induction pos as [|p rest IH]; intros s; [apply same_setup_refl|].
  cbn [walk]. unfold bind at 1. unfold self_df_base at 1. unfold bind at 1. cbn [get_self].
  destruct (df_base (self s)) as [b|]; [|apply same_setup_refl].
  cbn [deref]. unfold bind at 1. unfold lift at 1.
  destruct (loc _ _) as [e|found]; [apply same_setup_refl|].
  cbn [ret]. unfold bind at 1. unfold lift at 1.
  destruct (lastE _) as [e|ult]; [apply same_setup_refl|].
  cbn [ret]. destruct found as [cand|rs]; [|apply same_setup_refl].
  unfold bind at 1. unfold self_amplitudes at 1. unfold bind at 1. cbn [get_self].
  destruct (amplitudes_ (self s)) as [amp|]; [|apply same_setup_refl].
  cbn [ret]. unfold bind at 1. cbn [get_self]. cbv zeta.
  destruct (max_gt_max (self s) <? _);
    [unfold bind at 1; cbn [set_self];
     match goal with |- same_setup _ (self (fst (walk _ _ ?st))) =>
       apply (same_setup_trans _ (self st)); [apply same_setup_append | apply (IH st)]
     end|].
  destruct (max_lt_min (self s) <? _);
    [unfold bind at 1; cbn [set_self];
     match goal with |- same_setup _ (self (fst (walk _ _ ?st))) =>
       apply (same_setup_trans _ (self st)); [apply same_setup_append | apply (IH st)]
     end|].
  destruct (existsb _ _);
    [unfold bind at 1; cbn [set_self];
     match goal with |- same_setup _ (self (fst (walk _ _ ?st))) =>
       apply (same_setup_trans _ (self st)); [apply same_setup_append | apply (IH st)]
     end|].
  cbn [set_self fst self]. apply same_setup_escolhido.
  Local Opaque walk.
Qed.

Lemma rejected_by_checks_bounds (base : DataFrame) (a a' : Amplitudes)
    (anos : list Z) (ml mg : Z) (start : Period) :
  amp_min a = amp_min a' -> amp_max a = amp_max a' ->
  rejected_by_checks base a anos ml mg start ->
  rejected_by_checks base a' anos ml mg start.
Proof.
  intros Hmin Hmax [ratio [Hc H]]. exists ratio. split; [exact Hc|].
  unfold above_count, below_count in *. rewrite <- Hmin, <- Hmax. exact H.
Qed.

Lemma passes_checks_bounds (base : DataFrame) (a a' : Amplitudes)
    (anos : list Z) (ml mg : Z) (start : Period) :
  amp_min a = amp_min a' -> amp_max a = amp_max a' ->
  passes_checks base a anos ml mg start ->
  passes_checks base a' anos ml mg start.
Proof.
  intros Hmin Hmax [ratio [Hc H]]. exists ratio. split; [exact Hc|].
  unfold above_count, below_count in *. rewrite <- Hmin, <- Hmax. exact H.
Qed.

(** X7.  [fit] accepts the first acceptable candidate of the ranking: when
    it returns, the accepted rank [posicao_] is at least 1, its candidate
    passes the three checks, every rank from 1 up to it was rejected by
    one of them, and [anos_rejeitados_] holds one record per rejected rank,
    in rank order, with the candidate's year and correlation. *)
Theorem fit_accepts_first_acceptable (r : ref) (h : list DataFrame) (c0 : Z)
    (anos : list Z) (ml mg : Z) (s' : St) :
  fit corr r (mkSt h (init c0 anos ml mg)) = (s', inr tt) ->
  exists p amp,
    posicao_ (self s') = Some p /\
    amplitudes_ (self s') = Some amp /\
    (1 <= p < length (ranking_of c0 s'))%nat /\
    passes_checks (nth r h empty_frame) amp anos ml mg (start_of (ranking_of c0 s') p) /\
    (forall q, (1 <= q < p)%nat ->
       rejected_by_checks (nth r h empty_frame) amp anos ml mg
                          (start_of (ranking_of c0 s') q)) /\
    map ano (rejeitados_of s')
    = map (fun q => year (start_of (ranking_of c0 s') q)) (seq 1 (p - 1)) /\
    map correlacao (rejeitados_of s')
    = map (fun q => snd (nth q (ranking_of c0 s') (0, nan))) (seq 1 (p - 1)).
Proof.
  intros Hrun.
  assert (Hamp : amplitudes_ (self s') <> None).
  { pose proof (fit_returns corr r h c0 anos ml mg s' Hrun) as Hr. cbv zeta in Hr.
    destruct Hr as (extra & c & col & lastp & pre & p & post & l' & ratio & e & o & H).
    destruct H as (_ & _ & _ & _ & _ & _ & _ & _ & _ & _ & _ & Hs).
    rewrite Hs. discriminate. }
  destruct (fit_walk_entry r h c0 anos ml mg s' (inr tt) Hrun Hamp)
    as (extra & c & col & lastp & s2 & wres & H).
  cbv zeta in H. destruct H as (Hget & Hlast & Hwalk & Hfin).
  set (df := nth r h empty_frame) in *.
  set (top := sort_values_desc col) in *.
  set (m0 := model_before_walk (init c0 anos ml mg) (length h) c df lastp) in *.
  pose proof (walk_heap top (seq 1 (length top - 1))
                (mkSt (h ++ df :: extra) (set_anos_rejeitados [] m0))) as Hheap.
  pose proof (walk_same_setup top (seq 1 (length top - 1))
                (mkSt (h ++ df :: extra) (set_anos_rejeitados [] m0))) as Hsetup.
  rewrite Hwalk in Hheap, Hsetup. cbn [fst heap self] in Hheap, Hsetup.
  apply walk_first with (b := length h) (amp := bounds_of df lastp) in Hwalk;
    [| reflexivity | reflexivity].
  rewrite nth_middle in Hwalk.
  destruct Hwalk as (pre & l' & Hl & Hy & Hcv & Hall & Hend).
  cbn [app] in Hl.
  destruct s2 as [h2 m2]. cbn [heap self] in *. subst h2.
  destruct Hsetup as (_ & _ & Hdc & Hamin & Hamax).
  change (df_correlacao (set_anos_rejeitados [] m0)) with (Some c) in Hdc.
  change (amplitudes_ (set_anos_rejeitados [] m0)) with (Some (bounds_of df lastp))
    in Hamin, Hamax.
  destruct (amplitudes_ m2) as [amp2|] eqn:Hamp2; [|discriminate Hamin].
  cbn [option_map] in Hamin, Hamax. injection Hamin as Hamin. injection Hamax as Hamax.
  destruct wres as [e|u]; [discriminate Hfin|].
  rewrite finish_run in Hfin.
  destruct Hend as [(_ & _ & Hnone) | (p & post & Hpos & Hcase)].
  { change (posicao_ m0) with (@None nat) in Hnone. rewrite Hnone in Hfin.
    discriminate Hfin. }
  destruct Hcase as [(_ & Hp & Hstart & Hpass) | (Hbad & _)]; [|discriminate Hbad].
  rewrite Hp, Hdc in Hfin.
  destruct (nth_error top p) as [e|] eqn:He; [|discriminate Hfin].
  destruct (loc (fst e) _) as [er|o] eqn:Hloc; [discriminate Hfin|].
  injection Hfin as ->.
  cbn [self heap].
  assert (Hrank : ranking_of c0 (mkSt (h ++ df :: extra)
                                     (set_correlacao_outros o (set_correlacao (snd e) m2)))
                  = top).
  { unfold ranking_of. cbn [self heap df_correlacao set_correlacao_outros set_correlacao].
    rewrite Hdc, Hget. reflexivity. }
  rewrite Hrank.
  destruct (seq_split _ _ _ _ _ Hpos) as (Hpeq & Hpre & Hplen).
  assert (Hpre' : pre = seq 1 (p - 1)).
  { rewrite Hpre. f_equal. lia. }
  exists p, amp2.
  split; [cbn; exact Hp|]. split; [cbn; exact Hamp2|].
  split; [lia|].
  split; [eapply passes_checks_bounds; [| |exact Hpass]; symmetry; assumption|].
  split.
  - intros q Hq. rewrite Forall_forall in Hall.
    eapply rejected_by_checks_bounds; [| |apply Hall]; try (symmetry; assumption).
    rewrite Hpre'. apply in_seq. lia.
  - unfold rejeitados_of. cbn [self anos_rejeitados_ set_correlacao_outros set_correlacao].
    rewrite Hl, <- Hpre'. split; assumption.
Qed.

Lemma loc_absent (label : Period) (d : DataFrame) :
  ~ In label (index d) -> loc label d = inl KeyError.
Proof.
  intros H. unfold loc.
  destruct (filter (fun r => fst r =? label) (rows d)) as [|x rest] eqn:E; [reflexivity|].
  exfalso. apply H.
  assert (Hx : In x (filter (fun r => fst r =? label) (rows d)))
    by (rewrite E; left; reflexivity).
  apply filter_In in Hx. destruct Hx as [Hx Hl]. apply Z.eqb_eq in Hl.
  unfold index. apply in_map_iff. exists x. split; assumption.
Qed.

Lemma rejected_in_index (base : DataFrame) (amp : Amplitudes) (anos : list Z)
    (ml mg : Z) (start : Period) :
  rejected_by_checks base amp anos ml mg start -> In start (index base).
Proof.
  intros [ratio [Hc _]]. eapply candidate_ratio_in_index. exact Hc.
Qed.

(** X8.  A candidate whose following month is not in the series (the
    reference window itself, when ties or NaN put it at rank 1 or later)
    stops [fit] with [KeyError] when the walk reaches it: if every rank
    before it was rejected, [fit] raises [KeyError], accepts nothing, and
    leaves one rejection record per earlier rank. *)
Theorem fit_raises_key_error_on_missing_month (r : ref) (h : list DataFrame) (c0 : Z)
    (anos : list Z) (ml mg : Z) (s' : St) (res : exn + unit) (amp : Amplitudes)
    (p : nat) :
  fit corr r (mkSt h (init c0 anos ml mg)) = (s', res) ->
  amplitudes_ (self s') = Some amp ->
  (1 <= p < length (ranking_of c0 s'))%nat ->
  (forall q, (1 <= q < p)%nat ->
     rejected_by_checks (nth r h empty_frame) amp anos ml mg
                        (start_of (ranking_of c0 s') q)) ->
  ~ In (start_of (ranking_of c0 s') p) (index (nth r h empty_frame)) ->
  res = inl KeyError /\
  posicao_ (self s') = None /\
  length (rejeitados_of s') = (p - 1)%nat.
Proof.
  intros Hrun Hamp Hp Hbefore Hmissing.
  assert (Hamp' : amplitudes_ (self s') <> None) by congruence.
  destruct (fit_walk_entry r h c0 anos ml mg s' res Hrun Hamp')
    as (extra & c & col & lastp & s2 & wres & H).
  cbv zeta in H. destruct H as (Hget & Hlast & Hwalk & Hfin).
  set (df := nth r h empty_frame) in *.
  set (top := sort_values_desc col) in *.
  set (m0 := model_before_walk (init c0 anos ml mg) (length h) c df lastp) in *.
  pose proof (walk_heap top (seq 1 (length top - 1))
                (mkSt (h ++ df :: extra) (set_anos_rejeitados [] m0))) as Hheap.
  pose proof (walk_same_setup top (seq 1 (length top - 1))
                (mkSt (h ++ df :: extra) (set_anos_rejeitados [] m0))) as Hsetup.
  rewrite Hwalk in Hheap, Hsetup. cbn [fst heap self] in Hheap, Hsetup.
  apply walk_first with (b := length h) (amp := bounds_of df lastp) in Hwalk;
    [| reflexivity | reflexivity].
  rewrite nth_middle in Hwalk.
  destruct Hwalk as (pre & l' & Hl & Hy & Hcv & Hall & Hend).
  cbn [app] in Hl.
  destruct s2 as [h2 m2]. cbn [heap self] in *. subst h2.
  destruct Hsetup as (_ & _ & Hdc & _ & _).
  change (df_correlacao (set_anos_rejeitados [] m0)) with (Some c) in Hdc.
  (* the ranking read from the final state is the one walked *)
  assert (Hrank : ranking_of c0 s' = top).
  { destruct wres as [e|u].
    - injection Hfin as -> _. unfold ranking_of. cbn [self heap]. rewrite Hdc, Hget.
      reflexivity.
    - rewrite finish_run in Hfin.
      destruct (posicao_ m2) as [p2|];
        [|injection Hfin as -> _; unfold ranking_of; cbn [self heap];
          rewrite Hdc, Hget; reflexivity].
      destruct (nth_error top p2) as [e|];
        [|injection Hfin as -> _; unfold ranking_of; cbn [self heap];
          rewrite Hdc, Hget; reflexivity].
      rewrite Hdc in Hfin.
      destruct (loc (fst e) _);
        injection Hfin as -> _; unfold ranking_of;
        cbn [self heap df_correlacao set_correlacao_outros set_correlacao];
        rewrite Hdc, Hget; reflexivity. }
  rewrite Hrank in *.
  rewrite Forall_forall in Hall.
  assert (Hin_pre : forall q, In q pre -> In (start_of top q) (index df)).
  { intros q Hq. eapply rejected_in_index. apply Hall, Hq. }
  destruct Hend as [(Hres & Hpre & _) | (p2 & post & Hpos & Hcase)].
  { exfalso. apply Hmissing, Hin_pre. rewrite Hpre. apply in_seq. lia. }
  destruct (seq_split _ _ _ _ _ Hpos) as (Hp2 & Hpre & Hlen).
  assert (Hpp : p2 = p).
  { destruct (Nat.lt_trichotomy p2 p) as [Hlt | [Heq | Hgt]]; [|exact Heq|].
    - exfalso. specialize (Hbefore p2 ltac:(lia)).
      assert (Hb2 : rejected_by_checks df (bounds_of df lastp) anos ml mg (start_of top p2)).
      { pose proof (fit_bounds corr r h c0 anos ml mg s' res amp Hrun Hamp) as Hb.
        destruct Hb as [lp [Hlp [Hmin Hmax]]]. fold df in Hlp, Hmin, Hmax.
        assert (lp = lastp) by congruence. subst lp.
        eapply rejected_by_checks_bounds; [exact Hmin | exact Hmax | exact Hbefore]. }
      destruct Hb2 as [ratio [Hcr Hbad]].
      destruct Hcase as [(_ & _ & _ & Hpass) | (_ & Hnone & _)].
      + destruct Hpass as [ratio' [Hcr' (Hg & Hlw & Hy')]].
        unfold m0 in Hg, Hlw, Hy'.
        cbn [anos_ignorados max_lt_min max_gt_max model_before_walk set_anos_rejeitados
               set_amplitudes set_ratio_mes set_df_correlacao set_df_base init]
          in Hg, Hlw, Hy'.
        rewrite Hcr in Hcr'. injection Hcr' as <-.
        destruct Hbad as [Hb | [Hb | Hb]]; [lia | lia | contradiction].
      + congruence.
    - exfalso. apply Hmissing, Hin_pre. rewrite Hpre. apply in_seq. lia. }
  assert (Hlp : length pre = (p - 1)%nat) by lia.
  clear Hp2. subst p2.
  destruct Hcase as [(_ & _ & _ & Hpass) | (Hres & Hnone & Hposn)].
  { exfalso. destruct Hpass as [ratio [Hcr _]].
    apply Hmissing. eapply candidate_ratio_in_index. exact Hcr. }
  subst wres. injection Hfin as -> ->. cbn [self].
  unfold candidate_error. rewrite (loc_absent _ _ Hmissing).
  split; [reflexivity|]. split; [exact Hposn|].
  unfold rejeitados_of. cbn [self]. rewrite Hl.
  rewrite <- (length_map ano), Hy, length_map. exact Hlp.
Qed.

End ExtraFit.

(* ================================================================== *)
(** ** Further properties of [predict] *)

Lemma period_range_cons (start : Period) (n : nat) :
  period_range start (S n) = start :: period_range (start + 1) n.
Proof.
  unfold period_range. cbn [seq map]. f_equal; [lia|].
  rewrite <- seq_shift, map_map. apply map_ext. intros k. lia.
Qed.

Lemma period_range_snoc (start : Period) (n : nat) :
  period_range start (S n) = period_range start n ++ [start + Z.of_nat n].
Proof.
  unfold period_range. rewrite seq_S, map_app. reflexivity.
Qed.

Lemma in_period_range (start q : Period) (n : nat) :
  In q (period_range start n) -> start <= q < start + Z.of_nat n.
Proof.
  unfold period_range. intros H. apply in_map_iff in H.
  destruct H as [k [<- Hk]]. apply in_seq in Hk. lia.
Qed.

Lemma firstn_period_range (start : Period) (k n : nat) :
  firstn k (period_range start n) = period_range start (Nat.min k n).
Proof.
  unfold period_range. rewrite firstn_map. f_equal.
  revert k. generalize 0%nat. induction n as [|n IH]; intros a k.
  - rewrite firstn_nil, Nat.min_0_r. reflexivity.
  - destruct k as [|k]; [reflexivity|]. cbn [seq firstn Nat.min]. f_equal. apply IH.
Qed.

Lemma lastE_period_range (start last_period : Period) (n : nat) :
  lastE (period_range start n) = inr last_period ->
  last_period = start + Z.of_nat n - 1 /\ (0 < n)%nat.
Proof.
  destruct n as [|n]; [discriminate|].
  rewrite period_range_snoc. unfold lastE. rewrite rev_app_distr. cbn [rev app].
  intros H. injection H as <-. lia.
Qed.

Lemma drop_until_period_range (start s0 : Period) (rs : list (Period * Row)) :
  map fst rs = period_range s0 (length rs) ->
  s0 <= start < s0 + Z.of_nat (length rs) ->
  map fst (drop_until (fun r => fst r =? start) rs)
  = period_range start (Z.to_nat (s0 + Z.of_nat (length rs) - start)).
Proof.
  unfold Period in *.
  revert s0. induction rs as [|x rs IH]; intros s0 Hidx Hin.
  - cbn [length] in Hin. lia.
  - cbn [length] in Hidx. rewrite period_range_cons in Hidx. cbn [map] in Hidx.
    injection Hidx as Hx Hrest. cbn [drop_until].
    match goal with |- context [if ?c then _ else _] => destruct c eqn:E end.
    + apply Z.eqb_eq in E. cbn [map]. rewrite Hrest.
      replace (Z.to_nat (s0 + Z.of_nat (length (x :: rs)) - start)) with (S (length rs))
        by (cbn [length]; lia).
      rewrite period_range_cons. f_equal; [exact E|]. f_equal. lia.
    + apply Z.eqb_neq in E. rewrite (IH (s0 + 1) Hrest) by (cbn [length] in Hin; lia).
      f_equal. cbn [length]. lia.
Qed.

Lemma same_year_within (start : Period) (k : Z) :
  0 <= k -> month start + k <= 12 -> year (start + k) = year start.
Proof.
  unfold month, year. intros H0 Hk. f_equal.
  pose proof (Z.div_mod start 12 ltac:(lia)) as E1.
  pose proof (Z.mod_pos_bound start 12 ltac:(lia)) as B1.
  symmetry. apply Z.div_unique with (r := start mod 12 + k); lia.
Qed.

Section ExtraPredict.

Variable corr : nat -> list float -> list float -> float.

Local Opaque lastE iloc_head.

Lemma predict_run_horizon (h : list DataFrame) (m : CorrelacaoAmplitude) (b : ref)
    (start last_period : Period) (num : option Z) :
  df_base m = Some b ->
  period_escolhido_ini_ m = Some start ->
  lastE (index (nth b h empty_frame)) = inr last_period ->
  In start (index (nth b h empty_frame)) ->
  let base := nth b h empty_frame in
  let taken := iloc_head (horizon num start) (rows_from start base) in
  predict num (mkSt h m) =
  (mkSt (h ++ [set_index (period_range (last_period + 1) (length taken))
                         (with_rows taken base)]) m,
   inr (length h)).
Proof.
  intros Hb Hp Hl Hin base taken.
  unfold predict. unfold bind at 1. cbn [get_self self].
  unfold bind at 1. unfold self_df_base at 1. unfold bind at 1. cbn [get_self self].
  rewrite Hb. cbn [deref heap]. unfold bind at 1. unfold lift at 1.
  fold base. unfold base at 1. rewrite Hl. cbn [ret]. unfold bind at 1.
  rewrite Hp.
  assert (Hn : forall s : St,
             (if match num with Some n => negb (n =? 0) | None => false end
              then ret (match num with Some n => n | None => 0 end)
              else ret (13 - month start)) s = (s, inr (horizon num start))).
  { intros s. unfold horizon. destruct num as [k|]; [|reflexivity].
    destruct (k =? 0); reflexivity. }
  rewrite Hn. unfold bind at 1. unfold lift at 1.
  rewrite (loc_from_present start base Hin). cbn [ret].
  unfold bind at 1. cbn [alloc heap self]. unfold bind at 1. cbn [mutate heap self ret].
  rewrite update_nth_app_r by lia. rewrite Nat.sub_diag. reflexivity.
Qed.

(** The state a successful [fit] leaves is one [predict] can run on. *)
Lemma fitted_state (r : ref) (h : list DataFrame) (c0 : Z) (anos : list Z)
    (ml mg : Z) (s1 : St) (start : Period) :
  fit corr r (mkSt h (init c0 anos ml mg)) = (s1, inr tt) ->
  period_escolhido_ini_ (self s1) = Some start ->
  let df := nth r h empty_frame in
  exists last_period,
    df_base (self s1) = Some (length h) /\
    nth (length h) (heap s1) empty_frame = df /\
    lastE (index df) = inr last_period /\
    In start (index df).
Proof.
  intros Hrun Hstart df. apply fit_returns in Hrun. cbv zeta in Hrun. fold df in Hrun.
  destruct Hrun as (extra & c & col & lastp & pre & p & post & l' & ratio & e & o & H).
  destruct H as (Hh & Hc & Hget & Hlast & Hpos & Hl & Hcr & Hgt & Hlt & Hyr & He & Hs).
  destruct s1 as [h1 m1]. cbn [heap self] in *. subst m1.
  cbn in Hstart. injection Hstart as <-.
  exists lastp. split; [reflexivity|].
  split; [rewrite Hh; apply nth_middle|].
  split; [exact Hlast|].
  eapply candidate_ratio_in_index. exact Hcr.
Qed.

Lemma predict_default_run (r : ref) (h : list DataFrame) (c0 : Z)
    (anos : list Z) (ml mg : Z) (s1 : St) (start : Period) :
  fit corr r (mkSt h (init c0 anos ml mg)) = (s1, inr tt) ->
  period_escolhido_ini_ (self s1) = Some start ->
  let df := nth r h empty_frame in
  let taken := firstn (Z.to_nat (13 - month start)) (rows_from start df) in
  exists s2 out last_period,
    predict None s1 = (s2, inr out) /\
    predict (Some 0) s1 = (s2, inr out) /\
    lastE (index df) = inr last_period /\
    values (nth out (heap s2) empty_frame) = map snd taken /\
    index (nth out (heap s2) empty_frame)
    = period_range (last_period + 1) (length taken) /\
    In start (index df).
Proof.
  intros Hrun Hstart df taken.
  destruct (fitted_state r h c0 anos ml mg s1 start Hrun Hstart)
    as (lastp & Hb & Hbase & Hlast & Hin).
  fold df in Hbase, Hlast, Hin.
  destruct s1 as [h1 m1]. cbn [heap self] in *.
  pose proof (month_range start) as Hm.
  assert (Htaken : iloc_head (13 - month start) (rows_from start df) = taken).
  { Local Transparent iloc_head. unfold iloc_head. Local Opaque iloc_head.
    destruct (0 <=? 13 - month start) eqn:E; [reflexivity|].
    apply Z.leb_gt in E. lia. }
  assert (Hrun_of : forall num, horizon num start = 13 - month start ->
            predict num (mkSt h1 m1) =
            (mkSt (h1 ++ [set_index (period_range (lastp + 1) (length taken))
                                    (with_rows taken df)]) m1,
             inr (length h1))).
  { intros num Hh.
    rewrite (predict_run_horizon h1 m1 (length h) start lastp num Hb Hstart);
      rewrite ?Hbase; try assumption.
    cbv zeta. rewrite Hh, Htaken. reflexivity. }
  eexists. exists (length h1), lastp.
  split; [apply Hrun_of; reflexivity|].
  split; [apply Hrun_of; reflexivity|].
  split; [exact Hlast|].
  cbn [heap]. rewrite nth_middle.
  destruct (predict_result_frame (lastp + 1) taken df) as (Hv & Hi & _ & _).
  split; [exact Hv|]. split; [exact Hi|]. exact Hin.
Qed.

(** X9.  After a successful [fit], [predict] with no horizon and with the
    horizon 0 do the same thing: both return the rows from the chosen
    start month up to the December of its calendar year (fewer when the
    series ends before), between 1 and 12 rows, relabelled from the month
    after the last one of the series. *)
Theorem predict_default_horizon (r : ref) (h : list DataFrame) (c0 : Z)
    (anos : list Z) (ml mg : Z) (s1 : St) (start : Period) :
  fit corr r (mkSt h (init c0 anos ml mg)) = (s1, inr tt) ->
  period_escolhido_ini_ (self s1) = Some start ->
  let df := nth r h empty_frame in
  let taken := firstn (Z.to_nat (13 - month start)) (rows_from start df) in
  exists s2 out last_period,
    predict None s1 = (s2, inr out) /\
    predict (Some 0) s1 = (s2, inr out) /\
    lastE (index df) = inr last_period /\
    values (nth out (heap s2) empty_frame) = map snd taken /\
    index (nth out (heap s2) empty_frame)
    = period_range (last_period + 1) (length taken) /\
    (1 <= length taken <= 12)%nat.
Proof.
  intros Hrun Hstart df taken.
  destruct (predict_default_run r h c0 anos ml mg s1 start Hrun Hstart)
    as (s2 & out & lastp & Hn & Hz & Hlast & Hv & Hi & Hin).
  exists s2, out, lastp.
  repeat (split; [assumption|]).
  pose proof (month_range start) as Hm.
  destruct (rows_from_head _ _ Hin) as [row [rest Hrows]].
  unfold taken, df. rewrite Hrows. rewrite length_firstn. cbn [length].
  lia.
Qed.

(** X10.  On a series of consecutive months the default forecast copies
    the months from the chosen start to the December of the same calendar
    year, or to the end of the series when that comes first: the copied
    rows are consecutive months, all of the year of the start month. *)
Theorem predict_default_stays_in_chosen_year (r : ref) (h : list DataFrame) (c0 : Z)
    (anos : list Z) (ml mg : Z) (s1 : St) (start : Period) :
  fit corr r (mkSt h (init c0 anos ml mg)) = (s1, inr tt) ->
  period_escolhido_ini_ (self s1) = Some start ->
  contiguous (nth r h empty_frame) ->
  let df := nth r h empty_frame in
  let taken := firstn (Z.to_nat (13 - month start)) (rows_from start df) in
  exists s2 out last_period,
    predict None s1 = (s2, inr out) /\
    lastE (index df) = inr last_period /\
    values (nth out (heap s2) empty_frame) = map snd taken /\
    map fst taken = period_range start (length taken) /\
    length taken = Z.to_nat (Z.min (13 - month start) (last_period - start + 1)) /\
    Forall (fun q => year q = year start) (map fst taken).
Proof.
  intros Hrun Hstart [s0 Hcont] df taken.
  destruct (predict_default_run r h c0 anos ml mg s1 start Hrun Hstart)
    as (s2 & out & lastp & Hp & _ & Hlast & Hv & _ & Hin).
  fold df in Hlast, Hv, Hin, Hcont. fold taken in Hv.
  exists s2, out, lastp. split; [exact Hp|]. split; [exact Hlast|]. split; [exact Hv|].
  pose proof (month_range start) as Hm.
  rewrite Hcont in Hlast. apply lastE_period_range in Hlast. destruct Hlast as [Hlp Hn].
  assert (Hrange : s0 <= start < s0 + Z.of_nat (length (rows df))).
  { apply in_period_range. rewrite <- Hcont. exact Hin. }
  assert (Hfst : map fst taken
                 = period_range start
                     (Nat.min (Z.to_nat (13 - month start))
                              (Z.to_nat (s0 + Z.of_nat (length (rows df)) - start)))).
  { pose proof (drop_until_period_range start s0 (rows df) Hcont Hrange) as Hd.
    unfold taken, rows_from. rewrite <- firstn_map.
    etransitivity; [exact (f_equal (firstn _) Hd) | apply firstn_period_range]. }
  assert (Hlen : length taken
                 = Nat.min (Z.to_nat (13 - month start))
                           (Z.to_nat (s0 + Z.of_nat (length (rows df)) - start))).
  { rewrite <- (length_map fst), Hfst. apply length_period_range. }
  split; [rewrite Hlen; exact Hfst|].
  split; [rewrite Hlen; lia|].
  rewrite Hfst. apply Forall_forall. intros q Hq.
  apply in_map_iff in Hq. destruct Hq as [k [<- Hk]]. apply in_seq in Hk.
  apply same_year_within; lia.
Qed.

(** X11.  A negative horizon is not refused: after a successful [fit],
    [predict] with [k < 0] returns the rows from the chosen start month
    to the end of the series without the last [-k] of them (none when
    fewer remain). *)
Theorem predict_negative_horizon_drops_tail (r : ref) (h : list DataFrame) (c0 : Z)
    (anos : list Z) (ml mg : Z) (s1 : St) (start : Period) (k : Z) :
  fit corr r (mkSt h (init c0 anos ml mg)) = (s1, inr tt) ->
  period_escolhido_ini_ (self s1) = Some start ->
  k < 0 ->
  let df := nth r h empty_frame in
  let remaining := rows_from start df in
  let kept := (length remaining - Z.to_nat (- k))%nat in
  exists s2 out last_period,
    predict (Some k) s1 = (s2, inr out) /\
    lastE (index df) = inr last_period /\
    values (nth out (heap s2) empty_frame) = map snd (firstn kept remaining) /\
    index (nth out (heap s2) empty_frame) = period_range (last_period + 1) kept /\
    (kept < length remaining)%nat.
Proof.
  intros Hrun Hstart Hk df remaining kept.
  destruct (fitted_state r h c0 anos ml mg s1 start Hrun Hstart)
    as (lastp & Hb & Hbase & Hlast & Hin).
  fold df in Hbase, Hlast, Hin.
  destruct s1 as [h1 m1]. cbn [heap self] in *.
  destruct (rows_from_head _ _ Hin) as [row [rest Hrows]].
  assert (Hkept : (kept < length remaining)%nat).
  { unfold kept, remaining. rewrite Hrows. cbn [length]. lia. }
  assert (Htaken : iloc_head (horizon (Some k) start) remaining = firstn kept remaining).
  { unfold horizon. destruct (k =? 0) eqn:E0; [apply Z.eqb_eq in E0; lia|].
    Local Transparent iloc_head. unfold iloc_head. Local Opaque iloc_head.
    destruct (0 <=? k) eqn:E; [apply Z.leb_le in E; lia | reflexivity]. }
  eexists. exists (length h1), lastp.
  split.
  { rewrite (predict_run_horizon h1 m1 (length h) start lastp (Some k) Hb Hstart);
      rewrite ?Hbase; try assumption.
    cbv zeta. fold remaining. rewrite Htaken. reflexivity. }
  split; [exact Hlast|].
  cbn [heap]. rewrite nth_middle.
  destruct (predict_result_frame (lastp + 1) (firstn kept remaining) df) as (Hv & Hi & _ & _).
  assert (Hl : length (firstn kept remaining) = kept) by (rewrite length_firstn; lia).
  split; [exact Hv|]. split; [rewrite Hi, Hl; reflexivity|]. exact Hkept.
Qed.

End ExtraPredict.

(* ================================================================== *)
(** ** [calc_corr_last12] does not depend on the calling object *)

Lemma heap_only_ret {A : Type} (a : A) : heap_only (ret a).
Proof. intros h m m'. reflexivity. Qed.

Lemma heap_only_raise {A : Type} (e : exn) : heap_only (@raise A e).
Proof. intros h m m'. reflexivity. Qed.

Lemma heap_only_lift {A : Type} (x : exn + A) : heap_only (lift x).
Proof. destruct x; [apply heap_only_raise | apply heap_only_ret]. Qed.

Lemma heap_only_deref (r : ref) : heap_only (deref r).
Proof. intros h m m'. reflexivity. Qed.

Lemma heap_only_alloc (d : DataFrame) : heap_only (alloc d).
Proof. intros h m m'. reflexivity. Qed.

Lemma heap_only_mutate (r : ref) (f : DataFrame -> DataFrame) : heap_only (mutate r f).
Proof. intros h m m'. reflexivity. Qed.

Lemma heap_only_bind {A B : Type} (c : M A) (k : A -> M B) :
  heap_only c -> (forall a, heap_only (k a)) -> heap_only (bind c k).
Proof.
  intros Hc Hk h m m'. unfold bind. rewrite (Hc h m m').
  destruct (c (mkSt h m)) as [[h1 m1] [e|a]]; cbn [fst snd heap].
  - reflexivity.
  - apply Hk.
Qed.

Lemma heap_only_copy (r : ref) : heap_only (copy r).
Proof.
  unfold copy. apply heap_only_bind; [apply heap_only_deref|].
  intros d. apply heap_only_alloc.
Qed.

Lemma heap_only_spread (o : ref) (tr : list (Period * Row)) (months : list Z) :
  heap_only (spread o tr months).
Proof.
  induction months as [|mo ms IH].
  - apply heap_only_ret.
  - cbn [spread]. apply heap_only_bind; [apply heap_only_lift|]. intros v.
    apply heap_only_bind; [apply heap_only_mutate|]. intros _. exact IH.
Qed.

Section ExtraSimple.

Variable corr : nat -> list float -> list float -> float.

Lemma heap_only_calc_corr_last12 (r : ref) : heap_only (calc_corr_last12 corr r).
Proof.
  unfold calc_corr_last12.
  apply heap_only_bind; [apply heap_only_deref|]. intros hist.
  destruct (index_freq hist) as [|[|]]; cbn [negb];
    [apply heap_only_raise | | apply heap_only_raise].
  apply heap_only_bind; [apply heap_only_copy|]. intros df_ref.
  apply heap_only_bind; [apply heap_only_deref|]. intros ref_now.
  apply heap_only_bind; [apply heap_only_copy|]. intros df_other.
  apply heap_only_bind; [apply heap_only_spread|]. intros _.
  apply heap_only_bind; [apply heap_only_deref|]. intros x.
  apply heap_only_bind; [apply heap_only_deref|]. intros y.
  apply heap_only_bind; [apply heap_only_lift|]. intros mes_final.
  apply heap_only_bind; [apply heap_only_alloc|]. intros df_corr.
  apply heap_only_bind; [apply heap_only_mutate|]. intros _.
  apply heap_only_ret.
Qed.

(** Whatever the model object, [calc_corr_last12] does to the store what
    [calc_corr_last12_store] says, and leaves the object alone. *)
Lemma calc_corr_last12_of_store (r : ref) (h : list DataFrame) (m : CorrelacaoAmplitude) :
  calc_corr_last12 corr r (mkSt h m)
  = (mkSt (fst (calc_corr_last12_store corr r h)) m,
     snd (calc_corr_last12_store corr r h)).
Proof.
  unfold calc_corr_last12_store. cbn [fst snd].
  apply heap_only_calc_corr_last12.
Qed.

End ExtraSimple.

(* ================================================================== *)
(** ** [SimpleCorrelation12] *)

Lemma py_index_map {A B : Type} (f : A -> B) (i : Z) (l : list A) :
  py_index i (map f l)
  = match py_index i l with
    | inl e => inl e
    | inr x => inr (f x)
    end.
Proof.
  unfold py_index. rewrite length_map.
  destruct ((0 <=? _) && _); [|reflexivity].
  rewrite nth_error_map. destruct (nth_error l _); reflexivity.
Qed.

Lemma py_index_in_range {A : Type} (i : Z) (l : list A) :
  - Z.of_nat (length l) <= i < Z.of_nat (length l) ->
  exists x, py_index i l = inr x /\ In x l.
Proof.
  intros Hi. unfold py_index.
  destruct (i <? 0) eqn:E; [apply Z.ltb_lt in E | apply Z.ltb_ge in E].
  - replace ((0 <=? Z.of_nat (length l) + i) && (Z.of_nat (length l) + i <? Z.of_nat (length l)))
      with true
      by (symmetry; apply andb_true_iff; split; [apply Z.leb_le | apply Z.ltb_lt]; lia).
    destruct (nth_error l (Z.to_nat (Z.of_nat (length l) + i))) as [x|] eqn:En.
    + exists x. split; [reflexivity|]. eapply nth_error_In. exact En.
    + apply nth_error_None in En. lia.
  - replace ((0 <=? i) && (i <? Z.of_nat (length l))) with true
      by (symmetry; apply andb_true_iff; split; [apply Z.leb_le | apply Z.ltb_lt]; lia).
    destruct (nth_error l (Z.to_nat i)) as [x|] eqn:En.
    + exists x. split; [reflexivity|]. eapply nth_error_In. exact En.
    + apply nth_error_None in En. lia.
Qed.

Lemma py_index_out_of_range {A : Type} (i : Z) (l : list A) :
  ~ (- Z.of_nat (length l) <= i < Z.of_nat (length l)) ->
  py_index i l = inl IndexError.
Proof.
  intros Hi. unfold py_index.
  destruct (i <? 0) eqn:E; [apply Z.ltb_lt in E | apply Z.ltb_ge in E];
    match goal with |- context [?a && ?b] => destruct (a && b) eqn:B end;
    try reflexivity;
    apply andb_true_iff in B; destruct B as [B1 B2];
    apply Z.leb_le in B1; apply Z.ltb_lt in B2; lia.
Qed.

Lemma py_index_found {A : Type} (i : Z) (l : list A) (x : A) :
  py_index i l = inr x ->
  In x l /\ - Z.of_nat (length l) <= i < Z.of_nat (length l).
Proof.
  intros H.
  destruct (Z_le_dec (- Z.of_nat (length l)) i) as [H1|H1];
    [destruct (Z_lt_dec i (Z.of_nat (length l))) as [H2|H2]|].
  - destruct (py_index_in_range i l (conj H1 H2)) as [y [Hy Hin]].
    rewrite Hy in H. injection H as <-. split; [exact Hin | lia].
  - rewrite py_index_out_of_range in H by lia. discriminate H.
  - rewrite py_index_out_of_range in H by lia. discriminate H.
Qed.

Lemma py_index_error {A : Type} (i : Z) (l : list A) (e : exn) :
  py_index i l = inl e -> e = IndexError.
Proof.
  unfold py_index. destruct ((0 <=? _) && _); [destruct (nth_error l _)|];
    intros H; [discriminate H| |]; injection H as <-; reflexivity.
Qed.

(** A label of the ranking is a label of the table it was built from. *)
Lemma ranking_label_in_table (c0 : Z) (table : DataFrame) (col : Series)
    (entry : Period * float) :
  getitem c0 table = inr col ->
  In entry (sort_values_desc col) ->
  In (fst entry) (index table).
Proof.
  intros Hget Hin. rewrite <- (getitem_index _ _ _ Hget).
  apply in_map. eapply Permutation_in; [apply sort_values_desc_perm | exact Hin].
Qed.

Lemma monotonic_le_last (l : list Period) (x : Period) :
  is_monotonic_increasing l = true -> lastE l = inr x ->
  forall y, In y l -> y <= x.
Proof.
  induction l as [|a l IH]; intros Hm Hl y Hy; [destruct Hy|].
  destruct (monotonic_tail a l Hm) as [Hm' Hle].
  destruct l as [|b l'].
  - cbn in Hl. injection Hl as <-. destruct Hy as [<-|[]]. lia.
  - assert (Hl' : lastE (b :: l') = inr x).
    { unfold lastE in *. cbn [rev] in *.
      destruct (rev l' ++ [b]) as [|z zs] eqn:E.
      - destruct (rev l'); discriminate E.
      - cbn [app] in Hl. exact Hl. }
    destruct Hy as [<-|Hy].
    + assert (Hx : In x (b :: l')).
      { unfold lastE in Hl'. destruct (rev (b :: l')) as [|z zs] eqn:E; [discriminate Hl'|].
        injection Hl' as <-. apply in_rev. rewrite E. left. reflexivity. }
      apply Hle. exact Hx.
    + apply (IH Hm' Hl' y Hy).
Qed.

Lemma drop_until_none {A : Type} (p : A -> bool) (l : list A) :
  (forall x, In x l -> p x = false) -> drop_until p l = [].
Proof.
  induction l as [|a l IH]; intros H; [reflexivity|].
  cbn [drop_until]. rewrite (H a) by (left; reflexivity).
  apply IH. intros x Hx. apply H. right. exact Hx.
Qed.

Section ExtraSimpleFit.

Variable corr : nat -> list float -> list float -> float.

Lemma calc_store_run (r : ref) (h : list DataFrame) :
  freq_month_end (nth r h empty_frame) = true ->
  months_covered (iloc_tail 12 (rows (nth r h empty_frame))) = true ->
  exists last_period,
    lastE (index (nth r h empty_frame)) = inr last_period /\
    calc_corr_last12_store corr r (h ++ [nth r h empty_frame])
    = ((h ++ [nth r h empty_frame])
         ++ [nth r h empty_frame;
             broadcast (iloc_tail 12 (rows (nth r h empty_frame))) (nth r h empty_frame);
             correlation_table corr (nth r h empty_frame) last_period],
       inr (length h + 3)%nat).
Proof.
  intros Hf Hm. set (df := nth r h empty_frame) in *.
  assert (Hn : nth r (h ++ [df]) empty_frame = df) by apply nth_after_own_copy.
  destruct (calc_corr_last12_run corr r (mkSt (h ++ [df]) (init 0 [] 0 0)))
    as [lastp [Hl Hrun]]; cbn [heap]; rewrite ?Hn; try assumption.
  cbn [heap self] in Hl, Hrun. rewrite Hn in Hl, Hrun.
  exists lastp. split; [exact Hl|].
  unfold calc_corr_last12_store. rewrite Hrun. cbn [fst snd heap].
  f_equal. f_equal. rewrite length_app. cbn [length]. lia.
Qed.

(** [calc_corr_last12] returns only on a monthly frame whose last twelve
    rows cover the calendar. *)
Lemma calc_store_returns (r : ref) (h h2 : list DataFrame) (c : ref) :
  calc_corr_last12_store corr r h = (h2, inr c) ->
  freq_month_end (nth r h empty_frame) = true /\
  months_covered (iloc_tail 12 (rows (nth r h empty_frame))) = true.
Proof.
  unfold calc_corr_last12_store. intros H.
  apply (f_equal snd) in H. cbn [snd] in H.
  destruct (freq_month_end (nth r h empty_frame)) eqn:Hf.
  - split; [reflexivity|].
    destruct (months_covered (iloc_tail 12 (rows (nth r h empty_frame)))) eqn:Hm;
      [reflexivity|].
    destruct (missing_month_index_error corr r (mkSt h (init 0 [] 0 0)) Hf Hm) as [Hc _].
    rewrite Hc in H. discriminate H.
  - rewrite (calc_refuses corr r (mkSt h (init 0 [] 0 0)) Hf) in H. discriminate H.
Qed.

(** The outcomes of [SimpleCorrelation12.fit]. *)
Lemma simple_fit_cases (r : ref) (h : list DataFrame) (m : SimpleCorrelation12.Obj)
    (s' : SimpleCorrelation12.St) (res : exn + unit) :
  SimpleCorrelation12.fit corr r (SimpleCorrelation12.mkSt h m) = (s', res) ->
  SimpleCorrelation12.heap s'
  = fst (calc_corr_last12_store corr r (h ++ [nth r h empty_frame])) /\
  SimpleCorrelation12.df_base (SimpleCorrelation12.self s') = Some (length h) /\
  ((exists e, res = inl e /\
      SimpleCorrelation12._period_ (SimpleCorrelation12.self s')
      = SimpleCorrelation12._period_ m)
   \/
   (exists c col entry outros,
      res = inr tt /\
      snd (calc_corr_last12_store corr r (h ++ [nth r h empty_frame])) = inr c /\
      getitem (SimpleCorrelation12.coluna m) (nth c (SimpleCorrelation12.heap s') empty_frame)
      = inr col /\
      py_index (SimpleCorrelation12.posicao m) (sort_values_desc col) = inr entry /\
      loc (fst entry) (nth c (SimpleCorrelation12.heap s') empty_frame) = inr outros /\
      SimpleCorrelation12.self s'
      = SimpleCorrelation12.set_mes_final_periodo (year (fst entry), month (fst entry))
          (SimpleCorrelation12.set_correlacao_outros outros
             (SimpleCorrelation12.set_correlacao (snd entry)
                (SimpleCorrelation12.set_period (fst entry)
                   (SimpleCorrelation12.set_df_correlacao c
                      (SimpleCorrelation12.set_df_base (length h) m))))))).
Proof.
  unfold SimpleCorrelation12.fit.
  cbn [SimpleCorrelation12.heap SimpleCorrelation12.self].
  destruct (calc_corr_last12_store corr r (h ++ [nth r h empty_frame])) as [h2 [e|c]].
  { intros H. injection H as <- <-. cbn. split; [reflexivity|]. split; [reflexivity|].
    left. exists e. split; reflexivity. }
  cbn [SimpleCorrelation12.coluna SimpleCorrelation12.posicao
       SimpleCorrelation12.set_df_correlacao SimpleCorrelation12.set_df_base
       SimpleCorrelation12.set_period SimpleCorrelation12.set_correlacao].
  destruct (getitem (SimpleCorrelation12.coluna m) (nth c h2 empty_frame)) as [e|col] eqn:Hget.
  { intros H. injection H as <- <-. cbn. split; [reflexivity|]. split; [reflexivity|].
    left. exists e. split; reflexivity. }
  rewrite !py_index_map.
  destruct (py_index (SimpleCorrelation12.posicao m) (sort_values_desc col))
    as [e|entry] eqn:Hpy.
  { intros H. injection H as <- <-. cbn. split; [reflexivity|]. split; [reflexivity|].
    left. exists e. split; reflexivity. }
  destruct (py_index_found _ _ _ Hpy) as [Hin _].
  destruct (loc_defined (fst entry) (nth c h2 empty_frame)
              (ranking_label_in_table _ _ _ _ Hget Hin)) as [outros Hloc].
  rewrite Hloc.
  intros H. injection H as <- <-. cbn [SimpleCorrelation12.heap SimpleCorrelation12.self fst snd].
  split; [reflexivity|]. split; [reflexivity|].
  right. exists c, col, entry, outros.
  repeat split; try assumption.
Qed.

End ExtraSimpleFit.

Lemma position_In (c : Z) (l : list Z) : In c l -> exists j, position c l = Some j.
Proof.
  induction l as [|x l IH]; intros H; [destruct H|].
  cbn [position]. destruct (x =? c) eqn:E; [eauto|].
  destruct H as [->|H]; [rewrite Z.eqb_refl in E; discriminate E|].
  destruct (IH H) as [j Hj]. rewrite Hj. cbn. eauto.
Qed.

Lemma py_index_nth_error {A : Type} (k : nat) (l : list A) (x : A) :
  nth_error l k = Some x -> py_index (Z.of_nat k) l = inr x.
Proof.
  intros H. assert (Hk : (k < length l)%nat) by (apply nth_error_Some; congruence).
  unfold py_index.
  replace (Z.of_nat k <? 0) with false by (symmetry; apply Z.ltb_ge; lia).
  replace ((0 <=? Z.of_nat k) && (Z.of_nat k <? Z.of_nat (length l))) with true
    by (symmetry; apply andb_true_iff; split; [apply Z.leb_le | apply Z.ltb_lt]; lia).
  rewrite Nat2Z.id, H. reflexivity.
Qed.

Section ExtraSimpleTheorems.

Variable corr : nat -> list float -> list float -> float.

Lemma correlation_table_index (d : DataFrame) (last_period : Period) :
  index (correlation_table corr d last_period)
  = filter (fun p => month p =? month last_period) (index d).
Proof.
  unfold correlation_table, with_index_name, with_rows, index. cbn [rows].
  rewrite select_month_index, rolling_corr_index. reflexivity.
Qed.

Lemma rows_in_last_month_table (d : DataFrame) (last_period : Period) :
  lastE (index d) = inr last_period ->
  length (rows (correlation_table corr d last_period)) = rows_in_last_month d.
Proof.
  intros Hl. unfold rows_in_last_month. rewrite Hl.
  rewrite <- (length_map fst (rows (correlation_table corr d last_period))).
  change (map fst (rows (correlation_table corr d last_period)))
    with (index (correlation_table corr d last_period)).
  rewrite correlation_table_index.
  rewrite <- (length_map fst (select_month (month last_period) (rows d))).
  rewrite select_month_index. reflexivity.
Qed.

Lemma getitem_length (c : Z) (d : DataFrame) (col : Series) :
  getitem c d = inr col -> length col = length (rows d).
Proof.
  intros H. rewrite <- (length_map fst col), (getitem_index _ _ _ H).
  unfold index. apply length_map.
Qed.

Lemma getitem_known_column (c : Z) (d : DataFrame) :
  In c (columns d) -> exists col, getitem c d = inr col.
Proof.
  intros H. destruct (position_In _ _ H) as [j Hj].
  unfold getitem. rewrite Hj. eauto.
Qed.

(** [SimpleCorrelation12.fit] once the table and the station's column are
    there. *)
Lemma simple_fit_eval (r : ref) (h h2 : list DataFrame) (m : SimpleCorrelation12.Obj)
    (c : ref) (col : Series) :
  calc_corr_last12_store corr r (h ++ [nth r h empty_frame]) = (h2, inr c) ->
  getitem (SimpleCorrelation12.coluna m) (nth c h2 empty_frame) = inr col ->
  SimpleCorrelation12.fit corr r (SimpleCorrelation12.mkSt h m)
  = match py_index (SimpleCorrelation12.posicao m) (sort_values_desc col) with
    | inl e =>
        (SimpleCorrelation12.mkSt h2
           (SimpleCorrelation12.set_df_correlacao c
              (SimpleCorrelation12.set_df_base (length h) m)),
         inl e)
    | inr entry =>
        match loc (fst entry) (nth c h2 empty_frame) with
        | inl e =>
            (SimpleCorrelation12.mkSt h2
               (SimpleCorrelation12.set_correlacao (snd entry)
                  (SimpleCorrelation12.set_period (fst entry)
                     (SimpleCorrelation12.set_df_correlacao c
                        (SimpleCorrelation12.set_df_base (length h) m)))),
             inl e)
        | inr outros =>
            (SimpleCorrelation12.mkSt h2
               (SimpleCorrelation12.set_mes_final_periodo
                  (year (fst entry), month (fst entry))
                  (SimpleCorrelation12.set_correlacao_outros outros
                     (SimpleCorrelation12.set_correlacao (snd entry)
                        (SimpleCorrelation12.set_period (fst entry)
                           (SimpleCorrelation12.set_df_correlacao c
                              (SimpleCorrelation12.set_df_base (length h) m)))))),
             inr tt)
        end
    end.
Proof.
  intros Hstore Hget. unfold SimpleCorrelation12.fit.
  cbn [SimpleCorrelation12.heap SimpleCorrelation12.self].
  rewrite Hstore.
  cbn [SimpleCorrelation12.coluna SimpleCorrelation12.posicao
       SimpleCorrelation12.set_df_correlacao SimpleCorrelation12.set_df_base
       SimpleCorrelation12.set_period SimpleCorrelation12.set_correlacao].
  rewrite Hget. rewrite !py_index_map.
  destruct (py_index (SimpleCorrelation12.posicao m) (sort_values_desc col)); reflexivity.
Qed.

Lemma nth_store_table (h : list DataFrame) (a b t : DataFrame) :
  nth (length h + 3) ((h ++ [a]) ++ [a; b; t]) empty_frame = t.
Proof.
  rewrite app_nth2 by (rewrite length_app; cbn [length]; lia).
  rewrite length_app. cbn [length].
  replace (length h + 3 - (length h + 1))%nat with 2%nat by lia. reflexivity.
Qed.

(** What the two in-range and out-of-range statements share: the table,
    the station's column and the length of the ranking. *)
Lemma simple_fit_setup (r : ref) (h : list DataFrame) (c0 : Z) :
  freq_month_end (nth r h empty_frame) = true ->
  months_covered (iloc_tail 12 (rows (nth r h empty_frame))) = true ->
  In c0 (columns (nth r h empty_frame)) ->
  exists last_period h2 col,
    lastE (index (nth r h empty_frame)) = inr last_period /\
    calc_corr_last12_store corr r (h ++ [nth r h empty_frame])
    = (h2, inr (length h + 3)%nat) /\
    nth (length h + 3) h2 empty_frame
    = correlation_table corr (nth r h empty_frame) last_period /\
    getitem c0 (correlation_table corr (nth r h empty_frame) last_period) = inr col /\
    ranking_from corr c0 (nth r h empty_frame) = sort_values_desc col /\
    length (sort_values_desc col) = rows_in_last_month (nth r h empty_frame).
Proof.
  intros Hf Hm Hc.
  destruct (calc_store_run corr r h Hf Hm) as [lastp [Hl Hstore]].
  destruct (getitem_known_column c0 (correlation_table corr (nth r h empty_frame) lastp) Hc)
    as [col Hget].
  exists lastp. eexists. exists col.
  split; [exact Hl|]. split; [exact Hstore|].
  split; [apply nth_store_table|]. split; [exact Hget|].
  split.
  - unfold ranking_from. rewrite Hl, Hget. reflexivity.
  - rewrite sort_values_desc_length, (getitem_length _ _ _ Hget).
    apply rows_in_last_month_table. exact Hl.
Qed.

(** X12.  [SimpleCorrelation12.fit] takes the entry at the requested
    position of the ranking, read as Python reads an index (negative
    positions count from the least correlated end), and makes no other
    test: on a monthly series whose last twelve rows cover the calendar,
    for a station of the series and a position within the ranking, it
    returns, [_period_] is the label of that entry, [correlacao_] its
    coefficient, and the label is a month of the series in the calendar
    month of its last row. *)
Theorem simple_fit_picks_requested_position (r : ref) (h : list DataFrame) (c0 pos : Z) :
  freq_month_end (nth r h empty_frame) = true ->
  months_covered (iloc_tail 12 (rows (nth r h empty_frame))) = true ->
  In c0 (columns (nth r h empty_frame)) ->
  - Z.of_nat (rows_in_last_month (nth r h empty_frame)) <= pos
    < Z.of_nat (rows_in_last_month (nth r h empty_frame)) ->
  exists entry last_period s',
    py_index pos (ranking_from corr c0 (nth r h empty_frame)) = inr entry /\
    lastE (index (nth r h empty_frame)) = inr last_period /\
    SimpleCorrelation12.fit corr r
      (SimpleCorrelation12.mkSt h (SimpleCorrelation12.init c0 (Some pos)))
    = (s', inr tt) /\
    SimpleCorrelation12._period_ (SimpleCorrelation12.self s') = Some (fst entry) /\
    SimpleCorrelation12.correlacao_ (SimpleCorrelation12.self s') = Some (snd entry) /\
    SimpleCorrelation12.mes_final_periodo_ (SimpleCorrelation12.self s')
    = Some (year (fst entry), month (fst entry)) /\
    In (fst entry) (index (nth r h empty_frame)) /\
    month (fst entry) = month last_period.
Proof.
  intros Hf Hm Hc Hpos.
  destruct (simple_fit_setup r h c0 Hf Hm Hc)
    as (lastp & h2 & col & Hl & Hstore & Htable & Hget & Hrank & Hlen).
  rewrite <- Hlen in Hpos.
  destruct (py_index_in_range pos (sort_values_desc col) Hpos) as [entry [Hpy Hin]].
  assert (Hlabel : In (fst entry)
                      (index (correlation_table corr (nth r h empty_frame) lastp)))
    by (eapply ranking_label_in_table; eassumption).
  destruct (loc_defined _ _ Hlabel) as [outros Hloc].
  exists entry, lastp. eexists.
  split; [rewrite Hrank; exact Hpy|]. split; [exact Hl|].
  split.
  { rewrite (simple_fit_eval r h h2 _ _ col Hstore); [|rewrite Htable; exact Hget].
    cbn [SimpleCorrelation12.posicao SimpleCorrelation12.init].
    rewrite Hpy, Htable, Hloc. reflexivity. }
  cbn [SimpleCorrelation12.self SimpleCorrelation12._period_ SimpleCorrelation12.correlacao_
       SimpleCorrelation12.mes_final_periodo_ SimpleCorrelation12.set_mes_final_periodo
       SimpleCorrelation12.set_correlacao_outros SimpleCorrelation12.set_correlacao
       SimpleCorrelation12.set_period].
  repeat (split; [reflexivity|]).
  rewrite correlation_table_index in Hlabel. apply filter_In in Hlabel.
  destruct Hlabel as [Hi Hmo]. apply Z.eqb_eq in Hmo. split; assumption.
Qed.

(** X13.  With a position outside the ranking, in the same setting,
    [SimpleCorrelation12.fit] raises [IndexError] after having assigned
    [df_base] and [df_correlacao]; no window is chosen. *)
Theorem simple_fit_position_out_of_range (r : ref) (h : list DataFrame) (c0 pos : Z) :
  freq_month_end (nth r h empty_frame) = true ->
  months_covered (iloc_tail 12 (rows (nth r h empty_frame))) = true ->
  In c0 (columns (nth r h empty_frame)) ->
  ~ (- Z.of_nat (rows_in_last_month (nth r h empty_frame)) <= pos
     < Z.of_nat (rows_in_last_month (nth r h empty_frame))) ->
  exists s',
    SimpleCorrelation12.fit corr r
      (SimpleCorrelation12.mkSt h (SimpleCorrelation12.init c0 (Some pos)))
    = (s', inl IndexError) /\
    SimpleCorrelation12._period_ (SimpleCorrelation12.self s') = None /\
    SimpleCorrelation12.correlacao_ (SimpleCorrelation12.self s') = None /\
    SimpleCorrelation12.df_base (SimpleCorrelation12.self s') = Some (length h) /\
    SimpleCorrelation12.df_correlacao (SimpleCorrelation12.self s')
    = Some (length h + 3)%nat.
Proof.
  intros Hf Hm Hc Hpos.
  destruct (simple_fit_setup r h c0 Hf Hm Hc)
    as (lastp & h2 & col & Hl & Hstore & Htable & Hget & Hrank & Hlen).
  rewrite <- Hlen in Hpos.
  eexists. split.
  { rewrite (simple_fit_eval r h h2 _ _ col Hstore); [|rewrite Htable; exact Hget].
    cbn [SimpleCorrelation12.posicao SimpleCorrelation12.init].
    rewrite (py_index_out_of_range pos _ Hpos). reflexivity. }
  cbn. repeat split; reflexivity.
Qed.

(** X14.  [SimpleCorrelation12.predict] on a model that has no chosen
    window, a new one or one whose [fit] raised, raises the exception
    with the message that asks for a fit, and changes nothing. *)
Theorem simple_predict_without_fit (r : ref) (h : list DataFrame) (c0 : Z)
    (pos : option Z) (s' : SimpleCorrelation12.St) (e : exn) (n : option Z) :
  SimpleCorrelation12.fit corr r
    (SimpleCorrelation12.mkSt h (SimpleCorrelation12.init c0 pos))
  = (s', inl e) ->
  SimpleCorrelation12.predict n s' = (s', inl (Exception msg_not_fitted)) /\
  SimpleCorrelation12.predict n
    (SimpleCorrelation12.mkSt h (SimpleCorrelation12.init c0 pos))
  = (SimpleCorrelation12.mkSt h (SimpleCorrelation12.init c0 pos),
     inl (Exception msg_not_fitted)).
Proof.
  intros Hrun. split; [|reflexivity].
  apply simple_fit_cases in Hrun.
  destruct Hrun as (_ & _ & [(e' & _ & Hp) | (c & col & entry & outros & Hres & _)]);
    [|discriminate Hres].
  unfold SimpleCorrelation12.predict. rewrite Hp. reflexivity.
Qed.

(** The store and the object after a [SimpleCorrelation12.fit] that
    returned. *)
Lemma simple_fitted_state (r : ref) (h : list DataFrame) (m : SimpleCorrelation12.Obj)
    (s1 : SimpleCorrelation12.St) :
  SimpleCorrelation12.fit corr r (SimpleCorrelation12.mkSt h m) = (s1, inr tt) ->
  exists p last_period extra,
    SimpleCorrelation12._period_ (SimpleCorrelation12.self s1) = Some p /\
    SimpleCorrelation12.df_base (SimpleCorrelation12.self s1) = Some (length h) /\
    SimpleCorrelation12.heap s1 = h ++ nth r h empty_frame :: extra /\
    lastE (index (nth r h empty_frame)) = inr last_period /\
    In p (index (nth r h empty_frame)) /\
    month p = month last_period.
Proof.
  intros Hrun. apply simple_fit_cases in Hrun.
  destruct Hrun as (Hheap & Hbase & [(e' & Hres & _) | (c & col & entry & outros & H)]);
    [discriminate Hres|].
  destruct H as (_ & Hc & Hget & Hpy & Hloc & Hself).
  destruct (calc_corr_last12_store corr r (h ++ [nth r h empty_frame])) as [h2 res2] eqn:Hst.
  cbn [fst snd] in Hheap, Hc. subst res2.
  destruct (calc_store_returns corr r _ _ _ Hst) as [Hf Hm].
  rewrite nth_after_own_copy in Hf, Hm.
  destruct (calc_store_run corr r h Hf Hm) as [lastp [Hl Hstore]].
  rewrite Hst in Hstore. injection Hstore as Hh2 Hceq.
  exists (fst entry), lastp. eexists.
  split; [rewrite Hself; reflexivity|]. split; [exact Hbase|].
  split; [rewrite Hheap, Hh2, <- app_assoc; reflexivity|].
  split; [exact Hl|].
  destruct (py_index_found _ _ _ Hpy) as [Hin _].
  pose proof (ranking_label_in_table _ _ _ _ Hget Hin) as Hlabel.
  rewrite Hheap, Hh2, Hceq, nth_store_table, correlation_table_index in Hlabel.
  apply filter_In in Hlabel. destruct Hlabel as [Hi Hmo]. apply Z.eqb_eq in Hmo.
  split; assumption.
Qed.

(** X15.  For a series indexed by monthly periods in increasing order:
    after a [SimpleCorrelation12.fit] that returned, [predict] returns a
    copy of the rows labelled after the chosen window, as many as the
    horizon says, relabelled from the month after the last one of the
    series.  When the chosen window is the reference window itself there
    is no such row and the forecast is empty. *)
Theorem simple_predict_after_fit (r : ref) (h : list DataFrame) (c0 : Z)
    (pos : option Z) (s1 : SimpleCorrelation12.St) (num : option Z) :
  freq_month_end (nth r h empty_frame) = true ->
  SimpleCorrelation12.fit corr r
    (SimpleCorrelation12.mkSt h (SimpleCorrelation12.init c0 pos))
  = (s1, inr tt) ->
  is_monotonic_increasing (index (nth r h empty_frame)) = true ->
  exists p last_period s2 out,
    SimpleCorrelation12._period_ (SimpleCorrelation12.self s1) = Some p /\
    lastE (index (nth r h empty_frame)) = inr last_period /\
    SimpleCorrelation12.predict num s1 = (s2, inr out) /\
    values (nth out (SimpleCorrelation12.heap s2) empty_frame)
    = map snd (iloc_head (horizon num (p + 1))
                 (drop_until (fun row => p + 1 <=? fst row) (rows (nth r h empty_frame)))) /\
    index (nth out (SimpleCorrelation12.heap s2) empty_frame)
    = period_range (last_period + 1)
        (length (iloc_head (horizon num (p + 1))
                   (drop_until (fun row => p + 1 <=? fst row)
                               (rows (nth r h empty_frame))))) /\
    (p = last_period -> rows (nth out (SimpleCorrelation12.heap s2) empty_frame) = []).
Proof.
  intros _ Hrun Hmono.
  destruct (simple_fitted_state r h _ s1 Hrun)
    as (p & lastp & extra & Hp & Hb & Hheap & Hl & Hin & _).
  destruct s1 as [h1 m1].
  cbn [SimpleCorrelation12.heap SimpleCorrelation12.self] in *.
  assert (Hbase : nth (length h) h1 empty_frame = nth r h empty_frame)
    by (rewrite Hheap; apply nth_middle).
  set (df := nth r h empty_frame) in *.
  set (taken := iloc_head (horizon num (p + 1))
                  (drop_until (fun row => p + 1 <=? fst row) (rows df))).
  exists p, lastp. eexists. exists (length h1).
  split; [exact Hp|]. split; [exact Hl|].
  split.
  { unfold SimpleCorrelation12.predict.
    cbn [SimpleCorrelation12.heap SimpleCorrelation12.self].
    rewrite Hp, Hb, Hbase, Hl. unfold loc_from. rewrite Hmono.
    unfold horizon. reflexivity. }
  cbn [SimpleCorrelation12.heap]. rewrite nth_middle.
  destruct (predict_result_frame (lastp + 1) taken df) as (Hv & Hi & _ & Hlen).
  split; [exact Hv|]. split; [exact Hi|].
  intros Hlast. subst p.
  assert (Hnone : drop_until (fun row => lastp + 1 <=? fst row) (rows df) = []).
  { apply drop_until_none. intros x Hx. apply Z.leb_gt.
    assert (Hle : fst x <= lastp).
    { apply (monotonic_le_last (index df) lastp Hmono Hl). unfold index. apply in_map, Hx. }
    lia. }
  assert (Ht : taken = []).
  { unfold taken. rewrite Hnone. unfold iloc_head.
    destruct (0 <=? _); apply firstn_nil. }
  apply length_zero_iff_nil.
  etransitivity; [exact Hlen | rewrite Ht; reflexivity].
Qed.

(** X16.  [SimpleCorrelation12.fit] and [predict] leave every frame that
    was in the store as it was; [fit] keeps its own copy of the series as
    [df_base]. *)
Theorem simple_methods_leave_input_untouched (r : ref) (h : list DataFrame)
    (m : SimpleCorrelation12.Obj) (n : option Z) :
  firstn (length h)
    (SimpleCorrelation12.heap
       (fst (SimpleCorrelation12.fit corr r (SimpleCorrelation12.mkSt h m)))) = h /\
  firstn (length h)
    (SimpleCorrelation12.heap
       (fst (SimpleCorrelation12.predict n (SimpleCorrelation12.mkSt h m)))) = h /\
  SimpleCorrelation12.df_base
    (SimpleCorrelation12.self
       (fst (SimpleCorrelation12.fit corr r (SimpleCorrelation12.mkSt h m))))
  = Some (length h) /\
  nth (length h)
      (SimpleCorrelation12.heap
         (fst (SimpleCorrelation12.fit corr r (SimpleCorrelation12.mkSt h m))))
      empty_frame
  = nth r h empty_frame.
Proof.
  destruct (SimpleCorrelation12.fit corr r (SimpleCorrelation12.mkSt h m))
    as [s' res] eqn:Hrun.
  apply simple_fit_cases in Hrun. destruct Hrun as (Hheap & Hbase & _).
  cbn [fst].
  assert (Hext : exists extra,
             SimpleCorrelation12.heap s' = (h ++ [nth r h empty_frame]) ++ extra).
  { rewrite Hheap. unfold calc_corr_last12_store. cbn [fst].
    destruct (calc_corr_last12 corr r
                (mkSt (h ++ [nth r h empty_frame]) (init 0 [] 0 0))) as [s1 res1] eqn:Hc.
    apply calc_corr_last12_frame in Hc. destruct Hc as [_ [extra [Hh _]]].
    cbn [fst heap] in *. eauto. }
  destruct Hext as [extra Hext].
  split; [rewrite Hext, <- app_assoc; apply firstn_prefix|].
  split.
  { unfold SimpleCorrelation12.predict.
    cbn [SimpleCorrelation12.heap SimpleCorrelation12.self].
    destruct (SimpleCorrelation12._period_ m);
      [|cbn; rewrite <- (app_nil_r h) at 2; apply firstn_prefix].
    destruct (SimpleCorrelation12.df_base m);
      [|cbn; rewrite <- (app_nil_r h) at 2; apply firstn_prefix].
    destruct (lastE _); [cbn; rewrite <- (app_nil_r h) at 2; apply firstn_prefix|].
    destruct (loc_from _ _); [cbn; rewrite <- (app_nil_r h) at 2; apply firstn_prefix|].
    cbn [fst SimpleCorrelation12.heap]. apply firstn_prefix. }
  split; [exact Hbase|].
  rewrite Hext, <- app_assoc. apply nth_middle.
Qed.

End ExtraSimpleTheorems.

(* ================================================================== *)
(** ** The two models side by side *)

Section ExtraAgreement.

Variable corr : nat -> list float -> list float -> float.

Local Opaque walk finish calc_corr_last12 sort_values_desc ratio_rows column_min
  column_max select_month lastE getitem rolling_corr iloc_tail iloc_head.

(** A [CorrelacaoAmplitude.fit] that returned, with the store
    [calc_corr_last12] left. *)
Lemma fit_returned_store (r : ref) (h : list DataFrame) (c0 : Z) (anos : list Z)
    (ml mg : Z) (s' : St) :
  fit corr r (mkSt h (init c0 anos ml mg)) = (s', inr tt) ->
  exists h2 c col last_period s2 extra,
    calc_corr_last12_store corr r (h ++ [nth r h empty_frame]) = (h2, inr c) /\
    h2 = h ++ nth r h empty_frame :: extra /\
    getitem c0 (nth c h2 empty_frame) = inr col /\
    lastE (index (nth r h empty_frame)) = inr last_period /\
    walk (sort_values_desc col) (seq 1 (length (sort_values_desc col) - 1))
         (mkSt h2 (set_anos_rejeitados []
                     (model_before_walk (init c0 anos ml mg) (length h) c
                                        (nth r h empty_frame) last_period)))
    = (s2, inr tt) /\
    finish (sort_values_desc col) s2 = (s', inr tt).
Proof.
  intros Hrun. rewrite fit_unfold in Hrun. cbv zeta in Hrun.
  set (df := nth r h empty_frame) in *.
  destruct (calc_corr_last12 corr r _) as [s1 [e|c]] eqn:Hcalc; [discriminate Hrun|].
  pose proof Hcalc as Hframe.
  apply calc_corr_last12_frame in Hframe. destruct Hframe as [Hs [extra [Hh Hc]]].
  cbn [heap self] in Hs, Hh, Hc.
  rewrite calc_corr_last12_of_store in Hcalc.
  destruct (calc_corr_last12_store corr r (h ++ [df])) as [h2 res2] eqn:Hst.
  cbn [fst snd] in Hcalc. injection Hcalc as Hs1 Hres. subst res2.
  assert (Hheap : heap s1 = h2) by (rewrite <- Hs1; reflexivity).
  assert (Hh' : h2 = h ++ df :: extra) by (rewrite <- Hheap, Hh, <- app_assoc; reflexivity).
  assert (Hbase : nth (length h) (heap s1) empty_frame = df).
  { rewrite Hheap, Hh'. apply nth_middle. }
  rewrite Hs in Hrun. cbn [coluna set_df_correlacao set_df_base df_base init] in Hrun.
  destruct (getitem c0 (nth c (heap s1) empty_frame)) as [e|col] eqn:Hget;
    [discriminate Hrun|].
  rewrite Hbase in Hrun.
  destruct (lastE (index df)) as [e|last_period] eqn:Hlast; [discriminate Hrun|].
  destruct (walk _ _ _) as [s2 wres] eqn:Hwalk in Hrun.
  destruct wres as [e|[]]; [discriminate Hrun|].
  rewrite Hheap in Hget, Hwalk.
  exists h2, c, col, last_period, s2, extra.
  split; [reflexivity|]. split; [exact Hh'|]. split; [exact Hget|].
  split; [reflexivity|]. split; [exact Hwalk | exact Hrun].
Qed.

(** X17.  When [CorrelacaoAmplitude.fit] accepts its first candidate
    (rank 1), it has chosen what [SimpleCorrelation12.fit] chooses at its
    default position on the same series: the same window, with the same
    correlations, over the same store; and for every horizon the two
    [predict] methods return the same frame. *)
Theorem first_candidate_is_simple_default (r : ref) (h : list DataFrame) (c0 : Z)
    (anos : list Z) (ml mg : Z) (s1 : St) :
  fit corr r (mkSt h (init c0 anos ml mg)) = (s1, inr tt) ->
  posicao_ (self s1) = Some 1%nat ->
  exists t1 p,
    SimpleCorrelation12.fit corr r
      (SimpleCorrelation12.mkSt h (SimpleCorrelation12.init c0 None))
    = (t1, inr tt) /\
    SimpleCorrelation12.heap t1 = heap s1 /\
    SimpleCorrelation12._period_ (SimpleCorrelation12.self t1) = Some p /\
    period_escolhido_ini_ (self s1) = Some (p + 1) /\
    SimpleCorrelation12.correlacao_ (SimpleCorrelation12.self t1) = correlacao_ (self s1) /\
    SimpleCorrelation12.correlacao_outros_ (SimpleCorrelation12.self t1)
    = correlacao_outros_ (self s1) /\
    forall num,
      SimpleCorrelation12.heap (fst (SimpleCorrelation12.predict num t1))
      = heap (fst (predict num s1)) /\
      snd (SimpleCorrelation12.predict num t1) = snd (predict num s1).
Proof.
  intros Hrun Hpos.
  destruct (fit_returned_store r h c0 anos ml mg s1 Hrun)
    as (h2 & c & col & lastp & s2 & extra & Hst & Hh2 & Hget & Hlast & Hwalk & Hfin).
  set (df := nth r h empty_frame) in *.
  set (top := sort_values_desc col) in *.
  set (m0 := model_before_walk (init c0 anos ml mg) (length h) c df lastp) in *.
  pose proof (walk_heap top (seq 1 (length top - 1))
                (mkSt h2 (set_anos_rejeitados [] m0))) as Hheap.
  pose proof (walk_same_setup top (seq 1 (length top - 1))
                (mkSt h2 (set_anos_rejeitados [] m0))) as Hsetup.
  rewrite Hwalk in Hheap, Hsetup. cbn [fst heap self] in Hheap, Hsetup.
  apply walk_first with (b := length h) (amp := bounds_of df lastp) in Hwalk;
    [| reflexivity | reflexivity].
  assert (Hbase : nth (length h) h2 empty_frame = df) by (rewrite Hh2; apply nth_middle).
  rewrite Hbase in Hwalk.
  destruct Hwalk as (pre & l' & _ & _ & _ & _ & Hend).
  destruct s2 as [h2' m2]. cbn [heap self] in *. subst h2'.
  destruct Hsetup as (_ & Hdb & Hdc & _ & _).
  change (df_correlacao (set_anos_rejeitados [] m0)) with (Some c) in Hdc.
  change (df_base (set_anos_rejeitados [] m0)) with (Some (length h)) in Hdb.
  rewrite finish_run in Hfin.
  destruct Hend as [(_ & _ & Hnone) | (p & post & _ & Hcase)].
  { change (posicao_ m0) with (@None nat) in Hnone. rewrite Hnone in Hfin.
    discriminate Hfin. }
  destruct Hcase as [(_ & Hp & Hstart & Hpass) | (Hbad & _)]; [|discriminate Hbad].
  rewrite Hp, Hdc in Hfin.
  destruct (nth_error top p) as [e|] eqn:He; [|discriminate Hfin].
  destruct (loc (fst e) (nth c h2 empty_frame)) as [er|o] eqn:Hloc; [discriminate Hfin|].
  injection Hfin as <-.
  cbn [self heap posicao_ set_correlacao_outros set_correlacao] in Hpos.
  rewrite Hp in Hpos. injection Hpos as ->.
  assert (Hstart_e : start_of top 1 = fst e + 1).
  { unfold start_of. rewrite (nth_error_nth top 1 (0, nan) He). reflexivity. }
  rewrite Hstart_e in Hstart, Hpass.
  assert (Hin : In (fst e + 1) (index df)).
  { destruct Hpass as [ratio [Hcr _]]. eapply candidate_ratio_in_index. exact Hcr. }
  assert (Hpy : py_index 1 top = inr e) by (apply (py_index_nth_error 1 top e He)).
  eexists. exists (fst e).
  split.
  { rewrite (simple_fit_eval corr r h h2 _ c col Hst);
      [|cbn [SimpleCorrelation12.coluna SimpleCorrelation12.init]; exact Hget].
    cbn [SimpleCorrelation12.posicao SimpleCorrelation12.init].
    fold top. rewrite Hpy, Hloc. reflexivity. }
  cbn [SimpleCorrelation12.heap SimpleCorrelation12.self heap self].
  split; [reflexivity|]. split; [reflexivity|].
  split; [exact Hstart|].
  split; [reflexivity|]. split; [reflexivity|].
  intros num.
  rewrite (predict_run_horizon h2 _ (length h) (fst e + 1) lastp num);
    [| exact Hdb | exact Hstart | rewrite Hbase; exact Hlast | rewrite Hbase; exact Hin].
  unfold SimpleCorrelation12.predict.
  cbn [SimpleCorrelation12.heap SimpleCorrelation12.self SimpleCorrelation12._period_
       SimpleCorrelation12.df_base SimpleCorrelation12.set_mes_final_periodo
       SimpleCorrelation12.set_correlacao_outros SimpleCorrelation12.set_correlacao
       SimpleCorrelation12.set_period SimpleCorrelation12.set_df_correlacao
       SimpleCorrelation12.set_df_base].
  rewrite Hbase, Hlast.
  match goal with |- context [loc_from ?a ?b] =>
    replace (loc_from a b) with (@inr exn _ (rows_from (fst e + 1) df))
      by (symmetry; exact (loc_from_present (fst e + 1) df Hin))
  end.
  cbv zeta. cbn [fst snd heap SimpleCorrelation12.heap]. rewrite ?Hbase.
  unfold horizon. split; reflexivity.
Qed.

End ExtraAgreement.

(* ================================================================== *)
(** ** [CorrelacaoAmplitude.predict] without a chosen window *)

Section ExtraUnfitted.

Variable corr : nat -> list float -> list float -> float.

Local Opaque walk finish calc_corr_last12 sort_values_desc ratio_rows column_min
  column_max select_month lastE getitem rolling_corr iloc_tail iloc_head.

(** What a [fit] that raised leaves in the object: the copy of the series
    is assigned, no window is chosen. *)
Lemma fit_failed_state (r : ref) (h : list DataFrame) (c0 : Z) (anos : list Z)
    (ml mg : Z) (s' : St) (e : exn) :
  fit corr r (mkSt h (init c0 anos ml mg)) = (s', inl e) ->
  period_escolhido_ini_ (self s') = None /\
  df_base (self s') = Some (length h) /\
  nth (length h) (heap s') empty_frame = nth r h empty_frame.
Proof.
  intros Hrun.
  assert (Hnth : nth (length h) (heap s') empty_frame = nth r h empty_frame).
  { destruct (fit_run corr r h c0 anos ml mg s' (inl e) Hrun) as [[extra Hh] _].
    rewrite Hh. apply nth_middle. }
  cut (period_escolhido_ini_ (self s') = None /\ df_base (self s') = Some (length h)).
  { intros [H1 H2]. repeat split; assumption. }
  clear Hnth.
  rewrite fit_unfold in Hrun. cbv zeta in Hrun.
  set (df := nth r h empty_frame) in *.
  destruct (calc_corr_last12 corr r _) as [s1 [e1|c]] eqn:Hcalc;
    apply calc_corr_last12_frame in Hcalc; destruct Hcalc as [Hs [extra [Hh Hc]]];
    cbn [heap self] in Hs, Hh, Hc.
  { injection Hrun as <- _. rewrite Hs. split; reflexivity. }
  assert (Hbase : nth (length h) (heap s1) empty_frame = df).
  { rewrite Hh, <- app_assoc. apply nth_middle. }
  rewrite Hs in Hrun. cbn [coluna set_df_correlacao set_df_base df_base init] in Hrun.
  destruct (getitem c0 (nth c (heap s1) empty_frame)) as [e1|col] eqn:Hget.
  { injection Hrun as <- _. split; reflexivity. }
  rewrite Hbase in Hrun.
  destruct (lastE (index df)) as [e1|last_period] eqn:Hlast.
  { injection Hrun as <- _. split; reflexivity. }
  destruct (walk _ _ _) as [s2 wres] eqn:Hwalk in Hrun.
  change (mkSt (heap s1) _)
    with (mkSt (heap s1)
               (set_anos_rejeitados []
                  (model_before_walk (init c0 anos ml mg) (length h) c df last_period)))
    in Hwalk.
  apply walk_spec with (b := length h) (amp := bounds_of df last_period) in Hwalk;
    [| reflexivity | reflexivity].
  rewrite Hbase in Hwalk. destruct Hwalk as [Hh2 Hw]. destruct s2 as [h2 m2].
  cbn [heap self] in Hh2, Hw. subst h2.
  revert Hrun.
  destruct Hw as [l' Hl Hall | pre p post l' ratio Hpos Hl Hcr Hgt Hlt Hyr
                 | pre p post l' Hpos Hl Hcr]; intros Hrun.
  - rewrite finish_run in Hrun.
    cbn [posicao_ set_anos_rejeitados model_before_walk set_amplitudes set_ratio_mes
           set_df_correlacao set_df_base init] in Hrun.
    injection Hrun as <- _. split; reflexivity.
  - exfalso. rewrite finish_run in Hrun.
    cbn [posicao_ set_escolhido] in Hrun.
    assert (Hp : (p < length (sort_values_desc col))%nat).
    { assert (In p (seq 1 (length (sort_values_desc col) - 1))) as Hin
        by (rewrite Hpos; apply in_elt).
      apply in_seq in Hin. lia. }
    destruct (nth_error (sort_values_desc col) p) as [e1|] eqn:He;
      [| apply nth_error_None in He; lia].
    cbn [df_correlacao set_escolhido set_anos_rejeitados model_before_walk set_amplitudes
           set_ratio_mes set_df_correlacao set_df_base init] in Hrun.
    assert (Hloc : exists o, loc (fst e1) (nth c (heap s1) empty_frame) = inr o).
    { apply loc_defined. rewrite <- (getitem_index _ _ _ Hget).
      apply in_map. apply (Permutation_in _ (sort_values_desc_perm col)).
      eapply nth_error_In. exact He. }
    destruct Hloc as [o Ho]. rewrite Ho in Hrun. discriminate Hrun.
  - injection Hrun as <- _. split; reflexivity.
Qed.

(** X18.  [CorrelacaoAmplitude.predict] on a model whose [fit] raised on a
    series of monthly periods that is not empty: with no horizon, or the
    horizon 0, it raises [AttributeError]; with any other horizon [k] it
    does not raise, and returns the rows [iloc[:k]] of the whole series,
    from its first month, relabelled from the month after the last one. *)
Theorem predict_after_failed_fit (r : ref) (h : list DataFrame) (c0 : Z)
    (anos : list Z) (ml mg : Z) (s' : St) (e : exn) (last_period : Period) :
  freq_month_end (nth r h empty_frame) = true ->
  fit corr r (mkSt h (init c0 anos ml mg)) = (s', inl e) ->
  lastE (index (nth r h empty_frame)) = inr last_period ->
  predict None s' = (s', inl AttributeError) /\
  predict (Some 0) s' = (s', inl AttributeError) /\
  forall k, k <> 0 ->
    exists s2 out,
      predict (Some k) s' = (s2, inr out) /\
      values (nth out (heap s2) empty_frame)
      = map snd (iloc_head k (rows (nth r h empty_frame))) /\
      index (nth out (heap s2) empty_frame)
      = period_range (last_period + 1)
                     (length (iloc_head k (rows (nth r h empty_frame)))).
Proof.
  intros _ Hrun Hlast.
  destruct (fit_failed_state r h c0 anos ml mg s' e Hrun) as (Hp & Hb & Hnth).
  destruct s' as [h1 m1]. cbn [heap self] in *.
  assert (Hstart : forall num,
            predict num (mkSt h1 m1)
            = match (if match num with Some n => negb (n =? 0) | None => false end
                     then @inr exn Z (match num with Some n => n | None => 0 end)
                     else inl AttributeError) with
              | inl er => (mkSt h1 m1, inl er)
              | inr n =>
                  let taken := iloc_head n (rows (nth r h empty_frame)) in
                  (mkSt (h1 ++ [set_index (period_range (last_period + 1) (length taken))
                                          (with_rows taken (nth r h empty_frame))]) m1,
                   inr (length h1))
              end).
  { intros num. unfold predict. unfold bind at 1. cbn [get_self self].
    unfold bind at 1. unfold self_df_base at 1. unfold bind at 1. cbn [get_self self].
    rewrite Hb. cbn [deref heap]. unfold bind at 1. unfold lift at 1.
    rewrite Hnth, Hlast. cbn [ret]. unfold bind at 1. rewrite Hp.
    destruct (match num with Some n => negb (n =? 0) | None => false end);
      [|reflexivity].
    cbn [ret]. unfold bind at 1. unfold lift at 1. cbn [loc_from ret].
    unfold bind at 1. cbn [alloc heap self]. unfold bind at 1. cbn [mutate heap self ret].
    rewrite update_nth_app_r by lia. rewrite Nat.sub_diag. reflexivity. }
  split; [rewrite Hstart; reflexivity|].
  split; [rewrite Hstart; reflexivity|].
  intros k Hk. eexists. exists (length h1).
  split.
  { rewrite Hstart. cbn [negb].
    replace (k =? 0) with false by (symmetry; apply Z.eqb_neq; exact Hk).
    cbn [negb]. cbv zeta. reflexivity. }
  cbn [heap]. rewrite nth_middle.
  destruct (predict_result_frame (last_period + 1)
              (iloc_head k (rows (nth r h empty_frame))) (nth r h empty_frame))
    as (Hv & Hi & _ & _).
  split; [exact Hv | exact Hi].
Qed.

End ExtraUnfitted.

(* ================================================================== *)
(** * A station without retained ratios *)

Section ClaimsNanBounds.

Variable corr : nat -> list float -> list float -> float.

Local Opaque walk finish calc_corr_last12 sort_values_desc ratio_rows column_min
  column_max select_month lastE getitem rolling_corr iloc_tail.

(** On a monthly series whose last twelve rows cover the calendar, for a
    station of the series, [fit] gets as far as the bounds: whatever it
    ends in, [amplitudes_] is assigned. *)
Lemma fit_assigns_bounds (r : ref) (h : list DataFrame) (c0 : Z) (anos : list Z)
    (ml mg : Z) :
  freq_month_end (nth r h empty_frame) = true ->
  months_covered (iloc_tail 12 (rows (nth r h empty_frame))) = true ->
  In c0 (columns (nth r h empty_frame)) ->
  amplitudes_ (self (fst (fit corr r (mkSt h (init c0 anos ml mg))))) <> None.
Proof.
  intros Hf Hm Hc. rewrite fit_unfold. cbv zeta.
  set (df := nth r h empty_frame) in *.
  assert (Hdf : nth r (h ++ [df]) empty_frame = df) by (apply nth_after_own_copy).
  destruct (calc_corr_last12_run corr r
              (mkSt (h ++ [df]) (set_df_base (length h) (init c0 anos ml mg))))
    as [lastp [Hl Hrun]];
    [cbn [heap]; rewrite Hdf; exact Hf | cbn [heap]; rewrite Hdf; exact Hm |].
  cbn [heap self] in Hrun, Hl. rewrite Hdf in Hrun, Hl. rewrite Hrun. cbn [heap self].
  replace (nth (length (h ++ [df]) + 2) _ empty_frame) with (correlation_table corr df lastp)
    by (rewrite app_nth2 by lia;
        replace (length (h ++ [df]) + 2 - length (h ++ [df]))%nat with 2%nat by lia;
        reflexivity).
  cbn [coluna set_df_correlacao set_df_base df_base init].
  destruct (getitem_known_column c0 (correlation_table corr df lastp) Hc) as [col Hget].
  rewrite Hget.
  replace (nth (length h) _ empty_frame) with df
    by (rewrite <- app_assoc; symmetry; apply nth_middle).
  rewrite Hl.
  match goal with |- context [walk ?top ?pos ?st] =>
    pose proof (walk_same_setup top pos st) as Hsetup;
    destruct (walk top pos st) as [s2 [e|u]] end;
    cbn [fst self] in Hsetup; destruct Hsetup as (_ & _ & _ & Hmin & _);
    cbn [amplitudes_ set_anos_rejeitados set_amplitudes option_map] in Hmin.
  - cbn [fst self]. intros E. rewrite E in Hmin. discriminate Hmin.
  - destruct s2 as [h2 m2]. cbn [self] in Hmin. rewrite finish_run.
    destruct (posicao_ m2); [|cbn; intros E; rewrite E in Hmin; discriminate Hmin].
    destruct (nth_error _ _); [|cbn; intros E; rewrite E in Hmin; discriminate Hmin].
    destruct (df_correlacao m2); [|cbn; intros E; rewrite E in Hmin; discriminate Hmin].
    destruct (loc _ _); cbn; intros E; rewrite E in Hmin; discriminate Hmin.
Qed.

(** C8, as amended.  A station with no retained ratio stops nothing.  On a
    monthly series whose last twelve rows cover the calendar, for a
    reference station of the series, [fit] computes and assigns the
    bounds; those of the station are NaN, and with them the station is
    flagged by neither amplitude comparison of any candidate; and [fit]
    ends as the walk of the candidates decides: it returns, or it raises
    [TypeError] with every candidate rejected by a count or by an excluded
    year, or it raises the error of the lookup of a candidate whose
    following month is not a row of the series. *)
Theorem station_without_ratios_has_nan_bounds (r : ref) (h : list DataFrame)
    (c0 : Z) (anos : list Z) (ml mg : Z) (j : nat) :
  freq_month_end (nth r h empty_frame) = true ->
  months_covered (iloc_tail 12 (rows (nth r h empty_frame))) = true ->
  In c0 (columns (nth r h empty_frame)) ->
  rectangular (nth r h empty_frame) ->
  (j < length (columns (nth r h empty_frame)))%nat ->
  retained_ratios (nth r h empty_frame) j = [] ->
  exists s' res amp,
    fit corr r (mkSt h (init c0 anos ml mg)) = (s', res) /\
    amplitudes_ (self s') = Some amp /\
    nth j (amp_min amp) nan = nan /\
    nth j (amp_max amp) nan = nan /\
    (forall ratio,
       nth j (series_gt ratio (amp_max amp)) false = false /\
       nth j (series_lt ratio (amp_min amp)) false = false) /\
    (res = inr tt \/
     (res = inl TypeError /\
      Forall (fun p => rejected_by_checks (nth r h empty_frame) amp anos ml mg
                         (start_of (ranking_of c0 s') p))
             (seq 1 (length (ranking_of c0 s') - 1))) \/
     (exists p,
        (1 <= p < length (ranking_of c0 s'))%nat /\
        candidate_ratio (nth r h empty_frame) (start_of (ranking_of c0 s') p) = None /\
        res = inl (candidate_error (nth r h empty_frame)
                                   (start_of (ranking_of c0 s') p)))).
Proof.
  intros Hf Hm Hc Hrect Hj Hnone.
  pose proof (fit_assigns_bounds r h c0 anos ml mg Hf Hm Hc) as Hassigned.
  destruct (fit corr r (mkSt h (init c0 anos ml mg))) as [s' res] eqn:Hrun.
  cbn [fst] in Hassigned.
  destruct (amplitudes_ (self s')) as [amp|] eqn:Hamp; [clear Hassigned | congruence].
  exists s', res, amp.
  destruct (bounds_nan_without_ratios corr r h c0 anos ml mg s' res amp j
              Hrun Hamp Hrect Hj Hnone) as [Hmin Hmax].
  split; [reflexivity|]. split; [exact Hamp|].
  split; [exact Hmin|]. split; [exact Hmax|].
  split.
  { intros ratio.
    split; [apply series_gt_nan_bound, Hmax | apply series_lt_nan_bound, Hmin]. }
  apply fit_run in Hrun. cbv zeta in Hrun.
  destruct Hrun as [_ [[e [_ [Hn _]]] | [c [col [lastp [m' [wres H]]]]]]];
    [congruence|].
  destruct H as [Hcl [Hget [Hlast [Hw Hfin]]]].
  destruct s' as [h' ms]. cbn [heap self] in *.
  revert Hfin.
  destruct Hw as [l' Hl Hrej | pre p post l' ratio Hpos Hl Hcr Hgt Hlt Hyr
                 | pre p post l' Hpos Hl Hcr]; intros Hfin.
  - right. left. cbn in Hfin. destruct Hfin as [-> ->].
    rewrite (ranking_of_final c0 h' _ c col) by (try reflexivity; exact Hget).
    split; [reflexivity|].
    cbn in Hamp. injection Hamp as <-. exact Hrej.
  - left. cbn [posicao_ set_escolhido] in Hfin.
    destruct Hfin as [e [o [_ [_ [Hres _]]]]]. exact Hres.
  - right. right. destruct Hfin as [-> ->].
    rewrite (ranking_of_final c0 h' _ c col) by (try reflexivity; exact Hget).
    exists p. split.
    { assert (In p (seq 1 (length (sort_values_desc col) - 1))) as Hin
        by (rewrite Hpos; apply in_elt).
      apply in_seq in Hin. lia. }
    split; [exact Hcr | reflexivity].
Qed.

End ClaimsNanBounds.

(* ================================================================== *)
(** * The further properties on the worked inputs *)

(** The worked series under a [RangeIndex] is refused with an
    [AttributeError]. *)
Lemma not_monthly_index_is_refused_serie :
  calc_corr_last12 pearson_rolling 0%nat (mkSt [serie_sem_freq] (init 6 [] 5 5))
  = (mkSt [serie_sem_freq] (init 6 [] 5 5), inl AttributeError) /\
  fit pearson_rolling 0%nat (mkSt [serie_sem_freq] (init 6 [] 5 5))
  = (mkSt ([serie_sem_freq] ++ [serie_sem_freq]) (set_df_base 1%nat (init 6 [] 5 5)),
     inl AttributeError) /\
  SimpleCorrelation12.fit pearson_rolling 0%nat
    (SimpleCorrelation12.mkSt [serie_sem_freq] (SimpleCorrelation12.init 6 None))
  = (SimpleCorrelation12.mkSt ([serie_sem_freq] ++ [serie_sem_freq])
       (SimpleCorrelation12.set_df_base 1%nat (SimpleCorrelation12.init 6 None)),
     inl AttributeError).
Proof.
  apply (not_monthly_index_is_refused pearson_rolling 0%nat
           (mkSt [serie_sem_freq] (init 6 [] 5 5)) (SimpleCorrelation12.init 6 None)).
  reflexivity.
Defined.

(** Without its row of 1972-07 the worked series has no July among its
    last twelve rows. *)
Lemma missing_month_raises_index_error_serie :
  snd (calc_corr_last12 pearson_rolling 0%nat (mkSt [serie_com_falha] (init 6 [] 5 5)))
  = inl IndexError /\
  snd (fit pearson_rolling 0%nat (mkSt [serie_com_falha] (init 6 [] 5 5))) = inl IndexError.
Proof.
  apply (missing_month_raises_index_error pearson_rolling 0%nat
           (mkSt [serie_com_falha] (init 6 [] 5 5))).
  - reflexivity.
  - vm_compute. reflexivity.
Defined.

(** Five months are too few. *)
Lemma short_series_raises_index_error_serie :
  snd (calc_corr_last12 pearson_rolling 0%nat (mkSt [serie_curta] (init 6 [] 5 5)))
  = inl IndexError /\
  snd (fit pearson_rolling 0%nat (mkSt [serie_curta] (init 6 [] 5 5))) = inl IndexError.
Proof.
  apply (short_series_raises_index_error pearson_rolling 0%nat
           (mkSt [serie_curta] (init 6 [] 5 5))).
  - reflexivity.
  - vm_compute. lia.
Defined.

(** The table of the worked series. *)
Lemma correlation_table_shape_serie :
  exists last_period c,
    lastE (index (nth 0 (heap estado_serie) empty_frame)) = inr last_period /\
    snd (calc_corr_last12 pearson_rolling 0%nat estado_serie) = inr c /\
    (length (heap estado_serie) <= c)%nat /\
    index (nth c (heap (fst (calc_corr_last12 pearson_rolling 0%nat estado_serie))) empty_frame)
    = filter (fun p => month p =? month last_period)
             (index (nth 0 (heap estado_serie) empty_frame)) /\
    index_name (nth c (heap (fst (calc_corr_last12 pearson_rolling 0%nat estado_serie))) empty_frame)
    = Some "mes_final"%string /\
    columns (nth c (heap (fst (calc_corr_last12 pearson_rolling 0%nat estado_serie))) empty_frame)
    = columns (nth 0 (heap estado_serie) empty_frame) /\
    (forall row,
        In row (rows (nth c (heap (fst (calc_corr_last12 pearson_rolling 0%nat estado_serie)))
                          empty_frame)) ->
        length (snd row) = length (columns (nth 0 (heap estado_serie) empty_frame))) /\
    (forall i,
        (i < 11)%nat -> (i < length (rows (nth 0 (heap estado_serie) empty_frame)))%nat ->
        month (nth i (index (nth 0 (heap estado_serie) empty_frame)) 0) = month last_period ->
        In (nth i (index (nth 0 (heap estado_serie) empty_frame)) 0,
            repeat nan (length (columns (nth 0 (heap estado_serie) empty_frame))))
           (rows (nth c (heap (fst (calc_corr_last12 pearson_rolling 0%nat estado_serie)))
                      empty_frame))).
Proof.
  apply (correlation_table_shape pearson_rolling 0%nat estado_serie).
  - reflexivity.
  - vm_compute. reflexivity.
Defined.

Lemma serie_contiguous : contiguous serie.
Proof. exists 0. vm_compute. reflexivity. Qed.

(** The row of 1971-12 of the table of the worked series. *)
Lemma table_compares_with_last_twelve_months_serie :
  exists c,
    snd (calc_corr_last12 pearson_rolling 0%nat estado_serie) = inr c /\
    In (nth 23 (index (nth 0 (heap estado_serie) empty_frame)) 0,
        map (fun j =>
               pearson_rolling 23
                 (column j (values (nth 0 (heap estado_serie) empty_frame)))
                 (tiled (column j (values (nth 0 (heap estado_serie) empty_frame)))))
            (seq 0 (length (columns (nth 0 (heap estado_serie) empty_frame)))))
       (rows (nth c (heap (fst (calc_corr_last12 pearson_rolling 0%nat estado_serie)))
                  empty_frame)) /\
    forall j,
      window 23 (tiled (column j (values (nth 0 (heap estado_serie) empty_frame))))
      = window (length (rows (nth 0 (heap estado_serie) empty_frame)) - 1)
               (column j (values (nth 0 (heap estado_serie) empty_frame))).
Proof.
  apply (table_compares_with_last_twelve_months pearson_rolling 0%nat estado_serie 23).
  - reflexivity.
  - exact serie_contiguous.
  - vm_compute. lia.
  - vm_compute. reflexivity.
Defined.

(** Station 999 is no column of the worked series. *)
Lemma unknown_station_raises_key_error_serie :
  snd (fit pearson_rolling 0%nat (mkSt [serie] (init 999 [] 5 5))) = inl KeyError /\
  amplitudes_ (self (fst (fit pearson_rolling 0%nat (mkSt [serie] (init 999 [] 5 5)))))
  = amplitudes_ (init 999 [] 5 5) /\
  anos_rejeitados_ (self (fst (fit pearson_rolling 0%nat (mkSt [serie] (init 999 [] 5 5)))))
  = anos_rejeitados_ (init 999 [] 5 5).
Proof.
  apply (unknown_station_raises_key_error pearson_rolling 0%nat [serie] (init 999 [] 5 5)).
  - reflexivity.
  - vm_compute. reflexivity.
  - reflexivity.
Defined.

(** With 1972 excluded the worked series accepts rank 2 after one
    rejection. *)
Lemma fit_accepts_first_acceptable_serie :
  exists p amp,
    posicao_ (self (fst (fit_serie [1972] 5 5))) = Some p /\
    amplitudes_ (self (fst (fit_serie [1972] 5 5))) = Some amp /\
    (1 <= p < length (ranking_of 6 (fst (fit_serie [1972%Z] 5 5))))%nat /\
    passes_checks (nth 0 [serie] empty_frame) amp [1972] 5 5
                  (start_of (ranking_of 6 (fst (fit_serie [1972] 5 5))) p) /\
    (forall q, (1 <= q < p)%nat ->
       rejected_by_checks (nth 0 [serie] empty_frame) amp [1972] 5 5
                          (start_of (ranking_of 6 (fst (fit_serie [1972] 5 5))) q)) /\
    map ano (rejeitados_of (fst (fit_serie [1972] 5 5)))
    = map (fun q => year (start_of (ranking_of 6 (fst (fit_serie [1972] 5 5))) q))
          (seq 1 (p - 1)) /\
    map correlacao (rejeitados_of (fst (fit_serie [1972] 5 5)))
    = map (fun q => snd (nth q (ranking_of 6 (fst (fit_serie [1972] 5 5))) (0, nan)))
          (seq 1 (p - 1)).
Proof.
  apply (fit_accepts_first_acceptable pearson_rolling 0%nat [serie] 6 [1972] 5 5).
  vm_compute. reflexivity.
Defined.

(** On the series that never varies, with 1972 excluded, rank 1 is
    rejected and rank 2 is the reference window, whose following month is
    not in the series. *)
Lemma fit_raises_key_error_on_missing_month_constante :
  snd fit_constante_1972 = inl KeyError /\
  posicao_ (self (fst fit_constante_1972)) = None /\
  length (rejeitados_of (fst fit_constante_1972)) = (2 - 1)%nat.
Proof.
  apply (fit_raises_key_error_on_missing_month pearson_rolling 0%nat [serie_constante] 6 [1972] 5 5
           (fst fit_constante_1972) (snd fit_constante_1972)
           (amplitudes_of (fst fit_constante_1972)) 2).
  - vm_compute. reflexivity.
  - vm_compute. reflexivity.
  - vm_compute. lia.
  - intros q Hq. assert (Hq1 : q = 1%nat) by lia. subst q.
    eexists. split; [vm_compute; reflexivity|]. right. right. vm_compute. tauto.
  - vm_compute. intros H.
    repeat (destruct H as [H|H]; [discriminate H|]). exact H.
Defined.

(** The default forecast of the fitted model of the worked series: the
    twelve months of 1972. *)
Lemma predict_default_horizon_serie :
  exists s2 out last_period,
    predict None fitted_serie = (s2, inr out) /\
    predict (Some 0) fitted_serie = (s2, inr out) /\
    lastE (index (nth 0 [serie] empty_frame)) = inr last_period /\
    values (nth out (heap s2) empty_frame)
    = map snd (firstn (Z.to_nat (13 - month 24)%Z)
                      (rows_from 24%Z (nth 0 [serie] empty_frame))) /\
    index (nth out (heap s2) empty_frame)
    = period_range (last_period + 1)
        (length (firstn (Z.to_nat (13 - month 24)%Z)
                        (rows_from 24%Z (nth 0 [serie] empty_frame)))) /\
    (1 <= length (firstn (Z.to_nat (13 - month 24)%Z)
                         (rows_from 24%Z (nth 0 [serie] empty_frame))) <= 12)%nat.
Proof.
  apply (predict_default_horizon pearson_rolling 0%nat [serie] 6 [] 5 5 fitted_serie 24).
  - vm_compute. reflexivity.
  - vm_compute. reflexivity.
Defined.

Lemma predict_default_stays_in_chosen_year_serie :
  exists s2 out last_period,
    predict None fitted_serie = (s2, inr out) /\
    lastE (index (nth 0 [serie] empty_frame)) = inr last_period /\
    values (nth out (heap s2) empty_frame)
    = map snd (firstn (Z.to_nat (13 - month 24)%Z)
                      (rows_from 24%Z (nth 0 [serie] empty_frame))) /\
    map fst (firstn (Z.to_nat (13 - month 24)%Z) (rows_from 24%Z (nth 0 [serie] empty_frame)))
    = period_range 24%Z
        (length (firstn (Z.to_nat (13 - month 24)%Z)
                        (rows_from 24%Z (nth 0 [serie] empty_frame)))) /\
    length (firstn (Z.to_nat (13 - month 24)%Z) (rows_from 24%Z (nth 0 [serie] empty_frame)))
    = Z.to_nat (Z.min (13 - month 24)%Z (last_period - 24 + 1)) /\
    Forall (fun q => year q = year 24)
           (map fst (firstn (Z.to_nat (13 - month 24)%Z)
                            (rows_from 24%Z (nth 0 [serie] empty_frame)))).
Proof.
  apply (predict_default_stays_in_chosen_year pearson_rolling 0%nat [serie] 6 [] 5 5
           fitted_serie 24).
  - vm_compute. reflexivity.
  - vm_compute. reflexivity.
  - exact serie_contiguous.
Defined.

(** The horizon -2 on the fitted model of the worked series: ten of the
    twelve months of 1972. *)
Lemma predict_negative_horizon_drops_tail_serie :
  exists s2 out last_period,
    predict (Some (-2)) fitted_serie = (s2, inr out) /\
    lastE (index (nth 0 [serie] empty_frame)) = inr last_period /\
    values (nth out (heap s2) empty_frame)
    = map snd (firstn (length (rows_from 24%Z (nth 0 [serie] empty_frame)) - Z.to_nat (- -2))
                      (rows_from 24%Z (nth 0 [serie] empty_frame))) /\
    index (nth out (heap s2) empty_frame)
    = period_range (last_period + 1)
        (length (rows_from 24%Z (nth 0 [serie] empty_frame)) - Z.to_nat (- -2)) /\
    (length (rows_from 24%Z (nth 0 [serie] empty_frame)) - Z.to_nat (- -2)
     < length (rows_from 24%Z (nth 0 [serie] empty_frame)))%nat.
Proof.
  apply (predict_negative_horizon_drops_tail pearson_rolling 0%nat [serie] 6 [] 5 5
           fitted_serie 24 (-2)).
  - vm_compute. reflexivity.
  - vm_compute. reflexivity.
  - lia.
Defined.

(** The last position of the ranking of the worked series. *)
Lemma simple_fit_picks_requested_position_serie :
  exists entry last_period s',
    py_index (-1) (ranking_from pearson_rolling 6 (nth 0 [serie] empty_frame)) = inr entry /\
    lastE (index (nth 0 [serie] empty_frame)) = inr last_period /\
    simple_serie (Some (-1)) = (s', inr tt) /\
    SimpleCorrelation12._period_ (SimpleCorrelation12.self s') = Some (fst entry) /\
    SimpleCorrelation12.correlacao_ (SimpleCorrelation12.self s') = Some (snd entry) /\
    SimpleCorrelation12.mes_final_periodo_ (SimpleCorrelation12.self s')
    = Some (year (fst entry), month (fst entry)) /\
    In (fst entry) (index (nth 0 [serie] empty_frame)) /\
    month (fst entry) = month last_period.
Proof.
  apply (simple_fit_picks_requested_position pearson_rolling 0%nat [serie] 6 (-1)).
  - reflexivity.
  - vm_compute. reflexivity.
  - vm_compute. tauto.
  - assert (E : rows_in_last_month (nth 0 [serie] empty_frame) = 3%nat)
      by (vm_compute; reflexivity).
    rewrite E. lia.
Defined.

(** The ranking of the worked series has three entries: position 3 is
    outside it. *)
Lemma simple_fit_position_out_of_range_serie :
  exists s',
    simple_serie (Some 3) = (s', inl IndexError) /\
    SimpleCorrelation12._period_ (SimpleCorrelation12.self s') = None /\
    SimpleCorrelation12.correlacao_ (SimpleCorrelation12.self s') = None /\
    SimpleCorrelation12.df_base (SimpleCorrelation12.self s') = Some (length [serie]) /\
    SimpleCorrelation12.df_correlacao (SimpleCorrelation12.self s')
    = Some (length [serie] + 3)%nat.
Proof.
  apply (simple_fit_position_out_of_range pearson_rolling 0%nat [serie] 6 3).
  - reflexivity.
  - vm_compute. reflexivity.
  - vm_compute. tauto.
  - assert (E : rows_in_last_month (nth 0 [serie] empty_frame) = 3%nat)
      by (vm_compute; reflexivity).
    rewrite E. lia.
Defined.

(** After the failed fit at position 3, and before any fit. *)
Lemma simple_predict_without_fit_serie :
  SimpleCorrelation12.predict (Some 3) (fst (simple_serie (Some 3)))
  = (fst (simple_serie (Some 3)), inl (Exception msg_not_fitted)) /\
  SimpleCorrelation12.predict (Some 3)
    (SimpleCorrelation12.mkSt [serie] (SimpleCorrelation12.init 6 (Some 3)))
  = (SimpleCorrelation12.mkSt [serie] (SimpleCorrelation12.init 6 (Some 3)),
     inl (Exception msg_not_fitted)).
Proof.
  apply (simple_predict_without_fit pearson_rolling 0%nat [serie] 6 (Some 3)
           (fst (simple_serie (Some 3))) IndexError (Some 3)).
  vm_compute. reflexivity.
Defined.

(** Three months asked from the simple model of the worked series at its
    default position. *)
Lemma simple_predict_after_fit_serie :
  exists p last_period s2 out,
    SimpleCorrelation12._period_ (SimpleCorrelation12.self (fst (simple_serie None)))
    = Some p /\
    lastE (index (nth 0 [serie] empty_frame)) = inr last_period /\
    SimpleCorrelation12.predict (Some 3) (fst (simple_serie None)) = (s2, inr out) /\
    values (nth out (SimpleCorrelation12.heap s2) empty_frame)
    = map snd (iloc_head (horizon (Some 3) (p + 1))
                 (drop_until (fun row => p + 1 <=? fst row)
                             (rows (nth 0 [serie] empty_frame)))) /\
    index (nth out (SimpleCorrelation12.heap s2) empty_frame)
    = period_range (last_period + 1)
        (length (iloc_head (horizon (Some 3) (p + 1))
                   (drop_until (fun row => p + 1 <=? fst row)
                               (rows (nth 0 [serie] empty_frame))))) /\
    (p = last_period -> rows (nth out (SimpleCorrelation12.heap s2) empty_frame) = []).
Proof.
  apply (simple_predict_after_fit pearson_rolling 0%nat [serie] 6 None
           (fst (simple_serie None)) (Some 3)).
  - reflexivity.
  - vm_compute. reflexivity.
  - vm_compute. reflexivity.
Defined.

(** The fitted model of the worked series accepted rank 1. *)
Lemma first_candidate_is_simple_default_serie :
  exists t1 p,
    simple_serie None = (t1, inr tt) /\
    SimpleCorrelation12.heap t1 = heap fitted_serie /\
    SimpleCorrelation12._period_ (SimpleCorrelation12.self t1) = Some p /\
    period_escolhido_ini_ (self fitted_serie) = Some (p + 1) /\
    SimpleCorrelation12.correlacao_ (SimpleCorrelation12.self t1)
    = correlacao_ (self fitted_serie) /\
    SimpleCorrelation12.correlacao_outros_ (SimpleCorrelation12.self t1)
    = correlacao_outros_ (self fitted_serie) /\
    forall num,
      SimpleCorrelation12.heap (fst (SimpleCorrelation12.predict num t1))
      = heap (fst (predict num fitted_serie)) /\
      snd (SimpleCorrelation12.predict num t1) = snd (predict num fitted_serie).
Proof.
  apply (first_candidate_is_simple_default pearson_rolling 0%nat [serie] 6 [] 5 5 fitted_serie).
  - vm_compute. reflexivity.
  - vm_compute. reflexivity.
Defined.

(** After the fit of the worked series that rejected every candidate. *)
Lemma predict_after_failed_fit_serie :
  predict None (fst fit_serie_excluded) = (fst fit_serie_excluded, inl AttributeError) /\
  predict (Some 0) (fst fit_serie_excluded)
  = (fst fit_serie_excluded, inl AttributeError) /\
  forall k, k <> 0 ->
    exists s2 out,
      predict (Some k) (fst fit_serie_excluded) = (s2, inr out) /\
      values (nth out (heap s2) empty_frame)
      = map snd (iloc_head k (rows (nth 0 [serie] empty_frame))) /\
      index (nth out (heap s2) empty_frame)
      = period_range (35 + 1) (length (iloc_head k (rows (nth 0 [serie] empty_frame)))).
Proof.
  apply (predict_after_failed_fit pearson_rolling 0%nat [serie] 6 [1971; 1972] 5 5
           (fst fit_serie_excluded) TypeError 35).
  - reflexivity.
  - vm_compute. reflexivity.
  - reflexivity.
Defined.

(** Station 169 of the worked series retains no ratio. *)
Lemma station_without_ratios_serie :
  exists s' res amp,
    fit pearson_rolling 0%nat (mkSt [serie] (init 6 [] 5 5)) = (s', res) /\
    amplitudes_ (self s') = Some amp /\
    nth 2 (amp_min amp) nan = nan /\
    nth 2 (amp_max amp) nan = nan /\
    (forall ratio,
       nth 2 (series_gt ratio (amp_max amp)) false = false /\
       nth 2 (series_lt ratio (amp_min amp)) false = false) /\
    (res = inr tt \/
     (res = inl TypeError /\
      Forall (fun p => rejected_by_checks (nth 0 [serie] empty_frame) amp [] 5 5
                         (start_of (ranking_of 6 s') p))
             (seq 1 (length (ranking_of 6 s') - 1))) \/
     (exists p,
        (1 <= p < length (ranking_of 6 s'))%nat /\
        candidate_ratio (nth 0 [serie] empty_frame) (start_of (ranking_of 6 s') p) = None /\
        res = inl (candidate_error (nth 0 [serie] empty_frame)
                                   (start_of (ranking_of 6 s') p)))).
Proof.
  apply (station_without_ratios_has_nan_bounds pearson_rolling 0%nat [serie] 6 [] 5 5 2%nat).
  - reflexivity.
  - vm_compute. reflexivity.
  - vm_compute. tauto.
  - exact serie_rectangular.
  - vm_compute. lia.
  - vm_compute. reflexivity.
Defined.
